(** * GitHub sensor node: identity scheme, conditional fetching, backfill
      cursors, webhook identity derivation and dedup classification.

    A shallow embedding of the Python sources
      - [rid_types.py]                          (module [RidTypes])
      - [github_sensor_node/handlers.py]        (module [Handlers])
      - [github_sensor_node/gh_api.py]          (module [GhApi])
      - [github_sensor_node/backfill.py]        (module [Backfill])
      - [github_sensor_node/webhook_handlers.py] (module [Webhook])
    followed by the properties of the specification that concern them.

    Python [str] values are modelled by [string] (a sequence of bytes, the
    UTF-8 encoding of the text); since UTF-8 preserves code-point order, the
    byte-wise lexicographic order of [String.compare] is Python's [<] on
    [str].  Python exceptions are modelled by the [Raise] outcome of
    [result]. *)

From Stdlib Require Import ZArith Ascii String List Bool Lia.
From stdpp Require Import base option list gmap strings.

Local Open Scope string_scope.
Local Open Scope Z_scope.

(** ** Python outcomes *)

Inductive exn : Type :=
| ValueError (msg : string)
| OtherError (msg : string).

Inductive result (A : Type) : Type :=
| Ok (a : A)
| Raise (e : exn).
Arguments Ok {A} a.
Arguments Raise {A} e.

Definition is_ok {A} (r : result A) : bool :=
  match r with Ok _ => true | Raise _ => false end.

Definition is_raise {A} (r : result A) : bool := negb (is_ok r).

(** ** Python string primitives *)

Module PyStr.

(** [c in s] for a one-character [c]. *)
Fixpoint contains (c : ascii) (s : string) : bool :=
  match s with
  | EmptyString => false
  | String a r => if Ascii.eqb a c then true else contains c r
  end.

(** [s.count(c)] for a one-character [c]. *)
Fixpoint count (c : ascii) (s : string) : nat :=
  match s with
  | EmptyString => O
  | String a r => if Ascii.eqb a c then S (count c r) else count c r
  end.

(** Put a character in front of the first field of a split. *)
Definition cons_head (a : ascii) (parts : list string) : list string :=
  match parts with
  | h :: t => String a h :: t
  | [] => [String a EmptyString]
  end.

(** [s.split(sep)] for a one-character [sep]: splits at every
    occurrence; the empty string gives one empty field. *)
Fixpoint split (sep : ascii) (s : string) : list string :=
  match s with
  | EmptyString => [EmptyString]
  | String a r =>
      if Ascii.eqb a sep then EmptyString :: split sep r
      else cons_head a (split sep r)
  end.

(** [s.split(sep, 1)]: splits at the first occurrence only. *)
Fixpoint split1 (sep : ascii) (s : string) : list string :=
  match s with
  | EmptyString => [EmptyString]
  | String a r =>
      if Ascii.eqb a sep then [EmptyString; r]
      else cons_head a (split1 sep r)
  end.

(** [s.replace(a, b)] for one-character [a] and [b]. *)
Fixpoint replace (a b : ascii) (s : string) : string :=
  match s with
  | EmptyString => EmptyString
  | String c r => String (if Ascii.eqb c a then b else c) (replace a b r)
  end.

(** [s[:n]] for a non-negative [n]. *)
Fixpoint take (n : nat) (s : string) : string :=
  match n, s with
  | S k, String c r => String c (take k r)
  | _, _ => EmptyString
  end.

(** Truthiness of a [str]: non-empty. *)
Definition truthy (s : string) : bool :=
  match s with EmptyString => false | String _ _ => true end.

(** Truthiness of an [Optional[str]]: not [None] and non-empty. *)
Definition otruthy (o : option string) : bool :=
  match o with Some s => truthy s | None => false end.

(** [a > b] on [str]. *)
Definition gtb (a b : string) : bool := String.ltb b a.

(** [a <= b] on [str]. *)
Definition leb (a b : string) : bool := String.leb a b.

End PyStr.

(** ** rid_types.py : the [GitHubEvent] identity *)

Module RidTypes.

Record GitHubEvent : Type := mkGitHubEvent {
  repo_full_name : string;
  event_id : string
}.

(** The guard shared by the constructor and the parser:
    ['/' not in repo_full_name or len(repo_full_name.split('/')) != 2]. *)
Definition bad_repo_full_name (r : string) : bool :=
  negb (PyStr.contains "/" r)
  || negb (Nat.eqb (List.length (PyStr.split "/" r)) 2).

(** [GitHubEvent.__init__] *)
Definition init (repo : string) (eid : string) : result GitHubEvent :=
  if bad_repo_full_name repo then
    Raise (ValueError ("Invalid repo_full_name format: " ++ repo
                       ++ ". Expected 'owner/repo'."))
  else Ok (mkGitHubEvent repo eid).

(** [GitHubEvent.reference] *)
Definition reference (e : GitHubEvent) : string :=
  repo_full_name e ++ ":" ++ event_id e.

(** [GitHubEvent.from_reference] *)
Definition from_reference (ref : string) : result GitHubEvent :=
  match PyStr.split1 ":" ref with
  | [repo; eid] =>
      if bad_repo_full_name repo then
        Raise (ValueError ("Invalid repository part in GitHubEvent reference: '"
                           ++ repo ++ "'. Expected 'owner/repo'."))
      else if negb (PyStr.truthy eid) then
        Raise (ValueError ("Event ID part cannot be empty in GitHubEvent reference: '"
                           ++ ref ++ "'."))
      else init repo eid
  | _ =>
      Raise (ValueError ("Invalid GitHubEvent reference format: '" ++ ref
                         ++ "'. Expected 'owner/repo:event_id'."))
  end.

End RidTypes.

(** ** handlers.py : the dedup classifier (manifest handler) *)

Module Handlers.
Import RidTypes.

(** [KoiEventType], as far as the handler assigns it. *)
Inductive KoiEventType : Type := NEW | UPDATE | FORGET.

(** A RID reaching the handler: a [GitHubEvent] or any other RID type
    (the [isinstance] test only separates the two). *)
Inductive RID : Type :=
| RidGitHubEvent (e : GitHubEvent)
| RidOther (text : string).

(** [Manifest]: the content hash and the time it was taken (the
    [datetime] is modelled by its position on the time line). *)
Record Manifest : Type := mkManifest {
  sha256_hash : string;
  timestamp : Z
}.

(** [Bundle]: the cached record.  The handler tests [prev_bundle.manifest]
    for truthiness, so the field is optional here. *)
Record Bundle : Type := mkBundle {
  b_manifest : option Manifest;
  b_contents : string
}.

Record KnowledgeObject : Type := mkKObj {
  rid : RID;
  manifest : option Manifest;
  event_type : option KoiEventType;
  normalized_event_type : option KoiEventType
}.

Definition set_normalized (t : KoiEventType) (k : KnowledgeObject)
  : KnowledgeObject :=
  {| rid := rid k; manifest := manifest k; event_type := event_type k;
     normalized_event_type := Some t |}.

(** What a handler hands back to the pipeline: the knowledge object, or
    the [STOP_CHAIN] sentinel. *)
Inductive HandlerResult : Type :=
| Continue (k : KnowledgeObject)
| STOP_CHAIN.

(** [processor.cache.read]: the stored bundle, [None], or an exception. *)
Definition Cache : Type := RID -> result (option Bundle).

(** [kobj.manifest and prev_bundle.manifest and
     kobj.manifest.sha256_hash == prev_bundle.manifest.sha256_hash] *)
Definition same_hash (km pm : option Manifest) : bool :=
  match km, pm with
  | Some k, Some p => String.eqb (sha256_hash k) (sha256_hash p)
  | _, _ => false
  end.

(** The condition of the anomaly warning (it only logs):
    [kobj.manifest and prev_bundle.manifest and
     kobj.manifest.timestamp <= prev_bundle.manifest.timestamp]. *)
Definition older_or_same (km pm : option Manifest) : bool :=
  match km, pm with
  | Some k, Some p => timestamp k <=? timestamp p
  | _, _ => false
  end.

(** The [try: prev_bundle = processor.cache.read(kobj.rid) except: ...]
    block: an exception leaves [prev_bundle = None]. *)
Definition read_prev (cache : Cache) (r : RID) : option Bundle :=
  match cache r with
  | Ok b => b
  | Raise _ => None
  end.

(** [github_event_manifest_handler] (logging left out). *)
Definition github_event_manifest_handler (cache : Cache)
    (kobj : KnowledgeObject) : HandlerResult :=
  match rid kobj with
  | RidOther _ => Continue kobj
  | RidGitHubEvent _ =>
      match read_prev cache (rid kobj) with
      | Some prev_bundle =>
          if same_hash (manifest kobj) (b_manifest prev_bundle)
          then STOP_CHAIN
          else Continue (set_normalized UPDATE kobj)
      | None => Continue (set_normalized NEW kobj)
      end
  end.

End Handlers.

(** ** gh_api.py : the conditional API client *)

Module GhApi.

(** A JSON object of the upstream API, by the fields read here
    ([node_id], [id], [updated_at], [sha], ...): a field holds a string
    (a number is held by its decimal rendering) or [null], which is
    [None]. *)
Abbreviation Item := (gmap string (option string)).

(** [d.get(key)]: [None] for a missing key as for a [null]. *)
Definition get (d : Item) (key : string) : option string :=
  mjoin (d !! key).

(** [d.get(key, default)]: the default only for a missing key. *)
Definition get_default (d : Item) (key : string) (dflt : option string)
  : option string :=
  match d !! key with
  | Some v => v
  | None => dflt
  end.

(** The rendering of a value inside an f-string. *)
Definition format (v : option string) : string :=
  match v with
  | Some s => s
  | None => "None"
  end.

(** The query parameters the list fetchers use. *)
Record Params : Type := mkParams {
  p_state : option string;
  p_per_page : option Z;
  p_since : option string;
  p_page : option Z
}.

Definition set_page (n : Z) (p : Params) : Params :=
  {| p_state := p_state p; p_per_page := p_per_page p;
     p_since := p_since p; p_page := Some n |}.

Definition set_since (s : string) (p : Params) : Params :=
  {| p_state := p_state p; p_per_page := p_per_page p;
     p_since := Some s; p_page := p_page p |}.

(** The request as it leaves the client: of the headers only
    [If-None-Match] varies. *)
Record Request : Type := mkRequest {
  rq_method : string;
  rq_path : string;
  rq_params : option Params;
  rq_if_none_match : option string
}.

(** What [client.request] does: it returns a response (status code, the
    [ETag] header if any, and what [response.json()] will give: the
    decoded body, or the exception it raises on a body that is not JSON),
    raises [httpx.RequestError] (timeout, connection error), or raises
    another exception.  A decoded body is of the shape the endpoint
    documents (an object, a list of objects). *)
Inductive HttpOutcome (B : Type) : Type :=
| Responded (status : Z) (etag_header : option string) (body : result B)
| RequestError
| OtherException (e : exn).
Arguments Responded {B} status etag_header body.
Arguments RequestError {B}.
Arguments OtherException {B} e.

Definition Transport (B : Type) : Type := Request -> HttpOutcome B.

(** The response object; [json] is the outcome of [response.json()]. *)
Record Response (B : Type) : Type := mkResponse {
  status_code : Z;
  header_etag : option string;
  json : result B
}.
Arguments mkResponse {B} _ _ _.
Arguments status_code {B} _.
Arguments header_etag {B} _.
Arguments json {B} _.

(** [response.raise_for_status()] raises [HTTPStatusError] unless the
    status is a success (2xx). *)
Definition is_success (status : Z) : bool :=
  (200 <=? status) && (status <=? 299).

(** The request [_make_github_request] sends:
    [if etag: headers["If-None-Match"] = etag]. *)
Definition build_request (method path : string) (params : option Params)
    (etag : option string) : Request :=
  mkRequest method path params (if PyStr.otruthy etag then etag else None).

(** [_make_github_request]: the two [except] clauses turn an HTTP error
    status and a request error into a result; any other exception leaves
    the function. *)
Definition _make_github_request {B} (T : Transport B)
    (method path : string) (params : option Params) (etag : option string)
  : result (option (Response B) * option string) :=
  match T (build_request method path params etag) with
  | Responded status current_response_etag body =>
      if status =? 304 then Ok (None, etag)
      else if is_success status
      then Ok (Some (mkResponse status current_response_etag body),
               current_response_etag)
      else Ok (None, current_response_etag)   (* except HTTPStatusError *)
  | RequestError => Ok (None, None)            (* except RequestError *)
  | OtherException e => Raise e
  end.

(** The shape shared by [get_repo_details] and the other detail
    fetchers: [except Exception] turns whatever the request or the
    decoding raises into [(None, None)]. *)
Definition get_details (T : Transport Item) (path : string)
    (etag : option string) : option Item * option string :=
  match _make_github_request T "GET" path None etag with
  | Ok (None, new_etag) => (None, new_etag)
  | Ok (Some response, new_etag) =>
      match json response with
      | Ok data => (Some data, new_etag)
      | Raise _ => (None, None)
      end
  | Raise _ => (None, None)
  end.

(** [get_repo_details] *)
Definition get_repo_details (T : Transport Item) (owner repo : string)
    (etag : option string) : option Item * option string :=
  get_details T ("/repos/" ++ owner ++ "/" ++ repo) etag.

(** The local variables of [get_repo_list_paged], with the requests sent
    so far and the exception that left the function, if one did. *)
Record Paging : Type := mkPaging {
  all_items : list Item;
  etag_to_return : option string;
  requests : list Request;
  raised : option exn
}.

Definition per_page_of (params : Params) : Z :=
  default 30 (p_per_page params).

(** The body of [for page_num in range(1, max_pages + 1)]; [fuel] is the
    number of page numbers left in the range.  Neither the request nor
    [response.json()] is guarded here: what they raise ends the loop and
    the function. *)
Fixpoint paged_loop (T : Transport (list Item)) (path : string)
    (fuel : nat) (page_num : Z) (params : Params)
    (current_page_etag : option string) (st : Paging) : Paging :=
  match fuel with
  | O => st
  | S fuel' =>
      let params := set_page page_num params in
      let sent_etag :=
        if page_num =? 1 then current_page_etag else None in
      let rq := build_request "GET" path (Some params) sent_etag in
      match _make_github_request T "GET" path (Some params) sent_etag with
      | Raise e =>
          mkPaging (all_items st) (etag_to_return st) (requests st ++ [rq])
            (Some e)
      | Ok (response, new_etag_for_this_page) =>
          let etag_to_return' :=
            if page_num =? 1 then
              (if PyStr.otruthy new_etag_for_this_page
               then new_etag_for_this_page else current_page_etag)
            else etag_to_return st in
          let st1 := mkPaging (all_items st) etag_to_return'
                       (requests st ++ [rq]) None in
          match response with
          | None => st1                              (* 304 or error *)
          | Some resp =>
              match json resp with
              | Raise e =>
                  mkPaging (all_items st) etag_to_return' (requests st1)
                    (Some e)
              | Ok [] => st1                         (* empty page *)
              | Ok page_data =>
                  let st2 := mkPaging (all_items st ++ page_data)
                               etag_to_return' (requests st1) None in
                  if Z.of_nat (List.length page_data) <? per_page_of params
                  then st2                           (* last page *)
                  else paged_loop T path fuel' (page_num + 1) params None
                         st2
              end
          end
      end
  end.

Definition run_paged (T : Transport (list Item)) (path : string)
    (params : Params) (etag : option string) (max_pages : Z) : Paging :=
  paged_loop T path (Z.to_nat max_pages) 1 params etag
    (mkPaging [] etag [] None).

(** [get_repo_list_paged] *)
Definition get_repo_list_paged (T : Transport (list Item)) (path : string)
    (params : Params) (etag : option string) (max_pages : Z)
  : result (list Item * option string) :=
  let st := run_paged T path params etag max_pages in
  match raised st with
  | Some e => Raise e
  | None => Ok (all_items st, etag_to_return st)
  end.

Definition default_max_pages : Z := 10.

Definition with_since (since : option string) (p : Params) : Params :=
  match since with
  | Some s => if PyStr.truthy s then set_since s p else p
  | None => p
  end.

(** [get_repo_commits] *)
Definition get_repo_commits (T : Transport (list Item))
    (owner repo : string) (since : option string) (per_page : Z)
    (etag : option string)
  : result (list Item * option string) :=
  let path := "/repos/" ++ owner ++ "/" ++ repo ++ "/commits" in
  let params := with_since since (mkParams None (Some per_page) None None) in
  get_repo_list_paged T path params etag default_max_pages.

(** [get_repo_issues] *)
Definition get_repo_issues (T : Transport (list Item))
    (owner repo : string) (state : string) (since : option string)
    (per_page : Z) (etag : option string)
  : result (list Item * option string) :=
  let path := "/repos/" ++ owner ++ "/" ++ repo ++ "/issues" in
  let params :=
    with_since since (mkParams (Some state) (Some per_page) None None) in
  get_repo_list_paged T path params etag default_max_pages.

(** [get_repo_pull_requests] *)
Definition get_repo_pull_requests (T : Transport (list Item))
    (owner repo : string) (state : string) (per_page : Z)
    (etag : option string)
  : result (list Item * option string) :=
  let path := "/repos/" ++ owner ++ "/" ++ repo ++ "/pulls" in
  let params := mkParams (Some state) (Some per_page) None None in
  get_repo_list_paged T path params etag default_max_pages.

End GhApi.

(** ** backfill.py : the backfill controller *)

Module Backfill.
Import RidTypes GhApi.
Export Handlers(KoiEventType, NEW, UPDATE, FORGET).

(** [node.config.github], and the clock reading the lookback seed is
    computed from: [(datetime.utcnow() - timedelta(days=...)).isoformat()
    + "Z"]. *)
Record Config : Type := mkConfig {
  backfill_max_items : Z;
  backfill_lookback_days : Z;
  lookback_since_iso : string
}.

(** The two kinds of endpoint of the upstream API. *)
Record Upstream : Type := mkUpstream {
  details_api : Transport Item;
  list_api : Transport (list Item)
}.

(** One call of [node.processor.handle(bundle=..., event_type=...)]: the
    RID and contents the bundle is generated from, and the event type. *)
Record Handled : Type := mkHandled {
  h_rid : GitHubEvent;
  h_event_source_type : string;
  h_payload : Item;
  h_event_type : KoiEventType
}.

(** The mutable world of a pass: the [repo_state] dict (mutated in place)
    and the calls made to the processor. *)
Record BState : Type := mkBState {
  repo_state : gmap string (option string);
  handled : list Handled
}.

(** State and exception monad: an exception keeps the mutations made
    before it. *)
Definition M (A : Type) : Type := BState -> result A * BState.

Definition ret {A} (a : A) : M A := fun s => (Ok a, s).

Definition bind {A B} (m : M A) (k : A -> M B) : M B :=
  fun s =>
    match m s with
    | (Ok a, s') => k a s'
    | (Raise e, s') => (Raise e, s')
    end.

(** A call that returns or raises without touching the state. *)
Definition lift {A} (r : result A) : M A := fun s => (r, s).

Declare Scope bf_scope.
Delimit Scope bf_scope with bf.
Notation "x <- m ;; k" := (bind m (fun x => k))
  (at level 100, m at next level, right associativity) : bf_scope.
Notation "m ;; k" := (bind m (fun _ => k))
  (at level 100, right associativity) : bf_scope.
Local Open Scope bf_scope.

(** [repo_state.get(key)] *)
Definition state_get (key : string) : M (option string) :=
  fun s => (Ok (mjoin (repo_state s !! key)), s).

(** [repo_state[key] = value] *)
Definition state_set (key : string) (value : option string) : M unit :=
  fun s => (Ok tt, mkBState (<[key := value]> (repo_state s)) (handled s)).

(** [if value: repo_state[key] = value] *)
Definition state_set_if_truthy (key : string) (value : option string)
  : M unit :=
  if PyStr.otruthy value then state_set key value else ret tt.

(** [node.processor.handle(bundle=Bundle.generate(rid, contents),
    event_type=t)] *)
Definition handle (r : GitHubEvent) (source_type : string) (payload : Item)
    (t : KoiEventType) : M unit :=
  fun s => (Ok tt, mkBState (repo_state s)
                     (handled s ++ [mkHandled r source_type payload t])).

(** [l[:n]] *)
Definition slice_to {A} (n : Z) (l : list A) : list A :=
  if 0 <=? n then take (Z.to_nat n) l
  else take (List.length l - Z.to_nat (- n))%nat l.

(** [if updated_at and (latest is None or updated_at > latest):
       latest = updated_at] *)
Definition bump (updated_at latest : option string) : option string :=
  match updated_at with
  | Some u =>
      if PyStr.truthy u then
        match latest with
        | None => updated_at
        | Some l => if PyStr.gtb u l then updated_at else latest
        end
      else latest
  | None => latest
  end.

(** The loop shared in shape by the issues and the pull-request sections:
    [for item in fetched[:max_items]: ...], threading the newest
    [updated_at] seen. *)
Fixpoint cursor_loop (repo_full_name prefix source_type : string)
    (items : list Item) (latest : option string) : M (option string) :=
  match items with
  | [] => ret latest
  | item :: rest =>
      let node_id := get item "node_id" in
      let updated_at := get item "updated_at" in
      match node_id with
      | Some nid =>
          if PyStr.truthy nid then
            r <- lift (init repo_full_name (prefix ++ nid)) ;;
            handle r source_type item NEW ;;
            cursor_loop repo_full_name prefix source_type rest
              (bump updated_at latest)
          else cursor_loop repo_full_name prefix source_type rest latest
      | None => cursor_loop repo_full_name prefix source_type rest latest
      end
  end.

(** Section 1: repository details.  The event id is
    [f"details_{repo_data.get('node_id', repo_data.get('id', 'static'))}"]:
    a [node_id] that is present but [null] is not replaced by the [id]. *)
Definition backfill_details (up : Upstream) (owner repo_name : string)
  : M unit :=
  let repo_full_name := owner ++ "/" ++ repo_name in
  repo_details_etag <- state_get "repo_details_etag" ;;
  let '(repo_data, new_repo_details_etag) :=
    get_repo_details (details_api up) owner repo_name repo_details_etag in
  state_set_if_truthy "repo_details_etag" new_repo_details_etag ;;
  match repo_data with
  | Some d =>
      if decide (d = ∅) then ret tt
      else
        let key :=
          get_default d "node_id" (get_default d "id" (Some "static")) in
        r <- lift (init repo_full_name ("details_" ++ format key)) ;;
        handle r "backfill_repo_details" d UPDATE
  | None => ret tt
  end.

(** The loop of the commits section. *)
Fixpoint commits_loop (repo_full_name : string) (items : list Item)
  : M unit :=
  match items with
  | [] => ret tt
  | item :: rest =>
      match get item "sha" with
      | Some sha =>
          if PyStr.truthy sha then
            r <- lift (init repo_full_name ("commit_" ++ sha)) ;;
            handle r "backfill_commit" item NEW ;;
            commits_loop repo_full_name rest
          else commits_loop repo_full_name rest
      | None => commits_loop repo_full_name rest
      end
  end.

(** Section 2: commits. *)
Definition backfill_commits (up : Upstream) (cfg : Config)
    (owner repo_name : string) : M unit :=
  let repo_full_name := owner ++ "/" ++ repo_name in
  let max_items := backfill_max_items cfg in
  commits_list_etag <- state_get "commits_list_etag" ;;
  fetch <- lift (get_repo_commits (list_api up) owner repo_name None
                   max_items commits_list_etag) ;;
  let '(fetched, new_etag) := fetch in
  state_set_if_truthy "commits_list_etag" new_etag ;;
  match fetched with
  | [] => ret tt
  | _ => commits_loop repo_full_name (slice_to max_items fetched)
  end.

(** The lookback seed: [if not last_ts and lookback_days > 0:
    last_ts = since_date.isoformat() + "Z"]. *)
Definition seed_since (cfg : Config) (last_ts : option string)
  : option string :=
  if negb (PyStr.otruthy last_ts) && (0 <? backfill_lookback_days cfg)
  then Some (lookback_since_iso cfg) else last_ts.

(** The cursor block the issues and the pull-request sections share in
    shape: [new_latest = repo_state.get(key)], the loop over
    [fetched[:max_items]] when something was fetched, and
    [if new_latest: repo_state[key] = new_latest]. *)
Definition advance_cursor (key repo_full_name prefix source_type : string)
    (max_items : Z) (fetched : list Item) : M unit :=
  new_latest <- state_get key ;;
  match fetched with
  | [] => ret tt
  | _ =>
      latest <- cursor_loop repo_full_name prefix source_type
                  (slice_to max_items fetched) new_latest ;;
      state_set_if_truthy key latest
  end.

(** Section 3: issues. *)
Definition backfill_issues (up : Upstream) (cfg : Config)
    (owner repo_name : string) : M unit :=
  let repo_full_name := owner ++ "/" ++ repo_name in
  let max_items := backfill_max_items cfg in
  issues_list_etag <- state_get "issues_list_etag" ;;
  last_ts <- state_get "issues_last_processed_update_ts" ;;
  let since := seed_since cfg last_ts in
  fetch <- lift (get_repo_issues (list_api up) owner repo_name "all" since
                   max_items issues_list_etag) ;;
  let '(fetched, new_etag) := fetch in
  state_set_if_truthy "issues_list_etag" new_etag ;;
  advance_cursor "issues_last_processed_update_ts" repo_full_name
    "issue_" "backfill_issue" max_items fetched.

(** Section 4: pull requests (the seeded timestamp is computed but not
    sent: the list is fetched without [since]). *)
Definition backfill_prs (up : Upstream) (cfg : Config)
    (owner repo_name : string) : M unit :=
  let repo_full_name := owner ++ "/" ++ repo_name in
  let max_items := backfill_max_items cfg in
  prs_list_etag <- state_get "prs_list_etag" ;;
  fetch <- lift (get_repo_pull_requests (list_api up) owner repo_name "all"
                   max_items prs_list_etag) ;;
  let '(fetched, new_etag) := fetch in
  state_set_if_truthy "prs_list_etag" new_etag ;;
  advance_cursor "prs_last_processed_update_ts" repo_full_name
    "pr_" "backfill_pr" max_items fetched.

(** [backfill_repository_data] *)
Definition backfill_repository_data (up : Upstream) (cfg : Config)
    (owner repo_name : string) : M unit :=
  backfill_details up owner repo_name ;;
  backfill_commits up cfg owner repo_name ;;
  backfill_issues up cfg owner repo_name ;;
  backfill_prs up cfg owner repo_name.

(** *** Vocabulary of the statements about cursors *)

(** [repo_state.get(key)] on a state. *)
Definition cursor (key : string) (s : BState) : option string :=
  mjoin (repo_state s !! key).

(** The items the cursor loop handles: those with a node id. *)
Definition processed (items : list Item) : list Item :=
  List.filter (fun it => PyStr.otruthy (get it "node_id")) items.

(** The [updated_at] values the loop compares: the non-empty ones. *)
Definition update_times (items : list Item) : list string :=
  omap (fun it : Item =>
          match get it "updated_at" with
          | Some u => if PyStr.truthy u then Some u else None
          | None => None
          end) items.

(** The items of a fetch: none when it raised. *)
Definition fetched_items (r : result (list Item * option string))
  : list Item :=
  match r with
  | Ok (items, _) => items
  | Raise _ => []
  end.

(** What the commits section fetches from state [s]. *)
Definition commits_fetched (up : Upstream) (cfg : Config)
    (owner repo_name : string) (s : BState)
  : result (list Item * option string) :=
  get_repo_commits (list_api up) owner repo_name None
    (backfill_max_items cfg) (cursor "commits_list_etag" s).

(** What the issues section fetches from state [s]. *)
Definition issues_fetched (up : Upstream) (cfg : Config)
    (owner repo_name : string) (s : BState)
  : result (list Item * option string) :=
  get_repo_issues (list_api up) owner repo_name "all"
    (seed_since cfg (cursor "issues_last_processed_update_ts" s))
    (backfill_max_items cfg) (cursor "issues_list_etag" s).

(** What the pull-request section fetches from state [s]. *)
Definition prs_fetched (up : Upstream) (cfg : Config)
    (owner repo_name : string) (s : BState)
  : result (list Item * option string) :=
  get_repo_pull_requests (list_api up) owner repo_name "all"
    (backfill_max_items cfg) (cursor "prs_list_etag" s).

(** A computation writes [repo_state] at most at the keys [keys],
    whatever its outcome. *)
Definition writes_only {A} (keys : list string) (m : M A) : Prop :=
  forall s k, ~ In k keys ->
    repo_state (snd (m s)) !! k = repo_state s !! k.




End Backfill.

(** ** hashlib.sha256 : SHA-256 (FIPS 180-4) over byte strings *)

Module Sha256.

Definition mask32 : Z := 0xffffffff.

Definition add32 (a b : Z) : Z := Z.land (a + b) mask32.

Definition rotr (n x : Z) : Z :=
  Z.lor (Z.shiftr x n) (Z.land (Z.shiftl x (32 - n)) mask32).

Definition Ch (x y z : Z) : Z :=
  Z.lxor (Z.land x y) (Z.land (Z.lxor x mask32) z).

Definition Maj (x y z : Z) : Z :=
  Z.lxor (Z.lxor (Z.land x y) (Z.land x z)) (Z.land y z).

Definition Sigma0 (x : Z) : Z :=
  Z.lxor (Z.lxor (rotr 2 x) (rotr 13 x)) (rotr 22 x).

Definition Sigma1 (x : Z) : Z :=
  Z.lxor (Z.lxor (rotr 6 x) (rotr 11 x)) (rotr 25 x).

Definition sigma0 (x : Z) : Z :=
  Z.lxor (Z.lxor (rotr 7 x) (rotr 18 x)) (Z.shiftr x 3).

Definition sigma1 (x : Z) : Z :=
  Z.lxor (Z.lxor (rotr 17 x) (rotr 19 x)) (Z.shiftr x 10).

(** Trial division. *)
Definition is_prime (n : Z) : bool :=
  (2 <=? n)
  && List.forallb (fun d => negb (n mod Z.of_nat d =? 0))
       (seq 2 (Z.to_nat n - 2)).

(** The first [count] primes (all below 312 for [count <= 64]). *)
Definition first_primes (count : nat) : list Z :=
  List.firstn count (List.filter is_prime (List.map Z.of_nat (seq 2 310))).

(** Integer cube root, one bit at a time from bit [bits - 1] down. *)
Fixpoint cube_root (bits : nat) (n r : Z) : Z :=
  match bits with
  | O => r
  | S b =>
      let c := r + 2 ^ Z.of_nat b in
      if c * c * c <=? n then cube_root b n c else cube_root b n r
  end.

(** The first 32 bits of the fractional part of the cube root of [p]. *)
Definition frac_cube_root (p : Z) : Z :=
  Z.land (cube_root 36 (p * 2 ^ 96) 0) mask32.

(** The first 32 bits of the fractional part of the square root of [p]. *)
Definition frac_square_root (p : Z) : Z :=
  Z.land (Z.sqrt (p * 2 ^ 64)) mask32.

(** The round constants: from the cube roots of the first 64 primes. *)
Definition K : list Z :=
  Eval vm_compute in List.map frac_cube_root (first_primes 64).

(** The initial hash value: from the square roots of the first 8 primes. *)
Definition H0 : list Z :=
  Eval vm_compute in List.map frac_square_root (first_primes 8).

(** The bytes of a [str.encode()]. *)
Definition bytes_of_string (s : string) : list Z :=
  List.map (fun c => Z.of_N (N_of_ascii c)) (list_ascii_of_string s).

(** Big-endian bytes of the [n] low-order bytes of [x]. *)
Fixpoint be_bytes (n : nat) (x : Z) : list Z :=
  match n with
  | O => []
  | S k => Z.land (Z.shiftr x (8 * Z.of_nat k)) 0xff :: be_bytes k x
  end.

(** Padding: a one bit, zeros up to 56 mod 64, the bit length on 8 bytes. *)
Definition pad (msg : list Z) : list Z :=
  let len := Z.of_nat (List.length msg) in
  let zeros := Z.to_nat ((55 - len) mod 64) in
  msg ++ [0x80] ++ List.repeat 0 zeros ++ be_bytes 8 (8 * len).

(** The big-endian 32-bit words of a byte sequence. *)
Fixpoint words_of (fuel : nat) (bs : list Z) : list Z :=
  match fuel, bs with
  | S k, b0 :: b1 :: b2 :: b3 :: rest =>
      (Z.shiftl b0 24 + Z.shiftl b1 16 + Z.shiftl b2 8 + b3)
        :: words_of k rest
  | _, _ => []
  end.

(** The message schedule, newest word first: [w] holds W[i-1], W[i-2], ... *)
Fixpoint extend (n : nat) (w : list Z) : list Z :=
  match n with
  | O => w
  | S k =>
      let nxt :=
        add32 (add32 (sigma1 (nth 1 w 0)) (nth 6 w 0))
              (add32 (sigma0 (nth 14 w 0)) (nth 15 w 0)) in
      extend k (nxt :: w)
  end.

Definition schedule (block_words : list Z) : list Z :=
  List.rev (extend 48 (List.rev block_words)).

(** The working variables a..h. *)
Record Vars : Type := mkVars {
  va : Z; vb : Z; vc : Z; vd : Z; ve : Z; vf : Z; vg : Z; vh : Z
}.

Definition round (v : Vars) (kw : Z * Z) : Vars :=
  let '(k, w) := kw in
  let t1 := add32 (add32 (add32 (vh v) (Sigma1 (ve v)))
                         (add32 (Ch (ve v) (vf v) (vg v)) k)) w in
  let t2 := add32 (Sigma0 (va v)) (Maj (va v) (vb v) (vc v)) in
  mkVars (add32 t1 t2) (va v) (vb v) (vc v)
         (add32 (vd v) t1) (ve v) (vf v) (vg v).

Definition vars_of (h : list Z) : Vars :=
  mkVars (nth 0 h 0) (nth 1 h 0) (nth 2 h 0) (nth 3 h 0)
         (nth 4 h 0) (nth 5 h 0) (nth 6 h 0) (nth 7 h 0).

Definition list_of (v : Vars) : list Z :=
  [va v; vb v; vc v; vd v; ve v; vf v; vg v; vh v].

Definition compress (h : list Z) (block : list Z) : list Z :=
  let w := schedule (words_of 16 block) in
  let v := List.fold_left round (List.combine K w) (vars_of h) in
  List.map (fun p => add32 (fst p) (snd p)) (List.combine h (list_of v)).

Fixpoint blocks (n : nat) (h : list Z) (bs : list Z) : list Z :=
  match n with
  | O => h
  | S k => blocks k (compress h (List.firstn 64 bs)) (List.skipn 64 bs)
  end.

Definition digest_words (msg : list Z) : list Z :=
  let p := pad msg in
  blocks (Nat.div (List.length p) 64) H0 p.

Definition hex_digit (d : Z) : ascii :=
  if d <? 10 then ascii_of_N (Z.to_N (48 + d))
  else ascii_of_N (Z.to_N (87 + d)).

Definition hex_of_byte (b : Z) : string :=
  String (hex_digit (Z.shiftr b 4))
    (String (hex_digit (Z.land b 0xf)) EmptyString).

Definition hex_of_bytes (bs : list Z) : string :=
  List.fold_right (fun b acc => hex_of_byte b ++ acc) EmptyString bs.

(** The characters a hex digest is made of. *)
Definition is_hex_digit (c : ascii) : bool :=
  PyStr.contains c "0123456789abcdef".

Fixpoint all_hex (s : string) : bool :=
  match s with
  | EmptyString => true
  | String c r => is_hex_digit c && all_hex r
  end.

(** [hashlib.sha256(data).hexdigest()] *)
Definition hexdigest (data : list Z) : string :=
  hex_of_bytes (List.concat (List.map (be_bytes 4) (digest_words data))).

End Sha256.

(** ** webhook_handlers.py : identity of a push delivery *)

Module Webhook.
Import RidTypes.
Export Handlers(KoiEventType, NEW, UPDATE, FORGET).

(** [GitHubRepositoryInfo], by the field the handler reads. *)
Record GitHubRepositoryInfo : Type := mkRepoInfo {
  full_name : string
}.

(** [PushEventPayload], by the fields the handler reads. *)
Record PushEventPayload : Type := mkPush {
  ref : string;
  before : string;
  after : string;
  repository : GitHubRepositoryInfo;
  created : bool;
  deleted : bool;
  forced : bool
}.

Definition zero_sha : string := "0000000000000000000000000000000000000000".

(** [hashlib.sha256(s.encode()).hexdigest()[:16]] *)
Definition fallback_hash (s : string) : string :=
  PyStr.take 16 (Sha256.hexdigest (Sha256.bytes_of_string s)).

(** Lines 73-87 of [handle_push_event]: the event id of a push. *)
Definition push_event_id (delivery_id : option string)
    (payload : PushEventPayload) : string :=
  let event_id :=
    match delivery_id with
    | Some d => if PyStr.truthy d then d else after payload
    | None => after payload
    end in
  if negb (PyStr.truthy event_id) || String.eqb event_id zero_sha then
    if deleted payload && negb (forced payload) then
      "delete_ref_" ++ PyStr.replace "/" "_" (ref payload) ++ "_"
        ++ before payload
    else
      fallback_hash (full_name (repository payload) ++ "_push_"
                     ++ ref payload ++ "_" ++ before payload ++ "_"
                     ++ after payload)
  else event_id.

(** [handle_push_event]: [validated] is the outcome of validating
    [payload_dict] as a [PushEventPayload] ([None] for a
    [ValidationError], after which the handler returns); the result is the
    call made to [node.processor.handle], if any. *)
Definition handle_push_event (delivery_id : option string)
    (validated : option PushEventPayload)
  : result (option (GitHubEvent * KoiEventType)) :=
  match validated with
  | None => Ok None
  | Some payload =>
      match init (full_name (repository payload))
              (push_event_id delivery_id payload) with
      | Ok github_event_rid => Ok (Some (github_event_rid, NEW))
      | Raise e => Raise e
      end
  end.

End Webhook.

(** ** Vocabulary of the statements about paging *)

Module Pages.
Import GhApi.

Section OneFetch.
Variable T : Transport (list Item).
Variable path : string.
Variable params : Params.
Variable etag : option string.

(** The ETag presented with page [i]: the stored one on page 1, none
    afterwards. *)
Definition page_etag (i : nat) : option string :=
  if Z.of_nat i =? 1 then etag else None.

(** The request for page [i]. *)
Definition page_request (i : nat) : Request :=
  build_request "GET" path (Some (set_page (Z.of_nat i) params))
    (page_etag i).

(** What [_make_github_request] does for page [i]. *)
Definition page_result (i : nat)
  : result (option (Response (list Item)) * option string) :=
  _make_github_request T "GET" path
    (Some (set_page (Z.of_nat i) params)) (page_etag i).

(** The decoded body of page [i], when the request returned a response
    and its body decoded. *)
Definition page_body (i : nat) : option (list Item) :=
  match page_result i with
  | Ok (Some r, _) =>
      match json r with
      | Ok page_data => Some page_data
      | Raise _ => None
      end
  | _ => None
  end.

(** The exception page [i] ends the fetch with: one raised by the
    request, or by the decoding of the body. *)
Definition page_raised (i : nat) : option exn :=
  match page_result i with
  | Raise e => Some e
  | Ok (Some r, _) =>
      match json r with
      | Raise e => Some e
      | Ok _ => None
      end
  | Ok (None, _) => None
  end.

(** The items page [i] contributes: none without a decoded body. *)
Definition page_items (i : nat) : list Item :=
  default [] (page_body i).

(** Page [i] came back, non-empty and not shorter than the page size:
    the only case in which the next page is asked for. *)
Definition full_page (i : nat) : bool :=
  match page_body i with
  | Some [] => false
  | Some page_data =>
      negb (Z.of_nat (List.length page_data) <? per_page_of params)
  | None => false
  end.

(** The ETag kept after page 1. *)
Definition first_page_etag : option string :=
  match page_result 1 with
  | Ok (_, new_etag) => if PyStr.otruthy new_etag then new_etag else etag
  | Raise _ => etag
  end.

End OneFetch.


(** A simulated upstream list resource: it serves [items] in pages of the
    requested size, each with status 200 and the ETag [tag]. *)
Definition serve (tag : option string) (items : list Item)
  : Transport (list Item) :=
  fun rq =>
    match rq_params rq with
    | Some p =>
        let size := Z.to_nat (per_page_of p) in
        let page := Z.to_nat (default 1 (p_page p)) in
        Responded 200 tag
          (Ok (take size (drop ((page - 1) * size)%nat items)))
    | None => Responded 200 tag (Ok items)
    end.

(** The same resource whose page [bad] fails with [failure]. *)
Definition serve_failing (tag : option string) (items : list Item)
    (bad : Z) (failure : HttpOutcome (list Item)) : Transport (list Item) :=
  fun rq =>
    match rq_params rq with
    | Some p =>
        if decide (p_page p = Some bad) then failure else serve tag items rq
    | None => serve tag items rq
    end.

(** An item with a node id and an update time. *)
Definition item (node_id updated_at : string) : Item :=
  {[ "node_id" := Some node_id; "updated_at" := Some updated_at ]}.

End Pages.

(** ** rid_types.py : the repository, commit, issue and pull-request RIDs *)

From Stdlib Require DecimalString.

(** [str(n)] for an [int]. *)
Definition py_str_int (n : Z) : string :=
  DecimalString.NilZero.string_of_int (Z.to_int n).

Module GitHubRepo.

Record t : Type := mk {
  owner : string;
  repo_name : string
}.

(** [GitHubRepo.reference] *)
Definition reference (r : t) : string := owner r ++ "/" ++ repo_name r.

(** [GitHubRepo.from_reference] *)
Definition from_reference (ref : string) : result t :=
  match PyStr.split "/" ref with
  | [o; n] => Ok (mk o n)
  | _ =>
      Raise (ValueError ("Invalid GitHubRepo reference format: " ++ ref
                         ++ ". Expected 'owner/repo_name'."))
  end.

End GitHubRepo.

Module GitHubCommit.

Record t : Type := mk {
  owner : string;
  repo_name : string;
  commit_sha : string
}.

(** [GitHubCommit.reference] *)
Definition reference (c : t) : string :=
  owner c ++ "/" ++ repo_name c ++ ":" ++ commit_sha c.

(** [GitHubCommit.from_reference] *)
Definition from_reference (ref : string) : result t :=
  let bad :=
    Raise (ValueError ("Invalid GitHubCommit reference format: " ++ ref
                       ++ ". Expected 'owner/repo_name:commit_sha'.")) in
  match PyStr.split ":" ref with
  | [p0; p1] =>
      match PyStr.split "/" p0 with
      | [o; n] => Ok (mk o n p1)
      | _ => bad
      end
  | _ => bad
  end.

(** [GitHubCommit.get_repo_rid] *)
Definition get_repo_rid (c : t) : GitHubRepo.t :=
  GitHubRepo.mk (owner c) (repo_name c).

End GitHubCommit.

Module GitHubIssue.

Record t : Type := mk {
  owner : string;
  repo_name : string;
  issue_number : Z
}.

(** [GitHubIssue.reference] *)
Definition reference (i : t) : string :=
  owner i ++ "/" ++ repo_name i ++ ":" ++ py_str_int (issue_number i).

(** [GitHubIssue.get_repo_rid] *)
Definition get_repo_rid (i : t) : GitHubRepo.t :=
  GitHubRepo.mk (owner i) (repo_name i).

End GitHubIssue.

Module GitHubPullRequest.

Record t : Type := mk {
  owner : string;
  repo_name : string;
  pr_number : Z
}.

(** [GitHubPullRequest.reference] *)
Definition reference (p : t) : string :=
  owner p ++ "/" ++ repo_name p ++ ":" ++ py_str_int (pr_number p).

(** [GitHubPullRequest.get_repo_rid] *)
Definition get_repo_rid (p : t) : GitHubRepo.t :=
  GitHubRepo.mk (owner p) (repo_name p).

End GitHubPullRequest.

(** ** backfill.py : the sweep over the monitored repositories *)

Module Sweep.
Import RidTypes GhApi Backfill.

(** The durable cursor store: one [repo_state] per repository name. *)
Abbreviation Store := (gmap string (gmap string (option string))).

(** The world of a sweep: [overall_backfill_state] and the calls made to
    the processor so far. *)
Record SweepState : Type := mkSweep {
  overall : Store;
  emitted : list Handled
}.

(** One turn of [for repo_full_name_config in monitored_repos].  The dict
    handed to [backfill_repository_data] is the stored one when the name has
    an entry (so its mutations show in [overall] even when the pass raises)
    and a fresh [{}] otherwise (stored only by the assignment after a pass
    that returned). *)
Definition sweep_one (up : Upstream) (cfg : Config) (repo_name : string)
    (st : SweepState) : SweepState :=
  match PyStr.split "/" repo_name with
  | [owner; repo] =>
      let stored := overall st !! repo_name in
      let repo_specific_state := default ∅ stored in
      match backfill_repository_data up cfg owner repo
              (mkBState repo_specific_state (emitted st)) with
      | (Ok _, s') =>
          mkSweep (<[repo_name := repo_state s']> (overall st)) (handled s')
      | (Raise _, s') =>
          mkSweep (match stored with
                   | Some _ => <[repo_name := repo_state s']> (overall st)
                   | None => overall st
                   end) (handled s')
      end
  | _ => st
  end.

(** [run_initial_backfill]: [monitored] are the configured names, [loaded]
    is what [load_github_backfill_state] returned; the result is the state
    handed to [save_github_backfill_state] ([None] when the function returns
    before loading) with the calls made to the processor. *)
Definition run_initial_backfill (up : Upstream) (cfg : Config)
    (monitored : list string) (loaded : Store)
  : option Store * list Handled :=
  match monitored with
  | [] => (None, [])
  | _ =>
      let st := fold_left (fun st name => sweep_one up cfg name st)
                  monitored (mkSweep loaded []) in
      (Some (overall st), emitted st)
  end.

(** *** Vocabulary of the statements about the events of a pass *)

(** The event a list section emits for [it]: none without a non-empty
    value under [key]. *)
Definition item_event (rfn prefix source_type key : string) (it : Item)
  : option Handled :=
  match get it key with
  | Some v =>
      if PyStr.truthy v
      then Some (mkHandled (mkGitHubEvent rfn (prefix ++ v)) source_type it NEW)
      else None
  | None => None
  end.

Definition details_fetched (up : Upstream) (owner repo_name : string)
    (s : BState) : option Item * option string :=
  get_repo_details (details_api up) owner repo_name
    (cursor "repo_details_etag" s).

Definition details_events (up : Upstream) (owner repo_name : string)
    (s : BState) : list Handled :=
  match fst (details_fetched up owner repo_name s) with
  | Some d =>
      if decide (d = ∅) then []
      else [mkHandled
              (mkGitHubEvent (owner ++ "/" ++ repo_name)
                 ("details_"
                  ++ format (get_default d "node_id"
                               (get_default d "id" (Some "static")))))
              "backfill_repo_details" d UPDATE]
  | None => []
  end.

Definition commit_events (up : Upstream) (cfg : Config)
    (owner repo_name : string) (s : BState) : list Handled :=
  omap (item_event (owner ++ "/" ++ repo_name) "commit_" "backfill_commit"
          "sha")
    (slice_to (backfill_max_items cfg)
       (fetched_items (commits_fetched up cfg owner repo_name s))).

Definition issue_events (up : Upstream) (cfg : Config)
    (owner repo_name : string) (s : BState) : list Handled :=
  omap (item_event (owner ++ "/" ++ repo_name) "issue_" "backfill_issue"
          "node_id")
    (slice_to (backfill_max_items cfg)
       (fetched_items (issues_fetched up cfg owner repo_name s))).

Definition pr_events (up : Upstream) (cfg : Config)
    (owner repo_name : string) (s : BState) : list Handled :=
  omap (item_event (owner ++ "/" ++ repo_name) "pr_" "backfill_pr" "node_id")
    (slice_to (backfill_max_items cfg)
       (fetched_items (prs_fetched up cfg owner repo_name s))).

(** All the events of a pass started in state [s], in the order emitted. *)
Definition pass_events (up : Upstream) (cfg : Config)
    (owner repo_name : string) (s : BState) : list Handled :=
  (details_events up owner repo_name s
   ++ commit_events up cfg owner repo_name s
   ++ issue_events up cfg owner repo_name s
   ++ pr_events up cfg owner repo_name s)%list.

End Sweep.

(** ** webhook_handlers.py : the other handlers and the dispatch *)

Module Dispatch.
Import RidTypes Webhook.

(** [IssuesEventPayload], by the fields the handler reads. *)
Record IssuesEventPayload : Type := mkIssues {
  i_action : string;
  i_issue_node_id : string;
  i_issue_number : Z;
  i_repository : GitHubRepositoryInfo
}.

(** [PullRequestEventPayload], by the fields the handler reads. *)
Record PullRequestEventPayload : Type := mkPullRequest {
  pr_action : string;
  pr_node_id : string;
  pr_number : Z;
  pr_repository : GitHubRepositoryInfo
}.

(** [delivery_id or natural_key] *)
Definition or_key (delivery_id : option string) (natural_key : string)
  : string :=
  match delivery_id with
  | Some d => if PyStr.truthy d then d else natural_key
  | None => natural_key
  end.

(** [KoiEventType.NEW if payload.action == "opened" else KoiEventType.UPDATE] *)
Definition koi_type_of_action (action : string) : KoiEventType :=
  if String.eqb action "opened" then NEW else UPDATE.

(** [handle_issues_event], with the validation outcome as for
    [handle_push_event]. *)
Definition handle_issues_event (delivery_id : option string)
    (validated : option IssuesEventPayload)
  : result (option (GitHubEvent * KoiEventType)) :=
  match validated with
  | None => Ok None
  | Some payload =>
      match init (full_name (i_repository payload))
              (or_key delivery_id (i_issue_node_id payload)) with
      | Ok github_event_rid =>
          Ok (Some (github_event_rid, koi_type_of_action (i_action payload)))
      | Raise e => Raise e
      end
  end.

(** [handle_pull_request_event] *)
Definition handle_pull_request_event (delivery_id : option string)
    (validated : option PullRequestEventPayload)
  : result (option (GitHubEvent * KoiEventType)) :=
  match validated with
  | None => Ok None
  | Some payload =>
      match init (full_name (pr_repository payload))
              (or_key delivery_id (pr_node_id payload)) with
      | Ok github_event_rid =>
          Ok (Some (github_event_rid, koi_type_of_action (pr_action payload)))
      | Raise e => Raise e
      end
  end.

(** A scalar JSON value, as the generic handler meets it (arrays, objects
    and floats in these positions are left out). *)
Inductive JVal : Type :=
| JNull
| JBool (b : bool)
| JInt (n : Z)
| JStr (s : string).

(** The rendering of a value inside an f-string. *)
Definition py_format (v : JVal) : string :=
  match v with
  | JNull => "None"
  | JBool true => "True"
  | JBool false => "False"
  | JInt n => py_str_int n
  | JStr s => s
  end.

Definition j_truthy (v : JVal) : bool :=
  match v with
  | JNull => false
  | JBool b => b
  | JInt n => negb (n =? 0)
  | JStr s => PyStr.truthy s
  end.

(** The [repository] object of a payload, by the keys read; a key is
    [None] when missing. *)
Record RepoDict : Type := mkRepoDict {
  r_full_name : option JVal;
  r_id : option JVal;
  r_pushed_at : option JVal
}.

(** The [sender] entry of a payload: missing or falsy (replaced by the
    empty object), an object with its [id] entry ([None] when it has
    none), or a truthy value that is no object. *)
Inductive Sender : Type :=
| NoSender
| SenderObject (id : option JVal)
| SenderOther.

(** The payload as the generic handler reads it: [repository] is [None]
    when the key is missing or its value is not an object; [timestamp] is
    [None] when the key is missing. *)
Record GenericPayload : Type := mkGeneric {
  g_repository : option RepoDict;
  g_sender : Sender;
  g_timestamp : option JVal
}.

(** [parts["sender_id"]]: [(payload_dict.get("sender", {}) or {}).get("id",
    "unknown")], which raises on a sender without [get]. *)
Definition sender_id (p : GenericPayload) : result JVal :=
  match g_sender p with
  | NoSender => Ok (JStr "unknown")
  | SenderObject id => Ok (default (JStr "unknown") id)
  | SenderOther =>
      Raise (OtherError "AttributeError: object has no attribute 'get'")
  end.

(** The string hashed for an event without delivery id:
    [f"{event_type}_{repo_id}_{sender_id}_{timestamp}"]. *)
Definition generic_raw (event_type : string) (repo_info : RepoDict)
    (p : GenericPayload) : result string :=
  let repo_id := default (JStr "unknown") (r_id repo_info) in
  let timestamp :=
    match g_timestamp p with
    | Some v => v
    | None => default (JStr "") (r_pushed_at repo_info)
    end in
  match sender_id p with
  | Ok sender =>
      Ok (event_type ++ "_" ++ py_format repo_id ++ "_"
          ++ py_format sender ++ "_" ++ py_format timestamp)
  | Raise e => Raise e
  end.

(** A [str] is held by its UTF-8 bytes.  A lone surrogate, which a JSON
    escape can put into a string and UTF-8 does not encode, is held by the
    three bytes [0xED], [0xA0..0xBF], [0x80..0xBF]. *)
Fixpoint has_surrogate (s : string) : bool :=
  match s with
  | String a r =>
      match r with
      | String b _ =>
          ((Z.of_N (N_of_ascii a) =? 0xED)
           && (0xA0 <=? Z.of_N (N_of_ascii b))
           && (Z.of_N (N_of_ascii b) <=? 0xBF))
          || has_surrogate r
      | EmptyString => false
      end
  | EmptyString => false
  end.

(** [raw.encode()] *)
Definition encode (raw : string) : result (list Z) :=
  if has_surrogate raw
  then Raise (OtherError "UnicodeEncodeError: surrogates not allowed")
  else Ok (Sha256.bytes_of_string raw).

(** [event_id = delivery_id], replaced when falsy by the hash of the
    parts; [None] is the [return] of the [except Exception] around the
    hashing, which drops the event. *)
Definition generic_event_id (event_type : string) (repo_info : RepoDict)
    (p : GenericPayload) (delivery_id : option string)
  : result (option string) :=
  if PyStr.otruthy delivery_id then Ok delivery_id
  else
    match generic_raw event_type repo_info p with
    | Raise e => Raise e                  (* building [parts] *)
    | Ok raw =>
        match encode raw with
        | Ok bytes => Ok (Some (PyStr.take 16 (Sha256.hexdigest bytes)))
        | Raise _ => Ok None              (* except Exception: return *)
        end
    end.

(** [handle_generic_event] *)
Definition handle_generic_event (event_type : string) (p : GenericPayload)
    (delivery_id : option string)
  : result (option (GitHubEvent * KoiEventType)) :=
  match g_repository p with
  | None => Ok None
  | Some repo_info =>
      match r_full_name repo_info with
      | None => Ok None
      | Some repo_full_name =>
          if negb (j_truthy repo_full_name) then Ok None
          else
            match generic_event_id event_type repo_info p delivery_id with
            | Raise e => Raise e
            | Ok None => Ok None
            | Ok (Some event_id) =>
                match repo_full_name with
                | JStr name =>
                    match init name event_id with
                    | Ok github_event_rid =>
                        Ok (Some (github_event_rid, NEW))
                    | Raise e => Raise e
                    end
                | _ =>
                    (* ['/' not in repo_full_name] on a bool or an int *)
                    Raise (OtherError "TypeError: argument is not iterable")
                end
            end
      end
  end.

(** The payload dict, by what its readers make of it: the [delivery_id]
    key (a [str] when present), the outcome of each schema validation, and
    the generic view. *)
Record Payload : Type := mkPayload {
  pd_delivery_id : option string;
  pd_push : option PushEventPayload;
  pd_issues : option IssuesEventPayload;
  pd_pull_request : option PullRequestEventPayload;
  pd_generic : GenericPayload
}.

Definition Handler : Type :=
  Payload -> result (option (GitHubEvent * KoiEventType)).

(** [EVENT_HANDLERS], as filled by the three [register_gh_event_handler]
    decorators: each handler reads the delivery id from the payload. *)
Definition EVENT_HANDLERS (event_name : string) : option Handler :=
  if String.eqb event_name "push" then
    Some (fun p => handle_push_event (pd_delivery_id p) (pd_push p))
  else if String.eqb event_name "issues" then
    Some (fun p => handle_issues_event (pd_delivery_id p) (pd_issues p))
  else if String.eqb event_name "pull_request" then
    Some (fun p =>
            handle_pull_request_event (pd_delivery_id p) (pd_pull_request p))
  else None.

(** [process_webhook_event]: an exception of a registered handler is
    logged and dropped; the generic path is not guarded. *)
Definition process_webhook_event (event_type : string) (p : Payload)
    (delivery_id : option string)
  : result (option (GitHubEvent * KoiEventType)) :=
  match EVENT_HANDLERS event_type with
  | Some handler =>
      match handler p with
      | Ok r => Ok r
      | Raise _ => Ok None
      end
  | None => handle_generic_event event_type (pd_generic p) delivery_id
  end.

End Dispatch.

(** ** hmac : HMAC-SHA256 (RFC 2104) *)

Module Hmac.
Import Sha256.

(** [hashlib.sha256(data).digest()] *)
Definition digest (data : list Z) : list Z :=
  List.concat (List.map (be_bytes 4) (digest_words data)).

Definition block_size : nat := 64.

(** The key, hashed when longer than a block, then padded with zeros. *)
Definition block_key (key : list Z) : list Z :=
  let k := if (block_size <? List.length key)%nat then digest key else key in
  (k ++ List.repeat 0 (block_size - List.length k))%list.

(** [hmac.new(key, msg, hashlib.sha256).digest()] *)
Definition hmac_sha256 (key msg : list Z) : list Z :=
  let k := block_key key in
  digest (List.map (Z.lxor 0x5c) k
          ++ digest (List.map (Z.lxor 0x36) k ++ msg))%list.

(** [hmac.new(key, msg, hashlib.sha256).hexdigest()] *)
Definition hexdigest (key msg : list Z) : string :=
  hex_of_bytes (hmac_sha256 key msg).

(** A [str] of ASCII characters only. *)
Definition is_ascii (s : string) : bool :=
  List.forallb (fun b => b <? 128) (bytes_of_string s).

(** [hmac.compare_digest(a, b)] on two [str]: it refuses non-ASCII
    strings. *)
Definition compare_digest (a b : string) : result bool :=
  if is_ascii a && is_ascii b then Ok (String.eqb a b)
  else Raise (OtherError
                "TypeError: comparing strings with non-ASCII characters is not supported").

End Hmac.

(** ** server.py : signature check and webhook endpoint *)

Module Server.
Import Dispatch.

(** The signature GitHub sends for [payload_body] under [secret_token]. *)
Definition expected_signature (payload_body : list Z) (secret_token : string)
  : string :=
  "sha256="
  ++ Hmac.hexdigest (Sha256.bytes_of_string secret_token) payload_body.

(** [verify_signature] *)
Definition verify_signature (payload_body : list Z) (secret_token : string)
    (signature_header : option string) : result bool :=
  match signature_header with
  | None => Ok false
  | Some header =>
      if negb (PyStr.truthy header) then Ok false
      else if negb (PyStr.truthy secret_token) then Ok true
      else
        match Hmac.compare_digest
                (expected_signature payload_body secret_token) header with
        | Ok true => Ok true
        | Ok false => Ok false
        | Raise e => Raise e
        end
  end.

(** What [request.json()] returns when it does not raise: an object, or
    another JSON value. *)
Inductive Json : Type :=
| JsonObject (payload : Payload)
| JsonOther.

(** An inbound request: the raw body, what [request.json()] makes of it
    ([None] when it raises), and the three headers. *)
Record Delivery : Type := mkDelivery {
  d_body : list Z;
  d_json : option Json;
  x_github_event : option string;
  x_hub_signature_256 : option string;
  x_github_delivery : option string
}.

(** What the endpoint does with a request: answer 202 after scheduling
    [process_webhook_event] with the recorded arguments, raise an
    [HTTPException], or let an exception through. *)
Inductive ListenerResult : Type :=
| Accepted (event_type : string) (payload_json : Json)
    (delivery_id : option string)
| HTTPException (status_code : Z)
| Unhandled (e : exn).

(** [github_webhook_listener]; [webhook_secret] is
    [node.config.env.github_webhook_secret]. *)
Definition github_webhook_listener (webhook_secret : option string)
    (d : Delivery) : ListenerResult :=
  match x_github_event d with
  | None => HTTPException 400
  | Some event =>
      if negb (PyStr.truthy event) then HTTPException 400
      else
        let verified :=
          match webhook_secret with
          | Some secret =>
              if PyStr.truthy secret
              then verify_signature (d_body d) secret (x_hub_signature_256 d)
              else Ok true
          | None => Ok true
          end in
        match verified with
        | Raise e => Unhandled e
        | Ok false => HTTPException 403
        | Ok true =>
            match d_json d with
            | None => HTTPException 400
            | Some payload_json =>
                (* process_webhook_event(x_github_event, payload_json) *)
                Accepted event payload_json None
            end
        end
  end.

End Server.

(** ** gh_api.py and dereference.py : fetching an entity by its RID *)

Module Dereference.
Import GhApi.

(** [get_commit_details] *)
Definition get_commit_details (T : Transport Item)
    (owner repo commit_sha : string) (etag : option string)
  : option Item * option string :=
  get_details T ("/repos/" ++ owner ++ "/" ++ repo ++ "/commits/"
                 ++ commit_sha) etag.

(** [get_issue_details] *)
Definition get_issue_details (T : Transport Item) (owner repo : string)
    (issue_number : Z) (etag : option string) : option Item * option string :=
  get_details T ("/repos/" ++ owner ++ "/" ++ repo ++ "/issues/"
                 ++ py_str_int issue_number) etag.

(** [get_pull_request_details] *)
Definition get_pull_request_details (T : Transport Item)
    (owner repo : string) (pr_number : Z) (etag : option string)
  : option Item * option string :=
  get_details T ("/repos/" ++ owner ++ "/" ++ repo ++ "/pulls/"
                 ++ py_str_int pr_number) etag.

(** A RID reaching the dereferencer: one of the four entity RIDs, or any
    other type of RID ([GitHubEvent] included). *)
Inductive RID : Type :=
| RepoRid (r : GitHubRepo.t)
| CommitRid (c : GitHubCommit.t)
| IssueRid (i : GitHubIssue.t)
| PullRequestRid (p : GitHubPullRequest.t)
| OtherRid (text : string).

(** [Bundle.generate(rid=rid, contents=data)], by its inputs. *)
Record Bundle : Type := mkBundle {
  b_rid : RID;
  b_contents : Item
}.

(** The fetch [dereference_github_rid] makes for [rid], if any. *)
Definition fetch_data (T : Transport Item) (rid : RID) : option Item :=
  match rid with
  | RepoRid r =>
      fst (get_repo_details T (GitHubRepo.owner r) (GitHubRepo.repo_name r)
             None)
  | CommitRid c =>
      fst (get_commit_details T (GitHubCommit.owner c)
             (GitHubCommit.repo_name c) (GitHubCommit.commit_sha c) None)
  | IssueRid i =>
      fst (get_issue_details T (GitHubIssue.owner i)
             (GitHubIssue.repo_name i) (GitHubIssue.issue_number i) None)
  | PullRequestRid p =>
      fst (get_pull_request_details T (GitHubPullRequest.owner p)
             (GitHubPullRequest.repo_name p) (GitHubPullRequest.pr_number p)
             None)
  | OtherRid _ => None
  end.

(** [dereference_github_rid]; [cache_write] is
    [node.processor.cache.write], whose exception is logged and dropped. *)
Definition dereference_github_rid (T : Transport Item)
    (cache_write : Bundle -> result unit) (rid : RID) : option Bundle :=
  match fetch_data T rid with
  | Some data =>
      if decide (data = ∅) then None
      else
        let bundle := mkBundle rid data in
        match cache_write bundle with
        | Ok _ => Some bundle
        | Raise _ => Some bundle
        end
  | None => None
  end.

(** [BundlesPayload], by the two fields the function touches. *)
Record BundlesPayload : Type := mkBundlesPayload {
  bundles : list Bundle;
  not_found : list RID
}.

(** The loop of [fetch_missing_bundles_for_payload]. *)
Fixpoint fetch_loop (T : Transport Item) (cache_write : Bundle -> result unit)
    (rids : list RID) (newly_found_bundles : list Bundle)
    (rids_still_not_found : list RID) : list Bundle * list RID :=
  match rids with
  | [] => (newly_found_bundles, rids_still_not_found)
  | rid_to_fetch :: rest =>
      match dereference_github_rid T cache_write rid_to_fetch with
      | Some bundle =>
          fetch_loop T cache_write rest (newly_found_bundles ++ [bundle])
            rids_still_not_found
      | None =>
          fetch_loop T cache_write rest newly_found_bundles
            (rids_still_not_found ++ [rid_to_fetch])
      end
  end.

(** [fetch_missing_bundles_for_payload] *)
Definition fetch_missing_bundles_for_payload (T : Transport Item)
    (cache_write : Bundle -> result unit) (payload : BundlesPayload)
  : BundlesPayload :=
  match not_found payload with
  | [] => payload
  | _ =>
      let '(newly_found_bundles, rids_still_not_found) :=
        fetch_loop T cache_write (not_found payload) [] [] in
      mkBundlesPayload (bundles payload ++ newly_found_bundles)
        rids_still_not_found
  end.

End Dereference.


(** * Properties *)

Example sha256_abc :
  Sha256.hexdigest (Sha256.bytes_of_string "abc")
  = "ba7816bf8f01cfea414140de5dae2223b00361a396177a9cb410ff61f20015ad".
Proof. vm_compute. reflexivity. Qed.

Example sha256_empty :
  Sha256.hexdigest []
  = "e3b0c44298fc1c149afbf4c8996fb92427ae41e4649b934ca495991b7852b855".
Proof. vm_compute. reflexivity. Qed.

Example sha256_two_blocks :
  Sha256.hexdigest (List.repeat 97 70)
  = "6bd5e5034855a11241f0dee8fc72850ffd9955b28347a86428b5fa19119f6ad0".
Proof. vm_compute. reflexivity. Qed.

Example sha256_push_fallback :
  Sha256.hexdigest (Sha256.bytes_of_string
    "octo/repo_push_refs/heads/gone_1111111111111111111111111111111111111111_0000000000000000000000000000000000000000")
  = "199ad9e65c1ca775653ddf6a25abff2c8b8178a4a1845327130bd08eba7230be".
Proof. vm_compute. reflexivity. Qed.

(** ** Facts about the string primitives *)

Section PyStrFacts.
Import PyStr.

Lemma split_nonempty sep s : split sep s <> [].
Proof.
  destruct s as [|a r]; simpl; [discriminate|].
  destruct (Ascii.eqb a sep); [discriminate|].
  destruct (split sep r); discriminate.
Qed.

Lemma length_cons_head a parts :
  parts <> [] -> List.length (cons_head a parts) = List.length parts.
Proof. destruct parts; [congruence | reflexivity]. Qed.

(** [len(s.split(sep)) == s.count(sep) + 1] *)
Lemma length_split sep s :
  List.length (split sep s) = S (count sep s).
Proof.
  induction s as [|a r IH]; simpl; [reflexivity|].
  destruct (Ascii.eqb a sep); simpl.
  - now rewrite IH.
  - rewrite length_cons_head by apply split_nonempty. exact IH.
Qed.

Lemma contains_count c s : contains c s = true <-> count c s <> O.
Proof.
  induction s as [|a r IH]; simpl.
  - split; [discriminate | congruence].
  - destruct (Ascii.eqb a c); [split; [discriminate | reflexivity] | exact IH].
Qed.

Lemma contains_false_count c s : contains c s = false <-> count c s = O.
Proof.
  induction s as [|a r IH]; simpl.
  - split; reflexivity.
  - destruct (Ascii.eqb a c); [split; discriminate | exact IH].
Qed.

Lemma contains_app c a b :
  contains c (a ++ b) = contains c a || contains c b.
Proof.
  induction a as [|x r IH]; simpl; [reflexivity|].
  destruct (Ascii.eqb x c); [reflexivity | exact IH].
Qed.

(** Without the separator, [split(sep, 1)] gives the string itself. *)
Lemma split1_absent sep s : contains sep s = false -> split1 sep s = [s].
Proof.
  induction s as [|a r IH]; simpl; [reflexivity|].
  destruct (Ascii.eqb a sep); [discriminate|].
  intros H. now rewrite IH.
Qed.

(** [split(sep, 1)] cuts at the first separator. *)
Lemma split1_first sep a b :
  contains sep a = false -> split1 sep (a ++ String sep b) = [a; b].
Proof.
  induction a as [|x r IH]; simpl.
  - now rewrite Ascii.eqb_refl.
  - destruct (Ascii.eqb x sep); [discriminate|].
    intros H. now rewrite IH.
Qed.

(** Every string either lacks the separator or factors at its first
    occurrence. *)
Lemma first_occurrence sep s :
  contains sep s = false
  \/ exists a b, s = a ++ String sep b /\ contains sep a = false.
Proof.
  induction s as [|x r IH]; simpl; [now left|].
  destruct (Ascii.eqb x sep) eqn:E.
  - right. exists EmptyString, r. apply Ascii.eqb_eq in E. now subst.
  - destruct IH as [IH | (a & b & -> & Ha)]; [now left|].
    right. exists (String x a), b. simpl. now rewrite E.
Qed.

Lemma truthy_nonempty s : truthy s = true <-> s <> EmptyString.
Proof. destruct s; simpl; split; congruence. Qed.


End PyStrFacts.

(** ** The identity scheme *)

Section RidTypesFacts.
Import PyStr RidTypes.

(** The constructor's guard passes exactly for one ['/']. *)
Lemma bad_repo_full_name_false r :
  bad_repo_full_name r = false <-> count "/" r = 1%nat.
Proof.
  unfold bad_repo_full_name. rewrite length_split.
  pose proof (contains_count "/" r) as Hc.
  destruct (contains "/" r) eqn:E; simpl.
  - destruct (count "/" r) as [|[|n]]; simpl; split; congruence.
  - split; [discriminate|]. intros H. exfalso.
    assert (count "/" r <> O) as Hn by (rewrite H; discriminate).
    apply Hc in Hn. discriminate.
Qed.

Lemma init_ok repo eid :
  count "/" repo = 1%nat -> init repo eid = Ok (mkGitHubEvent repo eid).
Proof.
  intros H. unfold init. now rewrite (proj2 (bad_repo_full_name_false repo) H).
Qed.

Lemma init_ok_inv repo eid e :
  init repo eid = Ok e ->
  count "/" repo = 1%nat /\ e = mkGitHubEvent repo eid.
Proof.
  unfold init. destruct (bad_repo_full_name repo) eqn:E; [discriminate|].
  intros [= <-]. split; [now apply bad_repo_full_name_false | reflexivity].
Qed.

(** The parser on a string cut at its first [':']. *)
Lemma from_reference_cut repo eid :
  contains ":" repo = false ->
  from_reference (repo ++ ":" ++ eid)
  = if bad_repo_full_name repo then
      Raise (ValueError ("Invalid repository part in GitHubEvent reference: '"
                         ++ repo ++ "'. Expected 'owner/repo'."))
    else if negb (truthy eid) then
      Raise (ValueError ("Event ID part cannot be empty in GitHubEvent reference: '"
                         ++ (repo ++ ":" ++ eid) ++ "'."))
    else Ok (mkGitHubEvent repo eid).
Proof.
  intros H. unfold from_reference.
  change (repo ++ ":" ++ eid) with (repo ++ String ":" eid).
  rewrite (split1_first _ _ _ H).
  unfold init. destruct (bad_repo_full_name repo); reflexivity.
Qed.

Lemma from_reference_no_colon s :
  contains ":" s = false -> is_raise (from_reference s) = true.
Proof.
  intros H. unfold from_reference. now rewrite (split1_absent _ _ H).
Qed.

(** What the parser accepts. *)
Lemma from_reference_ok_iff s e :
  from_reference s = Ok e <->
  s = repo_full_name e ++ ":" ++ event_id e
  /\ contains ":" (repo_full_name e) = false
  /\ count "/" (repo_full_name e) = 1%nat
  /\ event_id e <> "".
Proof.
  split.
  - intros H. destruct (first_occurrence ":" s) as [Hn | (a & b & -> & Ha)].
    + pose proof (from_reference_no_colon _ Hn) as Hr. rewrite H in Hr.
      discriminate.
    + change (a ++ String ":" b) with (a ++ ":" ++ b) in H.
      rewrite (from_reference_cut _ _ Ha) in H.
      destruct (bad_repo_full_name a) eqn:Eb; [discriminate|].
      destruct (truthy b) eqn:Et; simpl in H; [|discriminate].
      injection H as <-. simpl. repeat split; try assumption.
      * now apply bad_repo_full_name_false.
      * now apply truthy_nonempty.
  - intros (-> & Hc & Hs & He). rewrite (from_reference_cut _ _ Hc).
    rewrite (proj2 (bad_repo_full_name_false _) Hs).
    apply truthy_nonempty in He. rewrite He. now destruct e.
Qed.

End RidTypesFacts.

Section IdentityClaims.
Import PyStr RidTypes.

(** C5, as stated, fails: the identity [a:b/c] / [x] has exactly one ['/']
    in its repository part and a non-empty event id free of [':'], the
    constructor accepts it, yet its reference [a:b/c:x] is cut at the
    first [':'] and the repository part [a] is refused. *)
Lemma roundtrip_fails_colon_in_repository :
  ~ (count "/" "a:b/c" = 1%nat ->
     "x" <> "" ->
     contains ":" "x" = false ->
     init "a:b/c" "x" = Ok (mkGitHubEvent "a:b/c" "x")
     /\ from_reference (reference (mkGitHubEvent "a:b/c" "x"))
        = Ok (mkGitHubEvent "a:b/c" "x")).
Proof.
  intros H.
  destruct H as [_ H]; [reflexivity | discriminate | reflexivity |].
  vm_compute in H. discriminate.
Qed.

(** C5, amended: for every identity whose repository part contains
    exactly one ['/'] and no [':'] and whose event id is non-empty, the
    constructor accepts it and parsing its serialized reference gives
    back the same identity (the event id may contain [':']: only the
    first one cuts). *)
Theorem from_reference_reference (e : GitHubEvent) :
  count "/" (repo_full_name e) = 1%nat ->
  contains ":" (repo_full_name e) = false ->
  event_id e <> "" ->
  init (repo_full_name e) (event_id e) = Ok e
  /\ from_reference (reference e) = Ok e.
Proof.
  intros Hs Hc He. split.
  - rewrite (init_ok _ _ Hs). now destruct e.
  - apply from_reference_ok_iff. unfold reference. tauto.
Qed.

Lemma from_reference_reference_witness :
  from_reference (reference (mkGitHubEvent "octo/repo" "pr_a:1"))
  = Ok (mkGitHubEvent "octo/repo" "pr_a:1").
Proof.
  apply (from_reference_reference (mkGitHubEvent "octo/repo" "pr_a:1"));
    [reflexivity | reflexivity | discriminate].
Defined.

(** C6, as stated, fails: [a/b:c:d] holds two [':'] and is accepted, as
    the identity [a/b] / [c:d]. *)
Lemma from_reference_accepts_two_colons :
  ~ (count ":" "a/b:c:d" <> 1%nat ->
     is_raise (from_reference "a/b:c:d") = true).
Proof.
  intros H. assert (count ":" "a/b:c:d" <> 1%nat) as Hn by discriminate.
  specialize (H Hn). vm_compute in H. discriminate.
Qed.

(** C6, amended: the parser refuses a string exactly when it is not of
    the form [R:E] with [R] free of [':'] and holding exactly one ['/'],
    and [E] non-empty.  So it refuses every string without [':'] and
    every string whose part before the first [':'] does not hold exactly
    one ['/'] (and every string with nothing after the first [':']), but
    not a string for holding more than one [':']. *)
Theorem from_reference_rejects_iff (s : string) :
  is_raise (from_reference s) = true <->
  ~ exists repo eid,
      s = repo ++ ":" ++ eid
      /\ contains ":" repo = false
      /\ count "/" repo = 1%nat
      /\ eid <> "".
Proof.
  split.
  - intros Hr (repo & eid & Hs & Hc & Hn & He).
    assert (from_reference s = Ok (mkGitHubEvent repo eid)) as E
      by (apply from_reference_ok_iff; simpl; tauto).
    rewrite E in Hr. discriminate.
  - intros Hn. destruct (from_reference s) as [e|x] eqn:E; [|reflexivity].
    exfalso. apply Hn. exists (repo_full_name e), (event_id e).
    now apply from_reference_ok_iff.
Qed.

(** C10, as stated, fails: [a/b:c] holds exactly one ['/'], the
    constructor accepts it with an empty event id, and the reference
    [a/b:c:] is not refused: it parses to the other identity [a/b] /
    [c:]. *)
Lemma empty_event_id_reference_parsed :
  ~ (count "/" "a/b:c" = 1%nat ->
     init "a/b:c" "" = Ok (mkGitHubEvent "a/b:c" "")
     /\ is_raise (from_reference (reference (mkGitHubEvent "a/b:c" "")))
        = true).
Proof.
  intros H. destruct H as [_ H]; [reflexivity|].
  vm_compute in H. discriminate.
Qed.

(** C10, amended: for every repository name holding exactly one ['/'] and
    no [':'], the constructor accepts the empty event id, the reference
    [owner/repo:] so obtained is refused by the parser with an error, and
    among the identities of that repository the round trip fails exactly
    for the empty event id. *)
Theorem empty_event_id_breaks_roundtrip (repo : string) :
  count "/" repo = 1%nat ->
  contains ":" repo = false ->
  init repo "" = Ok (mkGitHubEvent repo "")
  /\ reference (mkGitHubEvent repo "") = repo ++ ":"
  /\ is_raise (from_reference (reference (mkGitHubEvent repo ""))) = true
  /\ forall eid,
       from_reference (reference (mkGitHubEvent repo eid))
         <> Ok (mkGitHubEvent repo eid)
       <-> eid = "".
Proof.
  intros Hs Hc. split; [now apply init_ok|].
  split; [reflexivity|].
  assert (forall eid, from_reference (reference (mkGitHubEvent repo eid))
            = if negb (truthy eid) then
                Raise (ValueError
                  ("Event ID part cannot be empty in GitHubEvent reference: '"
                   ++ (repo ++ ":" ++ eid) ++ "'."))
              else Ok (mkGitHubEvent repo eid)) as Hcut.
  { intros eid. unfold reference. simpl repo_full_name. simpl event_id.
    rewrite (from_reference_cut _ _ Hc).
    now rewrite (proj2 (bad_repo_full_name_false _) Hs). }
  split.
  - now rewrite Hcut.
  - intros eid. rewrite Hcut. destruct eid as [|a r]; simpl.
    + split; [reflexivity | discriminate].
    + split; [congruence | discriminate].
Qed.

Lemma empty_event_id_breaks_roundtrip_witness :
  init "octo/repo" "" = Ok (mkGitHubEvent "octo/repo" "")
  /\ is_raise (from_reference "octo/repo:") = true.
Proof.
  destruct (empty_event_id_breaks_roundtrip "octo/repo")
    as (Hi & _ & Hr & _); [reflexivity | reflexivity |].
  split; [exact Hi | exact Hr].
Defined.

End IdentityClaims.

(** ** The dedup classifier *)

Section ClassifierClaims.
Import RidTypes Handlers.

Lemma same_hash_true (m pm : Manifest) :
  sha256_hash pm = sha256_hash m -> same_hash (Some m) (Some pm) = true.
Proof. intros H. simpl. rewrite H. apply String.eqb_refl. Qed.

Lemma same_hash_false (m pm : Manifest) :
  sha256_hash pm <> sha256_hash m -> same_hash (Some m) (Some pm) = false.
Proof. intros H. simpl. apply String.eqb_neq. congruence. Qed.

(** C1: for a candidate [GitHubEvent] manifest, no prior record in the
    cache gives NEW; a prior record with the same content hash gives
    [STOP_CHAIN] (nothing goes downstream); a prior record with another
    content hash gives UPDATE, whatever the two timestamps are (the
    timestamps do not occur in the conditions, so also when the
    candidate's is earlier than or equal to the prior one's).  The object
    handed on is the incoming one with its normalized event type set to
    the label. *)
Theorem classification_matrix (cache : Cache) (kobj : KnowledgeObject)
    (e : GitHubEvent) (m : Manifest) :
  rid kobj = RidGitHubEvent e ->
  manifest kobj = Some m ->
  (cache (rid kobj) = Ok None ->
     github_event_manifest_handler cache kobj
     = Continue (mkKObj (rid kobj) (manifest kobj) (event_type kobj)
                   (Some NEW)))
  /\ (forall pb pm,
        cache (rid kobj) = Ok (Some pb) ->
        b_manifest pb = Some pm ->
        sha256_hash pm = sha256_hash m ->
        github_event_manifest_handler cache kobj = STOP_CHAIN)
  /\ (forall pb pm,
        cache (rid kobj) = Ok (Some pb) ->
        b_manifest pb = Some pm ->
        sha256_hash pm <> sha256_hash m ->
        github_event_manifest_handler cache kobj
        = Continue (mkKObj (rid kobj) (manifest kobj) (event_type kobj)
                      (Some UPDATE))
        /\ (timestamp m <= timestamp pm ->
            older_or_same (manifest kobj) (b_manifest pb) = true)).
Proof.
  intros Hr Hm. unfold github_event_manifest_handler, read_prev.
  rewrite Hr, Hm. split; [|split].
  - intros ->. unfold set_normalized. now rewrite Hr, Hm.
  - intros pb pm -> Hpm Hh. rewrite Hpm. now rewrite same_hash_true.
  - intros pb pm -> Hpm Hh. rewrite Hpm. split.
    + rewrite same_hash_false by exact Hh.
      unfold set_normalized. now rewrite Hr, Hm.
    + intros Hle. simpl. now apply Z.leb_le.
Qed.

Lemma classification_matrix_witness :
  let e := mkGitHubEvent "octo/repo" "issue_I1" in
  let k := mkKObj (RidGitHubEvent e) (Some (mkManifest "h2" 5)) (Some NEW)
             None in
  github_event_manifest_handler (fun _ => Ok None) k
    = Continue (mkKObj (RidGitHubEvent e) (Some (mkManifest "h2" 5))
                  (Some NEW) (Some NEW))
  /\ github_event_manifest_handler
       (fun _ => Ok (Some (mkBundle (Some (mkManifest "h2" 9)) "{}"))) k
     = STOP_CHAIN
  /\ github_event_manifest_handler
       (fun _ => Ok (Some (mkBundle (Some (mkManifest "h1" 9)) "{}"))) k
     = Continue (mkKObj (RidGitHubEvent e) (Some (mkManifest "h2" 5))
                   (Some NEW) (Some UPDATE)).
Proof.
  intros e k. split; [|split].
  - apply (classification_matrix (fun _ => Ok None) k e (mkManifest "h2" 5));
      reflexivity.
  - apply (classification_matrix
             (fun _ => Ok (Some (mkBundle (Some (mkManifest "h2" 9)) "{}")))
             k e (mkManifest "h2" 5) eq_refl eq_refl)
      with (pb := mkBundle (Some (mkManifest "h2" 9)) "{}")
           (pm := mkManifest "h2" 9); reflexivity.
  - apply (classification_matrix
             (fun _ => Ok (Some (mkBundle (Some (mkManifest "h1" 9)) "{}")))
             k e (mkManifest "h2" 5) eq_refl eq_refl)
      with (pb := mkBundle (Some (mkManifest "h1" 9)) "{}")
           (pm := mkManifest "h1" 9); [reflexivity | reflexivity |].
    simpl. discriminate.
Defined.

(** C9: when the cache read raises, the candidate is treated as having
    no prior record and is classified NEW: it continues down the chain
    (it is not dropped) with its normalized event type set to NEW,
    whatever the cache would have held. *)
Theorem cache_failure_classified_new (cache : Cache)
    (kobj : KnowledgeObject) (e : GitHubEvent) (x : exn) :
  rid kobj = RidGitHubEvent e ->
  cache (rid kobj) = Raise x ->
  github_event_manifest_handler cache kobj
  = Continue (mkKObj (rid kobj) (manifest kobj) (event_type kobj)
                (Some NEW))
  /\ github_event_manifest_handler cache kobj <> STOP_CHAIN.
Proof.
  intros Hr Hc. unfold github_event_manifest_handler, read_prev.
  rewrite Hr in *. rewrite Hc. unfold set_normalized. rewrite Hr.
  split; [reflexivity | discriminate].
Qed.

Lemma cache_failure_classified_new_witness :
  let k := mkKObj (RidGitHubEvent (mkGitHubEvent "octo/repo" "commit_ab"))
             (Some (mkManifest "h" 1)) (Some UPDATE) None in
  github_event_manifest_handler
    (fun _ => Raise (OtherError "cache down")) k
  = Continue (mkKObj (RidGitHubEvent (mkGitHubEvent "octo/repo" "commit_ab"))
                (Some (mkManifest "h" 1)) (Some UPDATE) (Some NEW)).
Proof.
  intros k.
  apply (cache_failure_classified_new
           (fun _ => Raise (OtherError "cache down")) k
           (mkGitHubEvent "octo/repo" "commit_ab")
           (OtherError "cache down")); reflexivity.
Defined.

End ClassifierClaims.

(** ** The conditional API client *)

Section ClientFacts.
Import GhApi Pages.

(** A 304 gives no response and hands the presented ETag back. *)
Lemma make_request_304 {B} (T : Transport B) method path params etag h b :
  T (build_request method path params etag) = Responded 304 h b ->
  _make_github_request T method path params etag = Ok (None, etag).
Proof. intros H. unfold _make_github_request. now rewrite H. Qed.


(** An HTTP error status (neither 304 nor 2xx) gives no response. *)
Lemma make_request_http_error {B} (T : Transport B)
    method path params etag status h b :
  T (build_request method path params etag) = Responded status h b ->
  status <> 304 -> is_success status = false ->
  _make_github_request T method path params etag = Ok (None, h).
Proof.
  intros H Hn Hs. unfold _make_github_request. rewrite H.
  destruct (Z.eqb_spec status 304); [contradiction|]. now rewrite Hs.
Qed.

Variable T : Transport (list Item).
Variable path : string.
Variable params : Params.
Variable etag : option string.

(** The loop reads [params] only after setting its page. *)
Lemma paged_loop_set_page fuel k j cpe st :
  paged_loop T path fuel k (set_page j params) cpe st
  = paged_loop T path fuel k params cpe st.
Proof. destruct fuel; reflexivity. Qed.


(** One turn of the loop, in the vocabulary of [Pages]. *)
Lemma paged_loop_turn fuel (k : nat) cpe st :
  (k = 1%nat -> cpe = etag /\ etag_to_return st = etag) ->
  paged_loop T path (S fuel) (Z.of_nat k) params cpe st
  = let st1 :=
      mkPaging (all_items st ++ page_items T path params etag k)
        (if Z.of_nat k =? 1 then first_page_etag T path params etag
         else etag_to_return st)
        (requests st ++ [page_request path params etag k])
        (page_raised T path params etag k) in
    if full_page T path params etag k
    then paged_loop T path fuel (Z.of_nat (S k)) params None st1
    else st1.
Proof.
  intros Hcpe.
  assert ((if Z.of_nat k =? 1 then cpe else None) = page_etag etag k) as He.
  { unfold page_etag. destruct (Z.eqb_spec (Z.of_nat k) 1) as [E|E];
      [|reflexivity]. apply Hcpe. lia. }
  cbn [paged_loop]. rewrite He.
  unfold full_page, page_items, page_body, page_raised, page_request,
    first_page_etag.
  fold (page_result T path params etag k).
  destruct (Z.eqb_spec (Z.of_nat k) 1) as [E|E].
  - assert (k = 1%nat) as -> by lia.
    destruct (Hcpe eq_refl) as [-> Hst].
    destruct (page_result T path params etag 1) as [[[resp|] ne]|x] eqn:Er;
      cbn [default].
    + destruct (json resp) as [[|d0 d]|x] eqn:Ej; cbn [default].
      * now rewrite app_nil_r.
      * change (per_page_of (set_page (Z.of_nat 1) params))
          with (per_page_of params).
        destruct (Z.of_nat (List.length (d0 :: d)) <? per_page_of params);
          cbn [negb]; [reflexivity|].
        now rewrite paged_loop_set_page.
      * now rewrite app_nil_r.
    + now rewrite app_nil_r.
    + now rewrite app_nil_r, Hst.
  - destruct (page_result T path params etag k) as [[[resp|] ne]|x] eqn:Er;
      cbn [default].
    + destruct (json resp) as [[|d0 d]|x] eqn:Ej; cbn [default].
      * now rewrite app_nil_r.
      * change (per_page_of (set_page (Z.of_nat k) params))
          with (per_page_of params).
        destruct (Z.of_nat (List.length (d0 :: d)) <? per_page_of params);
          cbn [negb]; [reflexivity|].
        rewrite paged_loop_set_page.
        now replace (Z.of_nat k + 1) with (Z.of_nat (S k)) by lia.
      * now rewrite app_nil_r.
    + now rewrite app_nil_r.
    + now rewrite app_nil_r.
Qed.

End ClientFacts.

Section PagingFacts.
Import GhApi Pages.
Local Open Scope list_scope.

Variable T : Transport (list Item).
Variable path : string.
Variable params : Params.
Variable etag : option string.

Local Abbreviation rq := (page_request path params etag).
Local Abbreviation items_of := (page_items T path params etag).
Local Abbreviation full := (full_page T path params etag).

(** The loop started at page [k] with [fuel] pages left asks for [n]
    consecutive pages: all but the last are full, and it ends before the
    fuel runs out only on a page that is not full; what the last page
    raised, if anything, is what the loop raises. *)
Lemma paged_loop_run fuel : forall (k : nat) cpe st,
  (1 <= k)%nat ->
  (k = 1%nat -> cpe = etag /\ etag_to_return st = etag) ->
  exists n : nat,
    (n <= fuel)%nat
    /\ requests (paged_loop T path fuel (Z.of_nat k) params cpe st)
       = requests st ++ List.map rq (seq k n)
    /\ all_items (paged_loop T path fuel (Z.of_nat k) params cpe st)
       = all_items st ++ concat (List.map items_of (seq k n))
    /\ (forall i, (k <= i)%nat -> (S i < k + n)%nat -> full i = true)
    /\ ((n < fuel)%nat -> (1 <= n)%nat /\ full (k + n - 1)%nat = false)
    /\ etag_to_return (paged_loop T path fuel (Z.of_nat k) params cpe st)
       = (if (Z.of_nat k =? 1) && (0 <? Z.of_nat n)
          then first_page_etag T path params etag
          else etag_to_return st)
    /\ raised (paged_loop T path fuel (Z.of_nat k) params cpe st)
       = (if 0 <? Z.of_nat n
          then page_raised T path params etag (k + n - 1)
          else raised st).
Proof.
  induction fuel as [|f IH]; intros k cpe st Hk Hcpe.
  - exists 0%nat. cbn [paged_loop seq List.map concat].
    rewrite !app_nil_r, andb_false_r.
    split; [lia|]. split; [reflexivity|]. split; [reflexivity|].
    split; [intros; lia|]. split; [intros; lia|]. split; reflexivity.
  - rewrite (paged_loop_turn T path params etag f k cpe st Hcpe).
    cbv zeta. destruct (full k) eqn:Efull.
    + match goal with |- context [paged_loop _ _ f _ _ _ ?s] =>
        destruct (IH (S k) None s) as (n & Hn & Hr & Ha & Hf & Hs & He & Hx)
      end; [lia | intros; lia |].
      exists (S n). rewrite Hr, Ha, He, Hx.
      cbn [requests all_items etag_to_return raised].
      cbn [seq List.map concat]. rewrite <- !app_assoc.
      split; [lia|]. split; [reflexivity|]. split; [reflexivity|].
      split; [|split; [|split]].
      * intros i Hi1 Hi2. destruct (Nat.eq_dec i k) as [->|Hne];
          [exact Efull | apply Hf; lia].
      * intros Hlt. destruct Hs as [H1 H2]; [lia|]. split; [lia|].
        now replace (k + S n - 1)%nat with (S k + n - 1)%nat by lia.
      * replace (Z.of_nat (S k) =? 1) with false
          by (symmetry; apply Z.eqb_neq; lia).
        cbn [andb]. replace (0 <? Z.of_nat (S n)) with true
          by (symmetry; apply Z.ltb_lt; lia).
        now rewrite andb_true_r.
      * replace (0 <? Z.of_nat (S n)) with true
          by (symmetry; apply Z.ltb_lt; lia).
        destruct (Z.ltb_spec 0 (Z.of_nat n)) as [Hp|Hp].
        -- now replace (k + S n - 1)%nat with (S k + n - 1)%nat by lia.
        -- assert (n = 0%nat) as -> by lia.
           now replace (k + 1 - 1)%nat with k by lia.
    + exists 1%nat. cbn [requests all_items etag_to_return raised].
      cbn [seq List.map concat]. rewrite app_nil_r.
      split; [lia|]. split; [reflexivity|]. split; [reflexivity|].
      split; [|split; [|split]].
      * intros; lia.
      * intros _. split; [lia|].
        now replace (k + 1 - 1)%nat with k by lia.
      * now rewrite andb_true_r.
      * now replace (k + 1 - 1)%nat with k by lia.
Qed.

End PagingFacts.

Section ServeFacts.
Import GhApi Pages.
Local Open Scope list_scope.

Lemma take_plus {A} (a b : nat) (l : list A) :
  take (a + b) l = take a l ++ take b (drop a l).
Proof.
  revert l. induction a as [|a IH]; intros l; [reflexivity|].
  destruct l as [|x l]; cbn [Nat.add take drop app].
  - now destruct b.
  - now rewrite IH.
Qed.

(** Consecutive pages of size [size] make up a prefix. *)
Lemma concat_pages {A} (size n : nat) (l : list A) :
  concat (List.map (fun i => take size (drop ((i - 1) * size) l)) (seq 1 n))
  = take (n * size) l.
Proof.
  induction n as [|n IH]; [reflexivity|].
  rewrite seq_S, List.map_app, concat_app, IH. cbn [List.map concat].
  rewrite app_nil_r. replace (1 + n - 1)%nat with n by lia.
  replace (S n * size)%nat with (n * size + size)%nat by lia.
  now rewrite take_plus.
Qed.

Variable tag : option string.
Variable items : list Item.
Variable path : string.
Variable params : Params.
Variable etag : option string.

Let size : nat := Z.to_nat (per_page_of params).

Lemma serve_page_result (i : nat) :
  page_result (serve tag items) path params etag i
  = Ok (Some (mkResponse 200 tag
                (Ok (take size (drop ((i - 1) * size) items)))),
        tag).
Proof.
  unfold page_result, _make_github_request, serve, build_request.
  cbn. now rewrite Nat2Z.id.
Qed.

Lemma serve_page_body (i : nat) :
  page_body (serve tag items) path params etag i
  = Some (take size (drop ((i - 1) * size) items)).
Proof. unfold page_body. now rewrite serve_page_result. Qed.

Lemma serve_page_items (i : nat) :
  page_items (serve tag items) path params etag i
  = take size (drop ((i - 1) * size) items).
Proof. unfold page_items. now rewrite serve_page_body. Qed.

Lemma serve_page_raised (i : nat) :
  page_raised (serve tag items) path params etag i = None.
Proof. unfold page_raised. now rewrite serve_page_result. Qed.

Lemma serve_full_page (i : nat) :
  (1 <= i)%nat ->
  0 < per_page_of params ->
  full_page (serve tag items) path params etag i = true
  <-> (i * size <= List.length items)%nat.
Proof.
  intros Hi Hpp. unfold full_page. rewrite serve_page_body.
  assert (0 < size)%nat as Hs by (unfold size; lia).
  assert (Z.of_nat size = per_page_of params) as Hz by (unfold size; lia).
  assert (List.length (take size (drop ((i - 1) * size) items))
          = Nat.min size (List.length items - (i - 1) * size)) as Hl
    by (rewrite length_take, length_drop; reflexivity).
  replace (i * size)%nat with ((i - 1) * size + size)%nat by nia.
  destruct (take size (drop ((i - 1) * size) items)) as [|x l] eqn:E.
  - cbn [List.length] in Hl. split; [discriminate|]. intros H. lia.
  - rewrite negb_true_iff, Z.ltb_ge, <- Hz. lia.
Qed.

End ServeFacts.

Section PaginationClaims.
Import GhApi Pages.
Local Open Scope list_scope.

(** What [page_body] says, in terms of the request and the decoding. *)
Lemma page_body_some T path params etag i l :
  page_body T path params etag i = Some l <->
  exists r e', page_result T path params etag i = Ok (Some r, e')
               /\ json r = Ok l.
Proof.
  unfold page_body.
  destruct (page_result T path params etag i) as [[[r|] ne]|x].
  - destruct (json r) as [d|x] eqn:Ej.
    + split.
      * intros [= <-]. now exists r, ne.
      * intros (r' & e' & [= <- <-] & Hj). congruence.
    + split; [discriminate|].
      intros (r' & e' & [= <- <-] & Hj). congruence.
  - split; [discriminate | intros (r' & e' & [=] & _)].
  - split; [discriminate | intros (r' & e' & [=] & _)].
Qed.

(** A page without a decoded body: the request gave no response, or the
    request or the decoding raised. *)
Lemma page_body_none T path params etag i :
  page_body T path params etag i = None ->
  (exists e', page_result T path params etag i = Ok (None, e'))
  \/ is_Some (page_raised T path params etag i).
Proof.
  unfold page_body, page_raised.
  destruct (page_result T path params etag i) as [[[r|] ne]|x].
  - destruct (json r) as [d|x]; [discriminate | eauto].
  - eauto.
  - eauto.
Qed.

Lemma full_page_true T path params etag i :
  full_page T path params etag i = true ->
  exists r e' l, page_result T path params etag i = Ok (Some r, e')
                 /\ json r = Ok l
                 /\ l <> []
                 /\ per_page_of params <= Z.of_nat (List.length l).
Proof.
  unfold full_page.
  destruct (page_body T path params etag i) as [[|x l]|] eqn:E;
    try discriminate.
  rewrite negb_true_iff, Z.ltb_ge. intros H.
  apply page_body_some in E as (r & e' & Hr & Hj).
  exists r, e', (x :: l). repeat split; try assumption. discriminate.
Qed.

Lemma full_page_false T path params etag i :
  full_page T path params etag i = false ->
  page_raised T path params etag i = None ->
  (exists e', page_result T path params etag i = Ok (None, e'))
  \/ exists r e' l, page_result T path params etag i = Ok (Some r, e')
                    /\ json r = Ok l
                    /\ (l = []
                        \/ Z.of_nat (List.length l) < per_page_of params).
Proof.
  unfold full_page. intros H Hx.
  destruct (page_body T path params etag i) as [l|] eqn:E.
  - right. apply page_body_some in E as (r & e' & Hr & Hj).
    exists r, e', l. split; [exact Hr|]. split; [exact Hj|].
    destruct l as [|x l]; [now left|].
    right. now rewrite negb_false_iff, Z.ltb_lt in H.
  - apply page_body_none in E as [E | [x E]]; [now left | congruence].
Qed.

(** The whole fetch, in pages. *)
Lemma run_paged_pages T path params etag max_pages :
  let st := run_paged T path params etag max_pages in
  let n := List.length (requests st) in
  (n <= Z.to_nat max_pages)%nat
  /\ requests st = List.map (page_request path params etag) (seq 1 n)
  /\ all_items st
     = concat (List.map (page_items T path params etag) (seq 1 n))
  /\ (forall i, (1 <= i)%nat -> (i < n)%nat ->
        full_page T path params etag i = true)
  /\ ((n < Z.to_nat max_pages)%nat ->
        (1 <= n)%nat /\ full_page T path params etag n = false)
  /\ etag_to_return st
     = (if 0 <? Z.of_nat n then first_page_etag T path params etag else etag)
  /\ raised st
     = (if 0 <? Z.of_nat n then page_raised T path params etag n else None).
Proof.
  cbv zeta. unfold run_paged. change 1 with (Z.of_nat 1).
  destruct (paged_loop_run T path params etag (Z.to_nat max_pages) 1 etag
              (mkPaging [] etag [] None))
    as (n & Hn & Hr & Ha & Hf & Hs & He & Hx);
    [lia | split; reflexivity |].
  cbn [requests all_items etag_to_return raised app] in *.
  assert (List.length
            (requests (paged_loop T path (Z.to_nat max_pages) (Z.of_nat 1)
                         params etag (mkPaging [] etag [] None))) = n) as ->
    by (rewrite Hr, length_map, length_seq; reflexivity).
  split; [exact Hn|]. split; [exact Hr|]. split; [exact Ha|].
  split; [|split; [|split]].
  - intros i H1 H2. apply Hf; lia.
  - intros Hlt. destruct (Hs Hlt) as [H1 H2]. split; [exact H1|].
    now replace (1 + n - 1)%nat with n in H2 by lia.
  - exact He.
  - now replace (1 + n - 1)%nat with n in Hx by lia.
Qed.

(** What the fetch hands to its caller. *)
Lemma list_paged_result T path params etag max_pages :
  get_repo_list_paged T path params etag max_pages
  = match raised (run_paged T path params etag max_pages) with
    | Some e => Raise e
    | None =>
        Ok (all_items (run_paged T path params etag max_pages),
            etag_to_return (run_paged T path params etag max_pages))
    end.
Proof. reflexivity. Qed.

(** The simulated resource is fetched whole, in order, with one request
    more than it has full pages, as long as the page cap allows. *)
Lemma serve_complete tag (items : list Item) path params etag max_pages :
  0 < per_page_of params ->
  Z.of_nat (List.length items) / per_page_of params < max_pages ->
  let st := run_paged (serve tag items) path params etag max_pages in
  Z.of_nat (List.length (requests st))
  = Z.of_nat (List.length items) / per_page_of params + 1
  /\ all_items st = items
  /\ raised st = None.
Proof.
  intros Hpp Hcap. cbv zeta.
  pose proof (run_paged_pages (serve tag items) path params etag max_pages)
    as H. cbv zeta in H.
  destruct H as (Hn & _ & Ha & Hf & Hs & _ & Hx).
  set (n := List.length
              (requests (run_paged (serve tag items) path params etag
                           max_pages))) in *.
  set (size := Z.to_nat (per_page_of params)).
  assert (Z.of_nat size = per_page_of params) as Hz by (unfold size; lia).
  assert (0 < size)%nat as Hsz by lia.
  assert (List.length items / size < Z.to_nat max_pages)%nat as Hcap'.
  { apply Nat2Z.inj_lt. rewrite Nat2Z.inj_div, Hz. lia. }
  assert ((n - 1) * size <= List.length items)%nat as Hlow.
  { destruct (Nat.le_gt_cases n 1) as [H1|H1].
    - replace (n - 1)%nat with 0%nat by lia. lia.
    - apply (serve_full_page tag items path params etag (n - 1));
        [lia | exact Hpp |]. apply Hf; lia. }
  assert (List.length items < n * size)%nat as Hup.
  { destruct (Nat.lt_ge_cases n (Z.to_nat max_pages)) as [Hlt|Hge].
    - destruct (Hs Hlt) as [H1 H2].
      destruct (Nat.lt_ge_cases (List.length items) (n * size)) as [|Hc];
        [assumption|].
      apply (serve_full_page tag items path params etag n) in Hc;
        [|lia|exact Hpp]. fold size in Hc. congruence.
    - pose proof (Nat.mul_succ_div_gt (List.length items) size) as Hd.
      nia. }
  split; [|split].
  - rewrite <- Hz, <- Nat2Z.inj_div.
    assert (List.length items / size = n - 1)%nat as ->.
    { symmetry. apply Nat.div_unique with (List.length items - (n - 1) * size)%nat;
        nia. }
    lia.
  - rewrite Ha.
    rewrite (List.map_ext _ (fun i => take size (drop ((i - 1) * size) items)))
      by (intros i; apply serve_page_items).
    rewrite concat_pages. apply take_ge. lia.
  - rewrite Hx, serve_page_raised. now destruct (0 <? Z.of_nat n).
Qed.

(** C4, as stated, fails: a fetch whose second request fails stops there,
    although the page cap (10) is not reached and no short or empty page
    was returned. *)
Lemma pagination_stops_on_failed_page :
  let T := serve_failing (Some "W/1")
             [item "I_1" "t1"; item "I_2" "t2"; item "I_3" "t3"]
             2 (Responded 500 None (Ok [])) in
  let params := mkParams (Some "all"%string) (Some 2) None None in
  let st := run_paged T "/repos/o/r/issues" params None 10 in
  let n := List.length (requests st) in
  ~ (n = Z.to_nat 10
     \/ exists r e' l,
          page_result T "/repos/o/r/issues" params None n = Ok (Some r, e')
          /\ json r = Ok l
          /\ (l = [] \/ Z.of_nat (List.length l) < per_page_of params)).
Proof.
  cbv zeta.
  match goal with |- ~ (List.length (requests ?st) = _ \/ _) =>
    assert (List.length (requests st) = 2%nat) as -> by (vm_compute; reflexivity)
  end.
  intros [H | (r & e' & l & H & _)]; [discriminate|].
  vm_compute in H. discriminate.
Qed.

(** C4, amended: pagination asks for pages 1, 2, ..., n in order; it goes
    on after a page exactly when that page came back, non-empty and not
    shorter than the page size; so a fetch that returns has stopped at the
    first page that yields no response (a 304 or a failure), is empty, or
    is shorter than the page size, or at the page cap [max_pages]; the
    items are those of the pages received, concatenated in page order (a
    fetch does not return only when its last request, or the decoding of
    its body, raised, and then it raises the same).  A resource of
    exactly 125 items served in pages of 50 takes 3 requests and gives
    exactly its 125 items in upstream order. *)
Theorem pagination_stops :
  (forall T path params etag max_pages,
     let st := run_paged T path params etag max_pages in
     let n := List.length (requests st) in
     get_repo_list_paged T path params etag max_pages
       = match raised st with
         | Some e => Raise e
         | None => Ok (all_items st, etag_to_return st)
         end
     /\ (n <= Z.to_nat max_pages)%nat
     /\ requests st = List.map (page_request path params etag) (seq 1 n)
     /\ all_items st
        = concat (List.map (page_items T path params etag) (seq 1 n))
     /\ (forall i, (1 <= i)%nat -> (i < n)%nat ->
           exists r e' l,
             page_result T path params etag i = Ok (Some r, e')
             /\ json r = Ok l
             /\ l <> []
             /\ per_page_of params <= Z.of_nat (List.length l))
     /\ (raised st = None ->
         (n < Z.to_nat max_pages)%nat ->
           (1 <= n)%nat
           /\ ((exists e', page_result T path params etag n = Ok (None, e'))
               \/ exists r e' l,
                    page_result T path params etag n = Ok (Some r, e')
                    /\ json r = Ok l
                    /\ (l = []
                        \/ Z.of_nat (List.length l) < per_page_of params)))
     /\ (forall e, raised st = Some e ->
           (1 <= n)%nat /\ page_raised T path params etag n = Some e))
  /\ (forall tag (items : list Item) path params etag max_pages,
        List.length items = 125%nat ->
        p_per_page params = Some 50 ->
        3 <= max_pages ->
        let st := run_paged (serve tag items) path params etag max_pages in
        List.length (requests st) = 3%nat
        /\ List.length (all_items st) = 125%nat
        /\ all_items st = items
        /\ get_repo_list_paged (serve tag items) path params etag max_pages
           = Ok (items, if PyStr.otruthy tag then tag else etag)).
Proof.
  split.
  - intros T path params etag max_pages. cbv zeta.
    pose proof (run_paged_pages T path params etag max_pages) as H.
    cbv zeta in H. destruct H as (Hn & Hr & Ha & Hf & Hs & _ & Hx).
    split; [reflexivity|]. split; [exact Hn|]. split; [exact Hr|].
    split; [exact Ha|]. split; [|split].
    + intros i H1 H2. apply full_page_true. now apply Hf.
    + intros Hnone Hlt. destruct (Hs Hlt) as [H1 H2]. split; [exact H1|].
      apply full_page_false; [exact H2|].
      rewrite Hx in Hnone.
      now replace (0 <? Z.of_nat _) with true in Hnone
        by (symmetry; apply Z.ltb_lt; lia).
    + intros e He. rewrite Hx in He.
      destruct (Z.ltb_spec 0 (Z.of_nat (List.length
                  (requests (run_paged T path params etag max_pages)))))
        as [Hp|Hp]; [|discriminate].
      split; [lia | exact He].
  - intros tag items path params etag max_pages Hlen Hpp Hcap. cbv zeta.
    assert (per_page_of params = 50) as Hp
      by (unfold per_page_of; now rewrite Hpp).
    destruct (serve_complete tag items path params etag max_pages)
      as (Hn & Ha & Hx).
    { rewrite Hp. lia. }
    { rewrite Hp, Hlen. change (Z.of_nat 125 / 50) with 2. lia. }
    rewrite Hp, Hlen in Hn. change (Z.of_nat 125 / 50 + 1) with 3 in Hn.
    assert (List.length
              (requests (run_paged (serve tag items) path params etag
                           max_pages)) = 3%nat) as Hn3 by lia.
    split; [exact Hn3|]. split; [now rewrite Ha|]. split; [exact Ha|].
    rewrite list_paged_result, Hx, Ha. do 2 f_equal.
    pose proof (run_paged_pages (serve tag items) path params etag max_pages)
      as H. cbv zeta in H. destruct H as (_ & _ & _ & _ & _ & He & _).
    rewrite He, Hn3. cbn [Z.of_nat Z.ltb Z.compare Pos.of_succ_nat].
    unfold first_page_etag. now rewrite serve_page_result.
Qed.

Lemma pagination_stops_witness :
  let items := List.map (fun i => item "I" (String (ascii_of_nat i) ""))
                 (seq 0 125) in
  let st := run_paged (serve (Some "W/2"%string) items) "/repos/o/r/issues"
              (mkParams (Some "all"%string) (Some 50) None None) None 10 in
  List.length (requests st) = 3%nat /\ all_items st = items.
Proof.
  intros items st.
  destruct (proj2 pagination_stops (Some "W/2"%string) items
              "/repos/o/r/issues"%string
              (mkParams (Some "all"%string) (Some 50) None None) None 10)
    as (H3 & _ & Ha & _);
    [vm_compute; reflexivity | reflexivity | lia |].
  split; [exact H3 | exact Ha].
Defined.

End PaginationClaims.

(** ** Python's order on [str] *)

Section StringOrder.

Lemma ascii_compare_refl a : Ascii.compare a a = Eq.
Proof. unfold Ascii.compare. apply N.compare_refl. Qed.

Lemma ascii_compare_lt_trans a b c :
  Ascii.compare a b = Lt -> Ascii.compare b c = Lt -> Ascii.compare a c = Lt.
Proof.
  unfold Ascii.compare. rewrite !N.compare_lt_iff. apply N.lt_trans.
Qed.

Lemma string_compare_refl s : String.compare s s = Eq.
Proof.
  induction s as [|a r IH]; [reflexivity|].
  cbn [String.compare]. now rewrite ascii_compare_refl.
Qed.

Lemma string_compare_lt_trans a : forall b c,
  String.compare a b = Lt -> String.compare b c = Lt ->
  String.compare a c = Lt.
Proof.
  induction a as [|x a IH]; intros [|y b] [|z c]; cbn [String.compare];
    try discriminate; try reflexivity.
  destruct (Ascii.compare x y) eqn:Exy; try discriminate;
    destruct (Ascii.compare y z) eqn:Eyz; try discriminate; intros H1 H2.
  - apply Ascii.compare_eq_iff in Exy, Eyz. subst.
    rewrite ascii_compare_refl. now apply IH with b.
  - apply Ascii.compare_eq_iff in Exy. subst. now rewrite Eyz.
  - apply Ascii.compare_eq_iff in Eyz. subst. now rewrite Exy.
  - now rewrite (ascii_compare_lt_trans _ _ _ Exy Eyz).
Qed.

Lemma string_leb_refl s : String.leb s s = true.
Proof. unfold String.leb. now rewrite string_compare_refl. Qed.

Lemma string_leb_trans a b c :
  String.leb a b = true -> String.leb b c = true -> String.leb a c = true.
Proof.
  unfold String.leb.
  destruct (String.compare a b) eqn:Eab; try discriminate;
    destruct (String.compare b c) eqn:Ebc; try discriminate; intros _ _.
  - apply String.compare_eq_iff in Eab, Ebc. subst.
    now rewrite string_compare_refl.
  - apply String.compare_eq_iff in Eab. subst. now rewrite Ebc.
  - apply String.compare_eq_iff in Ebc. subst. now rewrite Eab.
  - now rewrite (string_compare_lt_trans _ _ _ Eab Ebc).
Qed.

(** [u > l] is the negation of [u <= l]. *)
Lemma gtb_leb u l : PyStr.gtb u l = negb (String.leb u l).
Proof.
  unfold PyStr.gtb, String.ltb, String.leb.
  rewrite (String.compare_antisym u l).
  now destruct (String.compare l u).
Qed.

Lemma gtb_true_leb u l : PyStr.gtb u l = true -> String.leb l u = true.
Proof.
  unfold PyStr.gtb, String.ltb, String.leb.
  now destruct (String.compare l u).
Qed.

Lemma leb_truthy u l :
  PyStr.truthy u = true -> String.leb u l = true -> PyStr.truthy l = true.
Proof. destruct u, l; cbn; congruence. Qed.


End StringOrder.

(** ** The newest time seen by the cursor loop *)

Section Newest.
Import Backfill.

(** The loop's running value after the times [us], from [latest]. *)
Local Abbreviation newest us latest :=
  (fold_left (fun acc u => bump (Some u) acc) us latest).

Lemma bump_truthy u latest :
  PyStr.truthy u = true ->
  exists v, bump (Some u) latest = Some v
            /\ PyStr.truthy v = true
            /\ String.leb u v = true
            /\ (v = u \/ latest = Some v)
            /\ (forall p, latest = Some p -> String.leb p v = true).
Proof.
  intros Hu. unfold bump. rewrite Hu. destruct latest as [l|].
  - rewrite gtb_leb. destruct (String.leb u l) eqn:E; cbn [negb].
    + exists l. repeat split; auto.
      * now apply leb_truthy with u.
      * intros p [= ->]. apply string_leb_refl.
    + exists u. repeat split; auto using string_leb_refl.
      intros p [= ->]. destruct (String.leb_total p u); congruence.
  - exists u. repeat split; auto using string_leb_refl. discriminate.
Qed.

Lemma newest_spec us : forall latest,
  Forall (fun u => PyStr.truthy u = true) us ->
  (newest us latest = latest \/ exists u, In u us /\ newest us latest = Some u)
  /\ (forall u, In u us ->
        exists v, newest us latest = Some v /\ String.leb u v = true)
  /\ (forall p, latest = Some p ->
        exists v, newest us latest = Some v /\ String.leb p v = true)
  /\ (us <> [] -> PyStr.otruthy (newest us latest) = true).
Proof.
  induction us as [|u us IH]; intros latest Hall; cbn [fold_left].
  - split; [now left|]. split; [intros u []|].
    split; [|congruence]. intros p ->. exists p.
    split; [reflexivity | apply string_leb_refl].
  - inversion Hall as [|? ? Hu Hus]; subst.
    destruct (bump_truthy u latest Hu) as (v & Hv & Htv & Huv & Hor & Hp).
    rewrite Hv.
    destruct (IH (Some v) Hus) as (I1 & I2 & I3 & I4).
    destruct (I3 v eq_refl) as (w & Hw & Hvw).
    split; [|split; [|split]].
    + destruct I1 as [I1 | (x & Hx & I1)].
      * rewrite I1. destruct Hor as [-> | ->]; [|now left].
        right. exists u. split; [now left | reflexivity].
      * right. exists x. split; [now right | exact I1].
    + intros x [<- | Hx].
      * exists w. split; [exact Hw|]. now apply string_leb_trans with v.
      * now apply I2.
    + intros p Hlp. exists w. split; [exact Hw|].
      apply string_leb_trans with v; [now apply Hp | exact Hvw].
    + intros _. rewrite Hw. cbn. now apply leb_truthy with v.
Qed.

Lemma update_times_truthy items :
  Forall (fun u => PyStr.truthy u = true) (update_times items).
Proof.
  induction items as [|it items IH]; [constructor|].
  unfold update_times in *. cbn [omap list_omap].
  destruct (GhApi.get it "updated_at") as [u|]; [|exact IH].
  destruct (PyStr.truthy u) eqn:E; [|exact IH]. now constructor.
Qed.

End Newest.

(** ** The backfill controller *)

Section BackfillFacts.
Import PyStr RidTypes GhApi Pages Backfill.
Local Open Scope list_scope.

Local Abbreviation newest us latest :=
  (fold_left (fun acc u => bump (Some u) acc) us latest).

Lemma bstate_eta s : mkBState (repo_state s) (handled s) = s.
Proof. now destruct s. Qed.

Lemma state_get_run key s : state_get key s = (Ok (cursor key s), s).
Proof. reflexivity. Qed.

(** Writing back the value already stored changes nothing. *)
Lemma state_set_if_truthy_stored key v s :
  repo_state s !! key = Some v -> state_set_if_truthy key v s = (Ok tt, s).
Proof.
  intros H. unfold state_set_if_truthy. destruct (otruthy v); [|reflexivity].
  unfold state_set. rewrite (insert_id _ _ _ H). now rewrite bstate_eta.
Qed.

Lemma state_set_if_truthy_run key v s :
  exists s', state_set_if_truthy key v s = (Ok tt, s')
             /\ handled s' = handled s
             /\ cursor key s' = (if otruthy v then v else cursor key s)
             /\ forall k, k <> key -> repo_state s' !! k = repo_state s !! k.
Proof.
  unfold state_set_if_truthy. destruct (otruthy v).
  - eexists. split; [reflexivity|]. cbn [handled repo_state]. split; [reflexivity|].
    unfold cursor. cbn [repo_state]. split.
    + now rewrite lookup_insert_eq.
    + intros k Hk. now rewrite lookup_insert_ne.
  - exists s. repeat split; reflexivity.
Qed.

Lemma slice_to_nil {A} n : slice_to n (@nil A) = [].
Proof. unfold slice_to. destruct (0 <=? n); apply take_nil. Qed.

(** With a well-formed repository name the loop raises nothing, leaves
    [repo_state] alone, and ends with the newest time seen. *)
Lemma cursor_loop_ok rfn prefix source_type :
  count "/" rfn = 1%nat ->
  forall items latest s,
  exists hs,
    cursor_loop rfn prefix source_type items latest s
    = (Ok (newest (update_times (processed items)) latest),
       mkBState (repo_state s) (handled s ++ hs)).
Proof.
  intros Hr. induction items as [|it items IH]; intros latest s.
  - exists []. cbn. now rewrite app_nil_r, bstate_eta.
  - cbn [cursor_loop processed List.filter].
    destruct (get it "node_id") as [nid|] eqn:En; cbn [otruthy].
    + destruct (truthy nid) eqn:Et.
      * assert (newest (update_times (it :: processed items)) latest
                = newest (update_times (processed items))
                    (bump (get it "updated_at") latest)) as Hfold.
        { unfold update_times, bump. cbn [omap list_omap].
          destruct (get it "updated_at") as [u|]; [|reflexivity].
          destruct (truthy u) eqn:Eu; [|reflexivity].
          cbn [fold_left]. now rewrite Eu. }
        change (List.filter (fun it0 : Item => otruthy (get it0 "node_id"))
                  items) with (processed items).
        rewrite Hfold.
        unfold bind at 1. unfold lift. rewrite (init_ok _ _ Hr).
        unfold bind at 1. unfold handle at 1.
        match goal with |- context [cursor_loop _ _ _ items ?l ?s1] =>
          destruct (IH l s1) as (hs & Hhs) end.
        cbn [repo_state handled] in Hhs.
        exists (mkHandled (mkGitHubEvent rfn (prefix ++ nid)%string)
                  source_type it NEW :: hs).
        rewrite Hhs. rewrite <- app_assoc. reflexivity.
      * apply IH.
    + apply IH.
Qed.

(** The cursor block, for a well-formed repository name. *)
Lemma advance_cursor_ok key rfn prefix source_type max_items fetched s :
  count "/" rfn = 1%nat ->
  exists s',
    advance_cursor key rfn prefix source_type max_items fetched s
    = (Ok tt, s')
    /\ (fetched = [] -> s' = s)
    /\ cursor key s'
       = newest (update_times (processed (slice_to max_items fetched)))
           (cursor key s)
    /\ (forall k, k <> key -> repo_state s' !! k = repo_state s !! k).
Proof.
  intros Hr. unfold advance_cursor. unfold bind at 1. rewrite state_get_run.
  destruct fetched as [|x fetched'].
  - exists s. rewrite slice_to_nil. repeat split; reflexivity.
  - set (items := slice_to max_items (x :: fetched')).
    destruct (cursor_loop_ok rfn prefix source_type Hr items (cursor key s) s)
      as (hs & Hl).
    unfold bind. rewrite Hl.
    set (r := newest (update_times (processed items)) (cursor key s)) in *.
    destruct (state_set_if_truthy_run key r
                (mkBState (repo_state s) (handled s ++ hs)))
      as (s' & Hs' & _ & Hc & Hk).
    exists s'. split; [exact Hs'|]. split; [discriminate|].
    split; [|exact Hk].
    rewrite Hc. destruct (otruthy r) eqn:Er; [reflexivity|].
    unfold cursor at 1. cbn [repo_state]. fold (cursor key s).
    destruct (newest_spec (update_times (processed items)) (cursor key s)
                (update_times_truthy _)) as (H1 & _ & _ & H4).
    fold r in H1, H4.
    destruct (update_times (processed items)) as [|u us] eqn:Eu.
    + reflexivity.
    + rewrite H4 in Er; [discriminate | discriminate].
Qed.

End BackfillFacts.

Section Frames.
Import PyStr RidTypes GhApi Backfill.
Local Open Scope list_scope.
Local Open Scope bf_scope.

Lemma writes_only_ret {A} keys (a : A) : writes_only keys (ret a).
Proof. intros s k _. reflexivity. Qed.

Lemma writes_only_lift {A} keys (r : result A) : writes_only keys (lift r).
Proof. intros s k _. reflexivity. Qed.

Lemma writes_only_get keys key : writes_only keys (state_get key).
Proof. intros s k _. reflexivity. Qed.

Lemma writes_only_handle keys r st it t : writes_only keys (handle r st it t).
Proof. intros s k _. reflexivity. Qed.

Lemma writes_only_set keys key v :
  In key keys -> writes_only keys (state_set_if_truthy key v).
Proof.
  intros Hin s k Hk. unfold state_set_if_truthy.
  destruct (otruthy v); [|reflexivity].
  cbn. apply lookup_insert_ne. intros ->. contradiction.
Qed.

Lemma writes_only_bind {A B} keys (m : M A) (f : A -> M B) :
  writes_only keys m -> (forall a, writes_only keys (f a)) ->
  writes_only keys (bind m f).
Proof.
  intros Hm Hf s k Hk. unfold bind. specialize (Hm s k Hk).
  destruct (m s) as [[a|e] s1]; cbn [snd] in *.
  - now rewrite (Hf a s1 k Hk).
  - exact Hm.
Qed.

Lemma writes_only_cursor_loop keys rfn prefix st items : forall latest,
  writes_only keys (cursor_loop rfn prefix st items latest).
Proof.
  induction items as [|it items IH]; intros latest; cbn [cursor_loop].
  - apply writes_only_ret.
  - destruct (get it "node_id") as [nid|]; [|apply IH].
    destruct (truthy nid); [|apply IH].
    apply writes_only_bind; [apply writes_only_lift|]. intros r.
    apply writes_only_bind; [apply writes_only_handle|]. intros _. apply IH.
Qed.

Lemma writes_only_commits_loop keys rfn items :
  writes_only keys (commits_loop rfn items).
Proof.
  induction items as [|it items IH]; cbn [commits_loop].
  - apply writes_only_ret.
  - destruct (get it "sha") as [sha|]; [|apply IH].
    destruct (truthy sha); [|apply IH].
    apply writes_only_bind; [apply writes_only_lift|]. intros r.
    apply writes_only_bind; [apply writes_only_handle|]. intros _. apply IH.
Qed.

Lemma writes_only_advance keys key rfn prefix st max_items fetched :
  In key keys ->
  writes_only keys (advance_cursor key rfn prefix st max_items fetched).
Proof.
  intros Hin. unfold advance_cursor.
  apply writes_only_bind; [apply writes_only_get|]. intros latest.
  destruct fetched; [apply writes_only_ret|].
  apply writes_only_bind; [apply writes_only_cursor_loop|]. intros l.
  now apply writes_only_set.
Qed.

Lemma writes_only_details up owner repo_name :
  writes_only ["repo_details_etag"%string]
    (backfill_details up owner repo_name).
Proof.
  unfold backfill_details.
  apply writes_only_bind; [apply writes_only_get|]. intros e.
  destruct (get_repo_details _ _ _ _) as [d ne].
  apply writes_only_bind; [apply writes_only_set; now left|]. intros _.
  destruct d as [d|]; [|apply writes_only_ret].
  destruct (decide (d = ∅)); [apply writes_only_ret|].
  apply writes_only_bind; [apply writes_only_lift|]. intros r.
  apply writes_only_handle.
Qed.

Lemma writes_only_commits up cfg owner repo_name :
  writes_only ["commits_list_etag"%string]
    (backfill_commits up cfg owner repo_name).
Proof.
  unfold backfill_commits.
  apply writes_only_bind; [apply writes_only_get|]. intros e.
  apply writes_only_bind; [apply writes_only_lift|]. intros [fetched ne].
  apply writes_only_bind; [apply writes_only_set; now left|]. intros _.
  destruct fetched; [apply writes_only_ret | apply writes_only_commits_loop].
Qed.

Lemma writes_only_issues up cfg owner repo_name :
  writes_only ["issues_list_etag"%string;
               "issues_last_processed_update_ts"%string]
    (backfill_issues up cfg owner repo_name).
Proof.
  unfold backfill_issues.
  apply writes_only_bind; [apply writes_only_get|]. intros e.
  apply writes_only_bind; [apply writes_only_get|]. intros ts.
  apply writes_only_bind; [apply writes_only_lift|]. intros [fetched ne].
  apply writes_only_bind; [apply writes_only_set; now left|]. intros _.
  apply writes_only_advance. right. now left.
Qed.

Lemma writes_only_prs up cfg owner repo_name :
  writes_only ["prs_list_etag"%string;
               "prs_last_processed_update_ts"%string]
    (backfill_prs up cfg owner repo_name).
Proof.
  unfold backfill_prs.
  apply writes_only_bind; [apply writes_only_get|]. intros e.
  apply writes_only_bind; [apply writes_only_lift|]. intros [fetched ne].
  apply writes_only_bind; [apply writes_only_set; now left|]. intros _.
  apply writes_only_advance. right. now left.
Qed.

Lemma cursor_frame (s s' : BState) key :
  repo_state s' !! key = repo_state s !! key -> cursor key s' = cursor key s.
Proof. unfold cursor. now intros ->. Qed.

End Frames.

Section SectionRuns.
Import PyStr RidTypes GhApi Pages Backfill.
Local Open Scope list_scope.

Local Abbreviation newest us latest :=
  (fold_left (fun acc u => bump (Some u) acc) us latest).

(** A fetch whose first request yields no response returns no items and
    the ETag kept after that request. *)
Lemma list_paged_first_none T path params etag max_pages e' :
  page_result T path params etag 1 = Ok (None, e') ->
  get_repo_list_paged T path params etag max_pages
  = Ok ([], if 0 <? max_pages then first_page_etag T path params etag
            else etag).
Proof.
  intros Hnone. rewrite list_paged_result.
  pose proof (run_paged_pages T path params etag max_pages) as H.
  cbv zeta in H. destruct H as (Hn & _ & Ha & Hf & Hs & He & Hx).
  set (st := run_paged T path params etag max_pages) in *.
  assert (full_page T path params etag 1 = false) as Hfull
    by (unfold full_page, page_body; now rewrite Hnone).
  assert (page_raised T path params etag 1 = None) as Hraised
    by (unfold page_raised; now rewrite Hnone).
  assert (page_items T path params etag 1 = []) as Hitems
    by (unfold page_items, page_body; now rewrite Hnone).
  assert (List.length (requests st) = Nat.min 1 (Z.to_nat max_pages)) as Hlen.
  { destruct (Nat.lt_ge_cases (List.length (requests st)) (Z.to_nat max_pages))
      as [Hlt|Hge].
    - destruct (Hs Hlt) as [H1 _].
      destruct (Nat.eq_dec (List.length (requests st)) 1%nat) as [E|E]; [lia|].
      rewrite Hf in Hfull; [discriminate | lia | lia].
    - destruct (Nat.le_gt_cases (List.length (requests st)) 1%nat); [lia|].
      rewrite Hf in Hfull; [discriminate | lia | lia]. }
  rewrite Hx, Ha, He, Hlen.
  destruct (Z.ltb_spec 0 max_pages) as [Hp|Hp].
  - replace (Nat.min 1 (Z.to_nat max_pages)) with 1%nat by lia.
    cbn [Z.of_nat Pos.of_succ_nat Z.ltb Z.compare seq List.map concat].
    now rewrite Hraised, Hitems.
  - replace (Nat.min 1 (Z.to_nat max_pages)) with 0%nat by lia.
    reflexivity.
Qed.


(** The 304 short circuit of the paged fetch. *)
Lemma list_paged_304 T path params e max_pages :
  truthy e = true ->
  (forall rq, rq_if_none_match rq = Some e ->
     exists h b, T rq = Responded 304 h b) ->
  _make_github_request T "GET" path (Some (set_page 1 params)) (Some e)
    = Ok (None, Some e)
  /\ get_repo_list_paged T path params (Some e) max_pages = Ok ([], Some e).
Proof.
  intros He H304.
  assert (page_result T path params (Some e) 1 = Ok (None, Some e)) as Hp.
  { unfold page_result, page_etag. cbn [Z.of_nat Pos.of_succ_nat Z.eqb Pos.eqb].
    destruct (H304 (build_request "GET" path (Some (set_page 1 params))
                      (Some e))) as (h & b & Hr).
    - unfold build_request. cbn [rq_if_none_match otruthy]. now rewrite He.
    - exact (make_request_304 T _ _ _ _ h b Hr). }
  split; [exact Hp|].
  rewrite (list_paged_first_none _ _ _ _ _ _ Hp).
  unfold first_page_etag. rewrite Hp. cbn [otruthy]. rewrite He.
  now destruct (0 <? max_pages).
Qed.

(** A list section whose fetch raises, raises the same before it has
    written anything. *)
Lemma commits_raise up cfg owner repo_name s x :
  commits_fetched up cfg owner repo_name s = Raise x ->
  backfill_commits up cfg owner repo_name s = (Raise x, s).
Proof.
  intros Hf. unfold backfill_commits. cbv zeta.
  unfold bind at 1. rewrite state_get_run.
  change (get_repo_commits (list_api up) owner repo_name None
            (backfill_max_items cfg) (cursor "commits_list_etag" s))
    with (commits_fetched up cfg owner repo_name s).
  rewrite Hf. reflexivity.
Qed.

Lemma issues_raise up cfg owner repo_name s x :
  issues_fetched up cfg owner repo_name s = Raise x ->
  backfill_issues up cfg owner repo_name s = (Raise x, s).
Proof.
  intros Hf. unfold backfill_issues. cbv zeta.
  unfold bind at 1. rewrite state_get_run.
  unfold bind at 1. rewrite state_get_run.
  change (get_repo_issues (list_api up) owner repo_name "all"
            (seed_since cfg (cursor "issues_last_processed_update_ts" s))
            (backfill_max_items cfg) (cursor "issues_list_etag" s))
    with (issues_fetched up cfg owner repo_name s).
  rewrite Hf. reflexivity.
Qed.

Lemma prs_raise up cfg owner repo_name s x :
  prs_fetched up cfg owner repo_name s = Raise x ->
  backfill_prs up cfg owner repo_name s = (Raise x, s).
Proof.
  intros Hf. unfold backfill_prs. cbv zeta.
  unfold bind at 1. rewrite state_get_run.
  change (get_repo_pull_requests (list_api up) owner repo_name "all"
            (backfill_max_items cfg) (cursor "prs_list_etag" s))
    with (prs_fetched up cfg owner repo_name s).
  rewrite Hf. reflexivity.
Qed.

(** The issues section, for a well-formed repository name and a fetch
    that returns. *)
Lemma issues_run up cfg owner repo_name s fetched ne :
  count "/" (owner ++ "/" ++ repo_name)%string = 1%nat ->
  issues_fetched up cfg owner repo_name s = Ok (fetched, ne) ->
  exists s',
    backfill_issues up cfg owner repo_name s = (Ok tt, s')
    /\ (fetched = [] ->
          repo_state s' !! "issues_last_processed_update_ts"
          = repo_state s !! "issues_last_processed_update_ts")
    /\ cursor "issues_last_processed_update_ts" s'
       = newest (update_times (processed
                   (slice_to (backfill_max_items cfg) fetched)))
           (cursor "issues_last_processed_update_ts" s).
Proof.
  intros Hr Hf. unfold backfill_issues. cbv zeta.
  unfold bind at 1. rewrite state_get_run.
  unfold bind at 1. rewrite state_get_run.
  change (get_repo_issues (list_api up) owner repo_name "all"
            (seed_since cfg (cursor "issues_last_processed_update_ts" s))
            (backfill_max_items cfg) (cursor "issues_list_etag" s))
    with (issues_fetched up cfg owner repo_name s).
  rewrite Hf. unfold bind at 1. unfold lift at 1.
  destruct (state_set_if_truthy_run "issues_list_etag" ne s)
    as (s1 & H1 & _ & _ & Hk1).
  unfold bind. rewrite H1.
  destruct (advance_cursor_ok "issues_last_processed_update_ts"
              (owner ++ "/" ++ repo_name)%string "issue_" "backfill_issue"
              (backfill_max_items cfg) fetched s1 Hr)
    as (s' & H2 & Hnil & Hc & _).
  rewrite H2. exists s'. split; [reflexivity|].
  assert (repo_state s1 !! "issues_last_processed_update_ts"
          = repo_state s !! "issues_last_processed_update_ts") as Hts
    by (apply Hk1; discriminate).
  split.
  - intros ->. now rewrite (Hnil eq_refl).
  - rewrite Hc. now rewrite (cursor_frame _ _ _ Hts).
Qed.

(** The pull-request section, for a well-formed repository name and a
    fetch that returns. *)
Lemma prs_run up cfg owner repo_name s fetched ne :
  count "/" (owner ++ "/" ++ repo_name)%string = 1%nat ->
  prs_fetched up cfg owner repo_name s = Ok (fetched, ne) ->
  exists s',
    backfill_prs up cfg owner repo_name s = (Ok tt, s')
    /\ (fetched = [] ->
          repo_state s' !! "prs_last_processed_update_ts"
          = repo_state s !! "prs_last_processed_update_ts")
    /\ cursor "prs_last_processed_update_ts" s'
       = newest (update_times (processed
                   (slice_to (backfill_max_items cfg) fetched)))
           (cursor "prs_last_processed_update_ts" s).
Proof.
  intros Hr Hf. unfold backfill_prs. cbv zeta.
  unfold bind at 1. rewrite state_get_run.
  change (get_repo_pull_requests (list_api up) owner repo_name "all"
            (backfill_max_items cfg) (cursor "prs_list_etag" s))
    with (prs_fetched up cfg owner repo_name s).
  rewrite Hf. unfold bind at 1. unfold lift at 1.
  destruct (state_set_if_truthy_run "prs_list_etag" ne s)
    as (s1 & H1 & _ & _ & Hk1).
  unfold bind. rewrite H1.
  destruct (advance_cursor_ok "prs_last_processed_update_ts"
              (owner ++ "/" ++ repo_name)%string "pr_" "backfill_pr"
              (backfill_max_items cfg) fetched s1 Hr)
    as (s' & H2 & Hnil & Hc & _).
  rewrite H2. exists s'. split; [reflexivity|].
  assert (repo_state s1 !! "prs_last_processed_update_ts"
          = repo_state s !! "prs_last_processed_update_ts") as Hts
    by (apply Hk1; discriminate).
  split.
  - intros ->. now rewrite (Hnil eq_refl).
  - rewrite Hc. now rewrite (cursor_frame _ _ _ Hts).
Qed.

(** A list section whose fetch returns nothing and the stored ETag leaves
    the state as it is. *)
Lemma issues_unchanged up cfg owner repo_name s :
  issues_fetched up cfg owner repo_name s
    = Ok ([], cursor "issues_list_etag" s) ->
  backfill_issues up cfg owner repo_name s = (Ok tt, s).
Proof.
  intros Hf. unfold backfill_issues. cbv zeta.
  unfold bind at 1. rewrite state_get_run.
  unfold bind at 1. rewrite state_get_run.
  change (get_repo_issues (list_api up) owner repo_name "all"
            (seed_since cfg (cursor "issues_last_processed_update_ts" s))
            (backfill_max_items cfg) (cursor "issues_list_etag" s))
    with (issues_fetched up cfg owner repo_name s).
  rewrite Hf. unfold bind, lift.
  assert (state_set_if_truthy "issues_list_etag"
            (cursor "issues_list_etag" s) s = (Ok tt, s)) as ->.
  { unfold cursor.
    destruct (repo_state s !! "issues_list_etag") as [v|] eqn:E;
      [|reflexivity].
    cbn [mjoin option_join]. now apply state_set_if_truthy_stored. }
  reflexivity.
Qed.

Lemma prs_unchanged up cfg owner repo_name s :
  prs_fetched up cfg owner repo_name s
    = Ok ([], cursor "prs_list_etag" s) ->
  backfill_prs up cfg owner repo_name s = (Ok tt, s).
Proof.
  intros Hf. unfold backfill_prs. cbv zeta.
  unfold bind at 1. rewrite state_get_run.
  change (get_repo_pull_requests (list_api up) owner repo_name "all"
            (backfill_max_items cfg) (cursor "prs_list_etag" s))
    with (prs_fetched up cfg owner repo_name s).
  rewrite Hf. unfold bind, lift.
  assert (state_set_if_truthy "prs_list_etag"
            (cursor "prs_list_etag" s) s = (Ok tt, s)) as ->.
  { unfold cursor.
    destruct (repo_state s !! "prs_list_etag") as [v|] eqn:E;
      [|reflexivity].
    cbn [mjoin option_join]. now apply state_set_if_truthy_stored. }
  reflexivity.
Qed.

End SectionRuns.

Section WholePass.
Import PyStr RidTypes GhApi Pages Backfill.
Local Open Scope list_scope.

Local Abbreviation newest us latest :=
  (fold_left (fun acc u => bump (Some u) acc) us latest).

Lemma commits_loop_ok rfn :
  count "/" rfn = 1%nat ->
  forall items s, exists s', commits_loop rfn items s = (Ok tt, s').
Proof.
  intros Hr. induction items as [|it items IH]; intros s; cbn [commits_loop].
  - now exists s.
  - destruct (get it "sha") as [sha|]; [|apply IH].
    destruct (truthy sha); [|apply IH].
    unfold bind at 1. unfold lift. rewrite (init_ok _ _ Hr).
    unfold bind at 1. unfold handle at 1. apply IH.
Qed.

Lemma details_ok up owner repo_name s :
  count "/" (owner ++ "/" ++ repo_name)%string = 1%nat ->
  exists s', backfill_details up owner repo_name s = (Ok tt, s').
Proof.
  intros Hr. unfold backfill_details. cbv zeta.
  unfold bind at 1. rewrite state_get_run.
  destruct (get_repo_details _ _ _ _) as [d ne].
  destruct (state_set_if_truthy_run "repo_details_etag" ne s)
    as (s1 & H1 & _).
  unfold bind at 1. rewrite H1.
  destruct d as [d|]; [|now exists s1].
  destruct (decide (d = ∅)); [now exists s1|].
  unfold bind, lift. rewrite (init_ok _ _ Hr). unfold handle. eauto.
Qed.

Lemma commits_ok up cfg owner repo_name s :
  count "/" (owner ++ "/" ++ repo_name)%string = 1%nat ->
  is_ok (commits_fetched up cfg owner repo_name s) = true ->
  exists s', backfill_commits up cfg owner repo_name s = (Ok tt, s').
Proof.
  intros Hr Hf. unfold backfill_commits. cbv zeta.
  unfold bind at 1. rewrite state_get_run.
  change (get_repo_commits (list_api up) owner repo_name None
            (backfill_max_items cfg) (cursor "commits_list_etag" s))
    with (commits_fetched up cfg owner repo_name s).
  destruct (commits_fetched up cfg owner repo_name s) as [[fetched ne]|x];
    [|discriminate].
  unfold bind at 1. unfold lift at 1.
  destruct (state_set_if_truthy_run "commits_list_etag" ne s)
    as (s1 & H1 & _).
  unfold bind at 1. rewrite H1.
  destruct fetched; [now exists s1 | now apply commits_loop_ok].
Qed.

(** What the commits section fetches depends on the state through its
    ETag only. *)
Lemma commits_fetched_agree up cfg owner repo_name s s1 :
  repo_state s1 !! "commits_list_etag" = repo_state s !! "commits_list_etag" ->
  commits_fetched up cfg owner repo_name s1
  = commits_fetched up cfg owner repo_name s.
Proof.
  intros H1. unfold commits_fetched. now rewrite (cursor_frame _ _ _ H1).
Qed.

(** What the issues section fetches depends on the state through its own
    two keys only. *)
Lemma issues_fetched_agree up cfg owner repo_name s s2 :
  repo_state s2 !! "issues_list_etag" = repo_state s !! "issues_list_etag" ->
  repo_state s2 !! "issues_last_processed_update_ts"
    = repo_state s !! "issues_last_processed_update_ts" ->
  issues_fetched up cfg owner repo_name s2
  = issues_fetched up cfg owner repo_name s.
Proof.
  intros H1 H2. unfold issues_fetched.
  now rewrite (cursor_frame _ _ _ H1), (cursor_frame _ _ _ H2).
Qed.

Lemma prs_fetched_agree up cfg owner repo_name s s2 :
  repo_state s2 !! "prs_list_etag" = repo_state s !! "prs_list_etag" ->
  prs_fetched up cfg owner repo_name s2 = prs_fetched up cfg owner repo_name s.
Proof.
  intros H1. unfold prs_fetched. now rewrite (cursor_frame _ _ _ H1).
Qed.

(** The state the issues section starts from agrees with the initial one
    on every key but the two ETags written before it; the state the
    pull-request section starts from, on the pull-request keys. *)
Lemma pass_stages up cfg owner repo_name s :
  exists s2,
    (forall k, k <> "repo_details_etag"%string ->
               k <> "commits_list_etag"%string ->
               repo_state s2 !! k = repo_state s !! k)
    /\ (backfill_repository_data up cfg owner repo_name s
        = bind (backfill_issues up cfg owner repo_name)
            (fun _ => backfill_prs up cfg owner repo_name) s2
        \/ exists e, backfill_repository_data up cfg owner repo_name s
                     = (Raise e, s2)).
Proof.
  assert (backfill_repository_data up cfg owner repo_name s
          = match backfill_details up owner repo_name s with
            | (Ok _, s1) =>
                match backfill_commits up cfg owner repo_name s1 with
                | (Ok _, s2) =>
                    bind (backfill_issues up cfg owner repo_name)
                      (fun _ => backfill_prs up cfg owner repo_name) s2
                | (Raise e, s2) => (Raise e, s2)
                end
            | (Raise e, s1) => (Raise e, s1)
            end) as -> by reflexivity.
  pose proof (writes_only_details up owner repo_name s) as F1.
  destruct (backfill_details up owner repo_name s) as [[[]|e] s1];
    cbn [snd] in F1.
  - pose proof (writes_only_commits up cfg owner repo_name s1) as F2.
    destruct (backfill_commits up cfg owner repo_name s1) as [[[]|e] s2];
      cbn [snd] in F2; exists s2.
    + split; [|now left]. intros k K1 K2.
      rewrite F2 by (intros [<-|[]]; congruence).
      apply F1. intros [<-|[]]; congruence.
    + split; [|right; now exists e]. intros k K1 K2.
      rewrite F2 by (intros [<-|[]]; congruence).
      apply F1. intros [<-|[]]; congruence.
  - exists s1. split; [|right; now exists e]. intros k K1 K2.
    apply F1. intros [<-|[]]; congruence.
Qed.

End WholePass.

Section BackfillClaims.
Import PyStr RidTypes GhApi Pages Backfill.
Local Open Scope list_scope.

Local Abbreviation newest us latest :=
  (fold_left (fun acc u => bump (Some u) acc) us latest).

Local Abbreviation issues_ts := "issues_last_processed_update_ts"%string.
Local Abbreviation prs_ts := "prs_last_processed_update_ts"%string.

Lemma issues_304 up cfg owner repo_name s e :
  truthy e = true ->
  (forall rq, rq_if_none_match rq = Some e ->
     exists h b, list_api up rq = Responded 304 h b) ->
  repo_state s !! "issues_list_etag" = Some (Some e) ->
  backfill_issues up cfg owner repo_name s = (Ok tt, s).
Proof.
  intros He H304 Hs. apply issues_unchanged.
  unfold issues_fetched, cursor at 2 3. rewrite Hs. cbn [mjoin option_join].
  unfold get_repo_issues. now apply list_paged_304.
Qed.

Lemma prs_304 up cfg owner repo_name s e :
  truthy e = true ->
  (forall rq, rq_if_none_match rq = Some e ->
     exists h b, list_api up rq = Responded 304 h b) ->
  repo_state s !! "prs_list_etag" = Some (Some e) ->
  backfill_prs up cfg owner repo_name s = (Ok tt, s).
Proof.
  intros He H304 Hs. apply prs_unchanged.
  unfold prs_fetched, cursor. rewrite Hs. cbn [mjoin option_join].
  unfold get_repo_pull_requests. now apply list_paged_304.
Qed.

(** C2: when the upstream answers 304 to the request made with the stored
    ETag [e], the client returns no response body for it and hands [e]
    back, the paged fetch returns the empty list with [e], and the
    backfill of that list resource leaves the whole state as it was, so
    that after the full pass the resource's last-processed-update cursor
    is the one stored before. *)
Theorem not_modified_short_circuit up cfg owner repo_name s e :
  truthy e = true ->
  (forall rq, rq_if_none_match rq = Some e ->
     exists h b, list_api up rq = Responded 304 h b) ->
  (forall method path params,
     _make_github_request (list_api up) method path params (Some e)
     = Ok (None, Some e))
  /\ (forall path params max_pages,
        get_repo_list_paged (list_api up) path params (Some e) max_pages
        = Ok ([], Some e))
  /\ (repo_state s !! "issues_list_etag" = Some (Some e) ->
        backfill_issues up cfg owner repo_name s = (Ok tt, s)
        /\ repo_state (snd (backfill_repository_data up cfg owner repo_name s))
             !! issues_ts = repo_state s !! issues_ts)
  /\ (repo_state s !! "prs_list_etag" = Some (Some e) ->
        backfill_prs up cfg owner repo_name s = (Ok tt, s)
        /\ repo_state (snd (backfill_repository_data up cfg owner repo_name s))
             !! prs_ts = repo_state s !! prs_ts).
Proof.
  intros He H304. split; [|split; [|split]].
  - intros method path params.
    destruct (H304 (build_request method path params (Some e)))
      as (h & b & Hr).
    + unfold build_request. cbn [rq_if_none_match otruthy]. now rewrite He.
    + exact (make_request_304 (list_api up) _ _ _ _ h b Hr).
  - intros path params max_pages. now apply list_paged_304.
  - intros Hs. split; [now apply issues_304 with e|].
    destruct (pass_stages up cfg owner repo_name s) as (s2 & F & [E | (x & E)]);
      rewrite E.
    + unfold bind.
      rewrite (issues_304 up cfg owner repo_name s2 e He H304)
        by (rewrite F by discriminate; exact Hs).
      rewrite (writes_only_prs up cfg owner repo_name s2)
        by (intros [H|[H|[]]]; discriminate).
      apply F; discriminate.
    + cbn [snd]. apply F; discriminate.
  - intros Hs. split; [now apply prs_304 with e|].
    destruct (pass_stages up cfg owner repo_name s) as (s2 & F & [E | (x & E)]);
      rewrite E.
    + unfold bind.
      pose proof (writes_only_issues up cfg owner repo_name s2) as Fi.
      destruct (backfill_issues up cfg owner repo_name s2) as [[[]|x] s3];
        cbn [snd] in *.
      * rewrite (prs_304 up cfg owner repo_name s3 e He H304).
        -- cbn [snd]. rewrite Fi by (intros [H|[H|[]]]; discriminate).
           apply F; discriminate.
        -- rewrite Fi by (intros [H|[H|[]]]; discriminate).
           rewrite F by discriminate. exact Hs.
      * rewrite Fi by (intros [H|[H|[]]]; discriminate).
        apply F; discriminate.
    + cbn [snd]. apply F; discriminate.
Qed.

Lemma not_modified_short_circuit_witness :
  let up := mkUpstream (fun _ => RequestError)
              (fun _ => Responded 304 (Some "abc"%string) (Ok [])) in
  let cfg := mkConfig 50 30 "2024-04-01T00:00:00Z" in
  let s := mkBState
             {[ "issues_list_etag"%string := Some "abc"%string;
                issues_ts := Some "2024-05-01T00:00:00Z"%string ]} [] in
  get_repo_list_paged (list_api up) "/repos/octo/repo/issues"
    (mkParams (Some "all"%string) (Some 50) None None)
    (Some "abc"%string) 10 = Ok ([], Some "abc"%string)
  /\ backfill_issues up cfg "octo" "repo" s = (Ok tt, s).
Proof.
  intros up cfg s.
  destruct (not_modified_short_circuit up cfg "octo"%string "repo"%string
              s "abc"%string) as (_ & H1 & H2 & _).
  - reflexivity.
  - intros rq _. exists (Some "abc"%string), (Ok []). reflexivity.
  - split.
    + apply H1.
    + apply H2. reflexivity.
Defined.



End BackfillClaims.

Section CursorClaims.
Import PyStr RidTypes GhApi Pages Backfill.
Local Open Scope list_scope.

Local Abbreviation issues_ts := "issues_last_processed_update_ts"%string.
Local Abbreviation prs_ts := "prs_last_processed_update_ts"%string.

(** The times the issues section compares, from state [s]. *)
Local Abbreviation issues_seen up cfg owner repo_name s :=
  (update_times (processed
     (slice_to (backfill_max_items cfg)
        (fetched_items (issues_fetched up cfg owner repo_name s))))).

Local Abbreviation prs_seen up cfg owner repo_name s :=
  (update_times (processed
     (slice_to (backfill_max_items cfg)
        (fetched_items (prs_fetched up cfg owner repo_name s))))).

Local Abbreviation newest us latest :=
  (fold_left (fun acc u => bump (Some u) acc) us latest).







End CursorClaims.

Section FailureClaims.
Import PyStr RidTypes GhApi Pages Backfill.
Local Open Scope list_scope.







End FailureClaims.

(** ** Identity of a push delivery *)

Section HexFacts.
Import Sha256.

Lemma be_bytes_range n x :
  Forall (fun b => 0 <= b < 256) (be_bytes n x).
Proof.
  induction n as [|n IH]; cbn [be_bytes]; constructor; [|exact IH].
  change 0xff with (Z.ones 8). rewrite Z.land_ones by lia.
  apply Z.mod_pos_bound. reflexivity.
Qed.

Lemma hex_digit_is_hex d : 0 <= d < 16 -> is_hex_digit (hex_digit d) = true.
Proof.
  intros H.
  assert (d = 0 \/ d = 1 \/ d = 2 \/ d = 3 \/ d = 4 \/ d = 5 \/ d = 6
          \/ d = 7 \/ d = 8 \/ d = 9 \/ d = 10 \/ d = 11 \/ d = 12
          \/ d = 13 \/ d = 14 \/ d = 15) as Hd by lia.
  repeat (destruct Hd as [-> | Hd]; [reflexivity|]). now subst.
Qed.

Lemma all_hex_app a b : all_hex (a ++ b) = all_hex a && all_hex b.
Proof.
  induction a as [|c a IH]; [reflexivity|].
  simpl. now rewrite IH, andb_assoc.
Qed.

Lemma hex_of_byte_all_hex b : 0 <= b < 256 -> all_hex (hex_of_byte b) = true.
Proof.
  intros H. unfold hex_of_byte. cbn [all_hex].
  rewrite !hex_digit_is_hex; [reflexivity | |].
  - change 0xf with (Z.ones 4). rewrite Z.land_ones by lia.
    apply Z.mod_pos_bound. reflexivity.
  - rewrite Z.shiftr_div_pow2 by lia. change (2 ^ 4) with 16.
    split; [apply Z.div_pos; lia | apply Z.div_lt_upper_bound; lia].
Qed.

Lemma hex_of_bytes_all_hex bs :
  Forall (fun b => 0 <= b < 256) bs -> all_hex (hex_of_bytes bs) = true.
Proof.
  induction 1 as [|b bs Hb _ IH]; [reflexivity|].
  cbn [hex_of_bytes fold_right]. rewrite all_hex_app.
  fold (hex_of_bytes bs). now rewrite hex_of_byte_all_hex, IH.
Qed.

Lemma hexdigest_all_hex data : all_hex (hexdigest data) = true.
Proof.
  unfold hexdigest. apply hex_of_bytes_all_hex.
  induction (digest_words data) as [|w ws IH]; [constructor|].
  cbn [List.map concat]. apply Forall_app. split; [|exact IH].
  apply be_bytes_range.
Qed.

Lemma take_all_hex n : forall s,
  all_hex s = true -> all_hex (PyStr.take n s) = true.
Proof.
  induction n as [|n IH]; intros [|c s]; cbn [PyStr.take all_hex];
    try reflexivity.
  intros H. apply andb_true_iff in H as [Hc Hs].
  now rewrite Hc, IH.
Qed.


End HexFacts.

Section WebhookClaims.
Import PyStr RidTypes Webhook.





End WebhookClaims.

(** * Further properties *)

(** ** Splitting at every separator *)

Section SplitFacts.
Import PyStr.

Lemma split_absent sep s : contains sep s = false -> split sep s = [s].
Proof.
  induction s as [|a r IH]; simpl; [reflexivity|].
  destruct (Ascii.eqb a sep); [discriminate|].
  intros H. now rewrite IH.
Qed.

Lemma split_app sep a b :
  contains sep a = false ->
  split sep (a ++ String sep b) = a :: split sep b.
Proof.
  induction a as [|x r IH]; simpl.
  - now rewrite Ascii.eqb_refl.
  - destruct (Ascii.eqb x sep); [discriminate|].
    intros H. now rewrite IH.
Qed.

(** A split in two is a cut at the only separator. *)
Lemma split_two sep s a b :
  split sep s = [a; b] <->
  s = a ++ String sep b /\ contains sep a = false /\ contains sep b = false.
Proof.
  split.
  - intros H. destruct (first_occurrence sep s) as [Hn | (x & y & -> & Hx)].
    + rewrite (split_absent _ _ Hn) in H. discriminate.
    + rewrite (split_app _ _ _ Hx) in H. injection H as -> Hy.
      assert (count sep y = 0%nat) as Hc.
      { pose proof (length_split sep y) as Hl. rewrite Hy in Hl.
        cbn in Hl. lia. }
      apply contains_false_count in Hc.
      rewrite (split_absent _ _ Hc) in Hy. injection Hy as ->. tauto.
  - intros (-> & Ha & Hb). rewrite (split_app _ _ _ Ha).
    now rewrite (split_absent _ _ Hb).
Qed.

Lemma string_app_assoc (a b c : string) : (a ++ b) ++ c = a ++ b ++ c.
Proof.
  induction a as [|x r IH]; [reflexivity|].
  change (String x ((r ++ b) ++ c) = String x (r ++ b ++ c)).
  now rewrite IH.
Qed.

Lemma count_app c a b : count c (a ++ b) = (count c a + count c b)%nat.
Proof.
  induction a as [|x r IH]; simpl; [reflexivity|].
  destruct (Ascii.eqb x c); simpl; now rewrite IH.
Qed.

Lemma split_two_count sep s :
  (exists a b, split sep s = [a; b]) <-> count sep s = 1%nat.
Proof.
  pose proof (length_split sep s) as Hl. split.
  - intros (a & b & H). rewrite H in Hl. cbn in Hl. lia.
  - intros H. rewrite H in Hl.
    destruct (split sep s) as [|a [|b [|c l]]]; cbn in Hl; try lia.
    now exists a, b.
Qed.

End SplitFacts.

(** ** The repository and commit RIDs *)

Section RepoCommitFacts.
Import PyStr.

(** X1: [GitHubRepo.from_reference] accepts exactly the strings with exactly
    one ['/'] (either side may be empty) and is then the inverse of
    [reference]: it returns [r] exactly when the string is [r]'s reference
    and neither field of [r] holds a ['/']. *)
Theorem repo_from_reference_spec (s : string) :
  (is_ok (GitHubRepo.from_reference s) = true <-> count "/" s = 1%nat)
  /\ forall r,
       GitHubRepo.from_reference s = Ok r <->
       s = GitHubRepo.reference r
       /\ contains "/" (GitHubRepo.owner r) = false
       /\ contains "/" (GitHubRepo.repo_name r) = false.
Proof.
  assert (forall r,
            GitHubRepo.from_reference s = Ok r <->
            split "/" s = [GitHubRepo.owner r; GitHubRepo.repo_name r]) as Hs.
  { intros [o n]. unfold GitHubRepo.from_reference. cbn.
    destruct (split "/" s) as [|a [|b [|c l]]]; split; congruence. }
  split.
  - rewrite <- split_two_count. split.
    + destruct (GitHubRepo.from_reference s) as [r|] eqn:E; [|discriminate].
      intros _. pose proof (proj1 (Hs r) eq_refl). eauto.
    + intros (a & b & H).
      now rewrite (proj2 (Hs (GitHubRepo.mk a b)) H).
  - intros r. rewrite Hs. apply split_two.
Qed.

(** X2: [GitHubCommit.from_reference] accepts exactly the strings with
    exactly one [':'] whose part before it holds exactly one ['/'], and
    returns [c] exactly when the string is [c]'s reference, owner and
    repository name hold neither ['/'] nor [':'], and the SHA holds no
    [':'] (it may be empty). *)
Theorem commit_from_reference_spec (s : string) (c : GitHubCommit.t) :
  GitHubCommit.from_reference s = Ok c <->
  s = GitHubCommit.reference c
  /\ contains "/" (GitHubCommit.owner c) = false
  /\ contains ":" (GitHubCommit.owner c) = false
  /\ contains "/" (GitHubCommit.repo_name c) = false
  /\ contains ":" (GitHubCommit.repo_name c) = false
  /\ contains ":" (GitHubCommit.commit_sha c) = false.
Proof.
  destruct c as [o n sha]. unfold GitHubCommit.reference.
  cbn [GitHubCommit.owner GitHubCommit.repo_name GitHubCommit.commit_sha].
  change (o ++ "/" ++ n ++ ":" ++ sha)
    with (o ++ String "/" (n ++ String ":" sha)).
  assert ((o ++ String "/" n) ++ String ":" sha
          = o ++ String "/" (n ++ String ":" sha)) as Hassoc
    by apply string_app_assoc.
  assert (contains ":" (o ++ String "/" n)
          = contains ":" o || contains ":" n) as Hcolon
    by (rewrite contains_app; reflexivity).
  split.
  - unfold GitHubCommit.from_reference. cbv zeta.
    destruct (split ":" s) as [|p0 [|p1 [|x l]]] eqn:E1; try discriminate.
    destruct (split "/" p0) as [|a [|b [|y l]]] eqn:E2; try discriminate.
    intros [= -> -> ->].
    apply split_two in E1 as (-> & H0 & H1).
    apply split_two in E2 as (-> & Ha & Hb).
    rewrite Hcolon in H0. apply orb_false_iff in H0 as [Ho Hn].
    rewrite Hassoc. tauto.
  - intros (-> & Ho1 & Ho2 & Hn1 & Hn2 & Hs).
    unfold GitHubCommit.from_reference. cbv zeta.
    assert (split ":" (o ++ String "/" (n ++ String ":" sha))
            = [o ++ String "/" n; sha]) as ->.
    { apply split_two. split; [|split; [|exact Hs]].
      - now rewrite Hassoc.
      - now rewrite Hcolon, Ho2, Hn2. }
    assert (split "/" (o ++ String "/" n) = [o; n]) as ->
      by (apply split_two; tauto).
    reflexivity.
Qed.

End RepoCommitFacts.

(** ** More on the event identity and the classifier *)

Section EventParseFacts.
Import PyStr RidTypes.

(** X3: whatever [GitHubEvent.from_reference] accepts serialises back to
    the very string parsed, is an identity the constructor accepts, has a
    non-empty event id, and parses again to itself. *)
Theorem event_parse_then_serialise (s : string) (e : GitHubEvent) :
  from_reference s = Ok e ->
  reference e = s
  /\ event_id e <> ""
  /\ init (repo_full_name e) (event_id e) = Ok e
  /\ from_reference (reference e) = Ok e.
Proof.
  intros H. pose proof (proj1 (from_reference_ok_iff s e) H)
    as (Hs & Hc & Hn & He).
  split; [now rewrite Hs|]. split; [exact He|]. split.
  - rewrite (init_ok _ _ Hn). now destruct e.
  - unfold reference. now rewrite <- Hs.
Qed.

Lemma event_parse_then_serialise_witness :
  reference (mkGitHubEvent "octo/repo" "a:b") = "octo/repo:a:b".
Proof.
  apply (event_parse_then_serialise "octo/repo:a:b"
           (mkGitHubEvent "octo/repo" "a:b")).
  reflexivity.
Defined.

End EventParseFacts.

Section ClassifierFacts.
Import RidTypes Handlers.

(** X4: the manifest handler stops the chain exactly when the RID is a
    [GitHubEvent], the cache read succeeds with a bundle, both manifests
    are present and their content hashes are equal; in no other case is an
    event suppressed. *)
Theorem stop_chain_iff (cache : Cache) (kobj : KnowledgeObject) :
  github_event_manifest_handler cache kobj = STOP_CHAIN <->
  exists e pb m pm,
    rid kobj = RidGitHubEvent e
    /\ cache (rid kobj) = Ok (Some pb)
    /\ manifest kobj = Some m
    /\ b_manifest pb = Some pm
    /\ sha256_hash m = sha256_hash pm.
Proof.
  unfold github_event_manifest_handler, read_prev. split.
  - destruct (rid kobj) as [e|t] eqn:Er; [|discriminate].
    destruct (cache (RidGitHubEvent e)) as [[pb|]|x] eqn:Ec; try discriminate.
    destruct (manifest kobj) as [m|] eqn:Em; cbn [same_hash];
      [|discriminate].
    destruct (b_manifest pb) as [pm|] eqn:Ep; [|discriminate].
    destruct (String.eqb_spec (sha256_hash m) (sha256_hash pm)) as [Eh|];
      [|discriminate].
    intros _. exists e, pb, m, pm. auto.
  - intros (e & pb & m & pm & Er & Ec & Em & Ep & Eh).
    rewrite Er in *. rewrite Ec, Em, Ep. cbn [same_hash].
    now rewrite Eh, String.eqb_refl.
Qed.

(** X5: when the handler lets the object continue, its RID, manifest and
    incoming event type are untouched; an object whose RID is not a
    [GitHubEvent] passes through unchanged whatever the cache does; a
    [GitHubEvent] is labelled NEW exactly when no prior bundle could be
    read (absent, or the read raised) and UPDATE otherwise, also when one
    of the two manifests is missing. *)
Theorem continue_outcome (cache : Cache) (kobj k : KnowledgeObject) :
  github_event_manifest_handler cache kobj = Continue k ->
  rid k = rid kobj
  /\ manifest k = manifest kobj
  /\ event_type k = event_type kobj
  /\ match rid kobj with
     | RidOther _ => k = kobj
     | RidGitHubEvent _ =>
         match cache (rid kobj) with
         | Ok (Some _) => normalized_event_type k = Some UPDATE
         | Ok None | Raise _ => normalized_event_type k = Some NEW
         end
     end.
Proof.
  unfold github_event_manifest_handler, read_prev.
  destruct (rid kobj) as [e|t] eqn:Er.
  - destruct (cache (RidGitHubEvent e)) as [[pb|]|x].
    + destruct (same_hash (manifest kobj) (b_manifest pb)); [discriminate|].
      intros [= <-]. cbn. now rewrite Er.
    + intros [= <-]. cbn. now rewrite Er.
    + intros [= <-]. cbn. now rewrite Er.
  - intros [= <-]. now rewrite Er.
Qed.

Lemma continue_outcome_witness :
  let k := mkKObj (RidGitHubEvent (mkGitHubEvent "octo/repo" "issue_I1"))
             None (Some NEW) None in
  normalized_event_type (set_normalized UPDATE k) = Some UPDATE.
Proof.
  intros k.
  destruct (continue_outcome
              (fun _ => Ok (Some (mkBundle (Some (mkManifest "h" 1)) "{}")))
              k (set_normalized UPDATE k) eq_refl) as (_ & _ & _ & H).
  exact H.
Defined.

End ClassifierFacts.

(** ** More on the conditional API client *)

Section ClientExtras.
Import PyStr GhApi Pages Backfill.
Local Open Scope list_scope.

(** X6: every request of a paged fetch is a GET of the same path with the
    caller's parameters and the page number, pages being asked for in
    order from 1; only the first request is conditional: it carries
    [If-None-Match] when a non-empty ETag was given, and no later request
    carries it. *)
Theorem only_first_request_conditional T path params etag max_pages
    (i : nat) (rq : Request) :
  requests (run_paged T path params etag max_pages) !! i = Some rq ->
  rq_method rq = "GET"%string
  /\ rq_path rq = path
  /\ rq_params rq = Some (set_page (Z.of_nat (S i)) params)
  /\ rq_if_none_match rq
     = match i with
       | O => if otruthy etag then etag else None
       | S _ => None
       end.
Proof.
  intros H.
  pose proof (run_paged_pages T path params etag max_pages) as P.
  cbv zeta in P. destruct P as (_ & Hr & _).
  rewrite Hr in H. rewrite list_lookup_fmap in H.
  destruct (seq 1 (List.length (requests
              (run_paged T path params etag max_pages))) !! i)
    as [j|] eqn:Ej; [|discriminate].
  apply lookup_seq in Ej as [-> _]. cbn [fmap option_fmap option_map] in H.
  injection H as <-. unfold page_request, build_request, page_etag.
  cbn [rq_method rq_path rq_params rq_if_none_match].
  replace (1 + i)%nat with (S i) by lia.
  repeat split. destruct i as [|i]; [reflexivity|].
  replace (Z.of_nat (S (S i)) =? 1) with false
    by (symmetry; apply Z.eqb_neq; lia).
  reflexivity.
Qed.

Lemma only_first_request_conditional_witness :
  let T := serve (Some "W/1"%string)
             [item "I_1" "t1"; item "I_2" "t2"; item "I_3" "t3"] in
  let params := mkParams (Some "all"%string) (Some 2) None None in
  rq_if_none_match
    (build_request "GET" "/repos/o/r/issues"
       (Some (set_page 2 params)) None) = None.
Proof.
  intros T params.
  destruct (only_first_request_conditional T "/repos/o/r/issues"%string
              params (Some "abc"%string) 10 1%nat
              (build_request "GET" "/repos/o/r/issues"
                 (Some (set_page 2 params)) None))
    as (_ & _ & _ & H); [vm_compute; reflexivity | exact H].
Defined.

Lemma length_concat_le {A} (ls : list (list A)) (b : nat) :
  Forall (fun l => (List.length l <= b)%nat) ls ->
  (List.length (concat ls) <= List.length ls * b)%nat.
Proof.
  induction 1 as [|l ls Hl _ IH]; [reflexivity|].
  cbn [concat List.length]. rewrite length_app. cbn. lia.
Qed.

(** X7: a paged fetch sends at most [max_pages] requests (none when
    [max_pages] is not positive), and when the upstream never serves more
    items on a page than the page size asked for, it gathers, and so
    returns, at most [max_pages] times the page size items. *)
Theorem paged_fetch_bounds T path params etag max_pages :
  (Z.of_nat (List.length (requests (run_paged T path params etag max_pages)))
   <= Z.max 0 max_pages)
  /\ ((forall i, Z.of_nat (List.length (page_items T path params etag i))
                 <= per_page_of params) ->
      Z.of_nat (List.length
                  (all_items (run_paged T path params etag max_pages)))
      <= Z.max 0 max_pages * per_page_of params
      /\ Z.of_nat (List.length
                     (fetched_items
                        (get_repo_list_paged T path params etag max_pages)))
         <= Z.max 0 max_pages * per_page_of params).
Proof.
  pose proof (run_paged_pages T path params etag max_pages) as P.
  cbv zeta in P. destruct P as (Hn & _ & Ha & _).
  rewrite list_paged_result.
  set (st := run_paged T path params etag max_pages) in *.
  split; [lia|]. intros Hsize.
  pose proof (Hsize 0%nat) as H0.
  assert (Forall (fun l => (List.length l <= Z.to_nat (per_page_of params))%nat)
            (List.map (page_items T path params etag)
               (seq 1 (List.length (requests st))))) as Hall.
  { apply List.Forall_forall. intros l Hin. apply in_map_iff in Hin as (j & <- & _).
    specialize (Hsize j). lia. }
  apply length_concat_le in Hall. rewrite length_map, length_seq in Hall.
  rewrite <- Ha in Hall.
  assert (Z.of_nat (List.length (all_items st))
          <= Z.max 0 max_pages * per_page_of params) as Hbound by nia.
  split; [exact Hbound|].
  destruct (raised st); cbn [fetched_items List.length]; [nia | exact Hbound].
Qed.

Lemma paged_fetch_bounds_witness :
  let items := List.map (fun i => item "I" (String (ascii_of_nat i) ""))
                 (seq 0 125) in
  Z.of_nat
    (List.length
       (fetched_items
          (get_repo_list_paged (serve (Some "W/2"%string) items)
             "/repos/o/r/issues"
             (mkParams (Some "all"%string) (Some 50) None None) None 2)))
  <= 100.
Proof.
  intros items.
  apply (proj2 (paged_fetch_bounds (serve (Some "W/2"%string) items)
                  "/repos/o/r/issues"%string
                  (mkParams (Some "all"%string) (Some 50) None None) None 2)).
  intros i. rewrite serve_page_items, length_take. cbn. lia.
Defined.

(** X8: the ETag a paged fetch hands back is decided by its first request
    alone: when that request is answered (by any status but 304), it is
    the answer's [ETag] header if that is non-empty, and the ETag passed in
    otherwise, whatever the later pages do; this holds for an error
    status as for a success. *)
Theorem returned_etag_from_first_response T path params etag max_pages
    status h body :
  0 < max_pages ->
  T (page_request path params etag 1) = Responded status h body ->
  status <> 304 ->
  etag_to_return (run_paged T path params etag max_pages)
  = (if otruthy h then h else etag)
  /\ forall items e',
       get_repo_list_paged T path params etag max_pages = Ok (items, e') ->
       e' = if otruthy h then h else etag.
Proof.
  intros Hmax Hresp H304.
  pose proof (run_paged_pages T path params etag max_pages) as P.
  cbv zeta in P. destruct P as (Hn & _ & _ & _ & Hs & He & _).
  assert (etag_to_return (run_paged T path params etag max_pages)
          = (if otruthy h then h else etag)) as Hetag.
  { rewrite He.
    assert (1 <= List.length
                   (requests (run_paged T path params etag max_pages)))%nat
      as Hpos.
    { destruct (Nat.lt_ge_cases
                  (List.length
                     (requests (run_paged T path params etag max_pages)))
                  (Z.to_nat max_pages)) as [Hlt|Hge];
        [apply Hs, Hlt | lia]. }
    replace (0 <? Z.of_nat _) with true by (symmetry; apply Z.ltb_lt; lia).
    unfold first_page_etag, page_result, _make_github_request.
    fold (page_etag etag 1).
    change (build_request "GET" path (Some (set_page (Z.of_nat 1) params))
              (page_etag etag 1)) with (page_request path params etag 1).
    rewrite Hresp. destruct (Z.eqb_spec status 304); [contradiction|].
    now destruct (is_success status). }
  split; [exact Hetag|].
  intros items e'. rewrite list_paged_result.
  destruct (raised _); [discriminate|]. intros [= _ <-]. exact Hetag.
Qed.

Lemma returned_etag_from_first_response_witness :
  let T := serve_failing (Some "W/1"%string)
             [item "I_1" "t1"; item "I_2" "t2"] 2 RequestError in
  let params := mkParams (Some "all"%string) (Some 1) None None in
  get_repo_list_paged T "/repos/o/r/pulls" params (Some "old"%string) 10
  = Ok ([item "I_1" "t1"], Some "W/1"%string).
Proof.
  intros T params.
  destruct (get_repo_list_paged T "/repos/o/r/pulls" params
              (Some "old"%string) 10) as [[items e']|x] eqn:E;
    [|vm_compute in E; discriminate].
  destruct (returned_etag_from_first_response T "/repos/o/r/pulls"%string
              params (Some "old"%string) 10 200 (Some "W/1"%string)
              (Ok [item "I_1" "t1"])) as [_ H];
    [lia | vm_compute; reflexivity | discriminate |].
  rewrite (H items e' E).
  vm_compute in E. injection E as <- _. reflexivity.
Defined.

End ClientExtras.

(** ** The events of a backfill pass *)

Section PassEvents.
Import PyStr RidTypes GhApi Pages Backfill Sweep.
Local Open Scope list_scope.

Lemma cursor_loop_handled rfn prefix source_type :
  count "/" rfn = 1%nat ->
  forall items latest s,
    handled (snd (cursor_loop rfn prefix source_type items latest s))
    = handled s ++ omap (item_event rfn prefix source_type "node_id") items.
Proof.
  intros Hr. induction items as [|it items IH]; intros latest s.
  - cbn. now rewrite app_nil_r.
  - cbn [cursor_loop omap list_omap]. unfold item_event at 1.
    destruct (get it "node_id") as [nid|]; [|apply IH].
    destruct (truthy nid); [|apply IH].
    unfold bind at 1. unfold lift. rewrite (init_ok _ _ Hr).
    unfold bind at 1. unfold handle at 1. rewrite IH.
    cbn [handled]. now rewrite <- app_assoc.
Qed.

Lemma commits_loop_handled rfn :
  count "/" rfn = 1%nat ->
  forall items s,
    handled (snd (commits_loop rfn items s))
    = handled s ++ omap (item_event rfn "commit_" "backfill_commit" "sha") items.
Proof.
  intros Hr. induction items as [|it items IH]; intros s.
  - cbn. now rewrite app_nil_r.
  - cbn [commits_loop omap list_omap]. unfold item_event at 1.
    destruct (get it "sha") as [sha|]; [|apply IH].
    destruct (truthy sha); [|apply IH].
    unfold bind at 1. unfold lift. rewrite (init_ok _ _ Hr).
    unfold bind at 1. unfold handle at 1. rewrite IH.
    cbn [handled]. now rewrite <- app_assoc.
Qed.

Lemma state_set_if_truthy_handled key v s :
  handled (snd (state_set_if_truthy key v s)) = handled s.
Proof. unfold state_set_if_truthy. now destruct (otruthy v). Qed.

Lemma advance_cursor_handled key rfn prefix source_type max_items fetched s :
  count "/" rfn = 1%nat ->
  handled (snd (advance_cursor key rfn prefix source_type max_items fetched s))
  = handled s
    ++ omap (item_event rfn prefix source_type "node_id")
         (slice_to max_items fetched).
Proof.
  intros Hr. unfold advance_cursor. unfold bind at 1. rewrite state_get_run.
  destruct fetched as [|x fetched'].
  - rewrite slice_to_nil. cbn. now rewrite app_nil_r.
  - set (items := slice_to max_items (x :: fetched')).
    pose proof (cursor_loop_handled rfn prefix source_type Hr items
                  (cursor key s) s) as Hh.
    destruct (cursor_loop_ok rfn prefix source_type Hr items (cursor key s) s)
      as (hs & Hl).
    unfold bind. rewrite Hl in *. cbn [snd handled] in Hh.
    rewrite state_set_if_truthy_handled. exact Hh.
Qed.

Lemma details_handled up owner repo_name s :
  count "/" (owner ++ "/" ++ repo_name)%string = 1%nat ->
  handled (snd (backfill_details up owner repo_name s))
  = handled s ++ details_events up owner repo_name s.
Proof.
  intros Hr. unfold backfill_details, details_events, details_fetched.
  cbv zeta. unfold bind at 1. rewrite state_get_run.
  destruct (get_repo_details _ _ _ _) as [d ne]. cbn [fst].
  destruct (state_set_if_truthy_run "repo_details_etag" ne s)
    as (s1 & H1 & Hh & _).
  unfold bind at 1. rewrite H1.
  destruct d as [d|]; [|cbn; now rewrite app_nil_r].
  destruct (decide (d = ∅)); [cbn; now rewrite app_nil_r|].
  unfold bind, lift. rewrite (init_ok _ _ Hr). unfold handle.
  cbn [snd handled]. now rewrite Hh.
Qed.

Lemma commits_handled up cfg owner repo_name s :
  count "/" (owner ++ "/" ++ repo_name)%string = 1%nat ->
  handled (snd (backfill_commits up cfg owner repo_name s))
  = handled s ++ commit_events up cfg owner repo_name s.
Proof.
  intros Hr. unfold backfill_commits, commit_events. cbv zeta.
  unfold bind at 1. rewrite state_get_run.
  change (get_repo_commits (list_api up) owner repo_name None
            (backfill_max_items cfg) (cursor "commits_list_etag" s))
    with (commits_fetched up cfg owner repo_name s).
  destruct (commits_fetched up cfg owner repo_name s) as [[fetched ne]|x];
    cbn [fetched_items].
  - unfold bind at 1. unfold lift at 1.
    destruct (state_set_if_truthy_run "commits_list_etag" ne s)
      as (s1 & H1 & Hh & _).
    unfold bind at 1. rewrite H1.
    destruct fetched as [|x f].
    + rewrite slice_to_nil. cbn. now rewrite Hh, app_nil_r.
    + rewrite (commits_loop_handled _ Hr). now rewrite Hh.
  - rewrite slice_to_nil. cbn. now rewrite app_nil_r.
Qed.

Lemma issues_handled up cfg owner repo_name s :
  count "/" (owner ++ "/" ++ repo_name)%string = 1%nat ->
  handled (snd (backfill_issues up cfg owner repo_name s))
  = handled s ++ issue_events up cfg owner repo_name s.
Proof.
  intros Hr. unfold backfill_issues, issue_events. cbv zeta.
  unfold bind at 1. rewrite state_get_run.
  unfold bind at 1. rewrite state_get_run.
  change (get_repo_issues (list_api up) owner repo_name "all"
            (seed_since cfg (cursor "issues_last_processed_update_ts" s))
            (backfill_max_items cfg) (cursor "issues_list_etag" s))
    with (issues_fetched up cfg owner repo_name s).
  destruct (issues_fetched up cfg owner repo_name s) as [[fetched ne]|x];
    cbn [fetched_items].
  - unfold bind at 1. unfold lift at 1.
    destruct (state_set_if_truthy_run "issues_list_etag" ne s)
      as (s1 & H1 & Hh & _).
    unfold bind. rewrite H1.
    rewrite (advance_cursor_handled _ _ _ _ _ _ _ Hr). now rewrite Hh.
  - rewrite slice_to_nil. cbn. now rewrite app_nil_r.
Qed.

Lemma prs_handled up cfg owner repo_name s :
  count "/" (owner ++ "/" ++ repo_name)%string = 1%nat ->
  handled (snd (backfill_prs up cfg owner repo_name s))
  = handled s ++ pr_events up cfg owner repo_name s.
Proof.
  intros Hr. unfold backfill_prs, pr_events. cbv zeta.
  unfold bind at 1. rewrite state_get_run.
  change (get_repo_pull_requests (list_api up) owner repo_name "all"
            (backfill_max_items cfg) (cursor "prs_list_etag" s))
    with (prs_fetched up cfg owner repo_name s).
  destruct (prs_fetched up cfg owner repo_name s) as [[fetched ne]|x];
    cbn [fetched_items].
  - unfold bind at 1. unfold lift at 1.
    destruct (state_set_if_truthy_run "prs_list_etag" ne s)
      as (s1 & H1 & Hh & _).
    unfold bind. rewrite H1.
    rewrite (advance_cursor_handled _ _ _ _ _ _ _ Hr). now rewrite Hh.
  - rewrite slice_to_nil. cbn. now rewrite app_nil_r.
Qed.

(** The events of a section depend on the state through the section's own
    keys only. *)
Lemma commit_events_agree up cfg owner repo_name s s1 :
  repo_state s1 !! "commits_list_etag" = repo_state s !! "commits_list_etag" ->
  commit_events up cfg owner repo_name s1
  = commit_events up cfg owner repo_name s.
Proof.
  intros H. unfold commit_events.
  now rewrite (commits_fetched_agree _ _ _ _ _ _ H).
Qed.

Lemma issue_events_agree up cfg owner repo_name s s1 :
  repo_state s1 !! "issues_list_etag" = repo_state s !! "issues_list_etag" ->
  repo_state s1 !! "issues_last_processed_update_ts"
    = repo_state s !! "issues_last_processed_update_ts" ->
  issue_events up cfg owner repo_name s1
  = issue_events up cfg owner repo_name s.
Proof.
  intros H1 H2. unfold issue_events.
  now rewrite (issues_fetched_agree _ _ _ _ _ _ H1 H2).
Qed.

Lemma pr_events_agree up cfg owner repo_name s s1 :
  repo_state s1 !! "prs_list_etag" = repo_state s !! "prs_list_etag" ->
  pr_events up cfg owner repo_name s1 = pr_events up cfg owner repo_name s.
Proof.
  intros H. unfold pr_events. now rewrite (prs_fetched_agree _ _ _ _ _ _ H).
Qed.

(** A section leaves the state as it found it exactly when it raises:
    it raises only through its fetch, before any write. *)
Lemma commits_cases up cfg owner repo_name s :
  count "/" (owner ++ "/" ++ repo_name)%string = 1%nat ->
  (is_ok (commits_fetched up cfg owner repo_name s) = true
   /\ exists s', backfill_commits up cfg owner repo_name s = (Ok tt, s'))
  \/ (is_ok (commits_fetched up cfg owner repo_name s) = false
      /\ exists x, backfill_commits up cfg owner repo_name s = (Raise x, s)).
Proof.
  intros Hr.
  destruct (commits_fetched up cfg owner repo_name s) as [cf|x] eqn:E.
  - left. split; [reflexivity|]. apply commits_ok; [exact Hr|].
    now rewrite E.
  - right. split; [reflexivity|]. exists x. now apply commits_raise.
Qed.

Lemma issues_cases up cfg owner repo_name s :
  count "/" (owner ++ "/" ++ repo_name)%string = 1%nat ->
  (is_ok (issues_fetched up cfg owner repo_name s) = true
   /\ exists s', backfill_issues up cfg owner repo_name s = (Ok tt, s'))
  \/ (is_ok (issues_fetched up cfg owner repo_name s) = false
      /\ exists x, backfill_issues up cfg owner repo_name s = (Raise x, s)).
Proof.
  intros Hr.
  destruct (issues_fetched up cfg owner repo_name s) as [[f ne]|x] eqn:E.
  - left. split; [reflexivity|].
    destruct (issues_run up cfg owner repo_name s f ne Hr E) as (s' & H & _).
    now exists s'.
  - right. split; [reflexivity|]. exists x. now apply issues_raise.
Qed.

Lemma prs_cases up cfg owner repo_name s :
  count "/" (owner ++ "/" ++ repo_name)%string = 1%nat ->
  (is_ok (prs_fetched up cfg owner repo_name s) = true
   /\ exists s', backfill_prs up cfg owner repo_name s = (Ok tt, s'))
  \/ (is_ok (prs_fetched up cfg owner repo_name s) = false
      /\ exists x, backfill_prs up cfg owner repo_name s = (Raise x, s)).
Proof.
  intros Hr.
  destruct (prs_fetched up cfg owner repo_name s) as [[f ne]|x] eqn:E.
  - left. split; [reflexivity|].
    destruct (prs_run up cfg owner repo_name s f ne Hr E) as (s' & H & _).
    now exists s'.
  - right. split; [reflexivity|]. exists x. now apply prs_raise.
Qed.

(** The full pass and its events, for a well-formed repository name: the
    calls made are an initial part of [pass_events], all of it when the
    three list fetches return. *)
Lemma pass_handled up cfg owner repo_name s :
  count "/" (owner ++ "/" ++ repo_name)%string = 1%nat ->
  exists r s' made rest,
    backfill_repository_data up cfg owner repo_name s = (r, s')
    /\ handled s' = handled s ++ made
    /\ pass_events up cfg owner repo_name s = made ++ rest
    /\ (is_ok (commits_fetched up cfg owner repo_name s) = true ->
        is_ok (issues_fetched up cfg owner repo_name s) = true ->
        is_ok (prs_fetched up cfg owner repo_name s) = true ->
        r = Ok tt /\ rest = []).
Proof.
  intros Hr.
  destruct (details_ok up owner repo_name s Hr) as (s1 & E1).
  pose proof (writes_only_details up owner repo_name s) as F1.
  pose proof (details_handled up owner repo_name s Hr) as D1.
  rewrite E1 in F1, D1. cbn [snd] in F1, D1.
  assert (forall k, k <> "repo_details_etag"%string ->
                    repo_state s1 !! k = repo_state s !! k) as G1
    by (intros k K; apply F1; intros [<-|[]]; congruence).
  pose proof (commits_fetched_agree up cfg owner repo_name s s1
                (G1 "commits_list_etag"%string ltac:(discriminate))) as A1.
  pose proof (commit_events_agree up cfg owner repo_name s s1
                (G1 "commits_list_etag"%string ltac:(discriminate))) as B1.
  pose proof (commits_handled up cfg owner repo_name s1 Hr) as D2.
  destruct (commits_cases up cfg owner repo_name s1 Hr)
    as [[Oc (s2 & E2)] | (Oc & x & E2)].
  2:{ exists (Raise x), s1, (details_events up owner repo_name s),
        (commit_events up cfg owner repo_name s
         ++ issue_events up cfg owner repo_name s
         ++ pr_events up cfg owner repo_name s).
      split; [unfold backfill_repository_data, bind; now rewrite E1, E2|].
      split; [exact D1|]. split; [reflexivity|].
      intros Hc _ _. rewrite <- A1 in Hc. congruence. }
  pose proof (writes_only_commits up cfg owner repo_name s1) as F2.
  rewrite E2 in F2, D2. cbn [snd] in F2, D2.
  assert (forall k, k <> "repo_details_etag"%string ->
                    k <> "commits_list_etag"%string ->
                    repo_state s2 !! k = repo_state s !! k) as G2.
  { intros k K1 K2. rewrite F2 by (intros [<-|[]]; congruence). now apply G1. }
  pose proof (issues_fetched_agree up cfg owner repo_name s s2
                (G2 "issues_list_etag"%string ltac:(discriminate)
                   ltac:(discriminate))
                (G2 "issues_last_processed_update_ts"%string
                   ltac:(discriminate) ltac:(discriminate))) as A2.
  pose proof (issue_events_agree up cfg owner repo_name s s2
                (G2 "issues_list_etag"%string ltac:(discriminate)
                   ltac:(discriminate))
                (G2 "issues_last_processed_update_ts"%string
                   ltac:(discriminate) ltac:(discriminate))) as B2.
  pose proof (issues_handled up cfg owner repo_name s2 Hr) as D3.
  destruct (issues_cases up cfg owner repo_name s2 Hr)
    as [[Oi (s3 & E3)] | (Oi & x & E3)].
  2:{ exists (Raise x), s2,
        (details_events up owner repo_name s
         ++ commit_events up cfg owner repo_name s),
        (issue_events up cfg owner repo_name s
         ++ pr_events up cfg owner repo_name s).
      split; [unfold backfill_repository_data, bind; now rewrite E1, E2, E3|].
      split; [now rewrite D2, D1, B1, app_assoc|].
      split; [unfold pass_events; now rewrite !app_assoc|].
      intros _ Hi _. rewrite <- A2 in Hi. congruence. }
  pose proof (writes_only_issues up cfg owner repo_name s2) as F3.
  rewrite E3 in F3, D3. cbn [snd] in F3, D3.
  assert (repo_state s3 !! "prs_list_etag" = repo_state s !! "prs_list_etag")
    as G3.
  { rewrite F3 by (intros [H|[H|[]]]; discriminate).
    apply G2; discriminate. }
  pose proof (prs_fetched_agree up cfg owner repo_name s s3 G3) as A3.
  pose proof (pr_events_agree up cfg owner repo_name s s3 G3) as B3.
  pose proof (prs_handled up cfg owner repo_name s3 Hr) as D4.
  destruct (prs_cases up cfg owner repo_name s3 Hr)
    as [[Op (s4 & E4)] | (Op & x & E4)].
  2:{ exists (Raise x), s3,
        (details_events up owner repo_name s
         ++ commit_events up cfg owner repo_name s
         ++ issue_events up cfg owner repo_name s),
        (pr_events up cfg owner repo_name s).
      split; [unfold backfill_repository_data, bind;
              now rewrite E1, E2, E3, E4|].
      split; [now rewrite D3, D2, D1, B1, B2, <- !app_assoc|].
      split; [unfold pass_events; now rewrite <- !app_assoc|].
      intros _ _ Hp. rewrite <- A3 in Hp. congruence. }
  rewrite E4 in D4. cbn [snd] in D4.
  exists (Ok tt), s4, (pass_events up cfg owner repo_name s), [].
  split; [unfold backfill_repository_data, bind; now rewrite E1, E2, E3, E4|].
  split; [|split; [now rewrite app_nil_r | auto]].
  rewrite D4, D3, D2, D1, B1, B2, B3. unfold pass_events.
  now rewrite <- !app_assoc.
Qed.



Lemma in_omap {A B} (f : A -> option B) (l : list A) (y : B) :
  In y (omap f l) -> exists x, In x l /\ f x = Some y.
Proof.
  induction l as [|a l IH]; cbn [omap list_omap]; [intros []|].
  destruct (f a) as [b|] eqn:E.
  - intros [<- | H]; [exists a; split; [now left | exact E]|].
    destruct (IH H) as (x & Hx & Hf). exists x. split; [now right | exact Hf].
  - intros H. destruct (IH H) as (x & Hx & Hf).
    exists x. split; [now right | exact Hf].
Qed.

Lemma length_omap_le {A B} (f : A -> option B) (l : list A) :
  (List.length (omap f l) <= List.length l)%nat.
Proof.
  induction l as [|a l IH]; cbn [omap list_omap]; [reflexivity|].
  destruct (f a); cbn [List.length]; lia.
Qed.

Lemma length_slice_to {A} (n : Z) (l : list A) :
  0 <= n -> Z.of_nat (List.length (slice_to n l)) <= n.
Proof.
  intros Hn. unfold slice_to.
  replace (0 <=? n) with true by (symmetry; apply Z.leb_le; exact Hn).
  rewrite length_take. lia.
Qed.

Lemma item_event_shape rfn prefix source_type key items h :
  In h (omap (item_event rfn prefix source_type key) items) ->
  exists v, truthy v = true
            /\ h_rid h = mkGitHubEvent rfn (prefix ++ v)%string
            /\ h_event_source_type h = source_type
            /\ h_event_type h = NEW.
Proof.
  intros H. apply in_omap in H as (it & _ & Hf). unfold item_event in Hf.
  destruct (get it key) as [v|]; [|discriminate].
  destruct (truthy v) eqn:Ev; [|discriminate].
  injection Hf as <-. exists v. auto.
Qed.

(** Every event of a pass carries the repository's name and an event id
    that starts with a non-empty prefix. *)
Lemma pass_event_shape up cfg owner repo_name s h :
  In h (pass_events up cfg owner repo_name s) ->
  exists p v,
    h_rid h = mkGitHubEvent (owner ++ "/" ++ repo_name)%string
                (String p v)
    /\ (h_event_type h = UPDATE
        <-> h_event_source_type h = "backfill_repo_details"%string).
Proof.
  unfold pass_events. rewrite !in_app_iff.
  intros [H | [H | [H | H]]].
  - unfold details_events in H.
    destruct (fst (details_fetched up owner repo_name s)) as [d|]; [|destruct H].
    destruct (decide (d = ∅)); [destruct H|].
    destruct H as [<- | []]. cbn [h_rid h_event_type h_event_source_type].
    eexists _, _. split; [reflexivity | tauto].
  - apply item_event_shape in H as (v & _ & -> & -> & ->).
    eexists _, _. split; [reflexivity|]. split; discriminate.
  - apply item_event_shape in H as (v & _ & -> & -> & ->).
    eexists _, _. split; [reflexivity|]. split; discriminate.
  - apply item_event_shape in H as (v & _ & -> & -> & ->).
    eexists _, _. split; [reflexivity|]. split; discriminate.
Qed.

(** X10: every RID a backfill pass hands to the processor is one the
    constructor accepts, names the repository of the pass and has a
    non-empty event id; when the repository name holds no [':'] its
    reference parses back to it; and only the repository-details event is
    an UPDATE, all others are NEW. *)
Theorem pass_rids_well_formed up cfg owner repo_name s h :
  count "/" (owner ++ "/" ++ repo_name)%string = 1%nat ->
  In h (handled (snd (backfill_repository_data up cfg owner repo_name s))) ->
  In h (handled s)
  \/ (repo_full_name (h_rid h) = (owner ++ "/" ++ repo_name)%string
      /\ event_id (h_rid h) <> ""%string
      /\ init (repo_full_name (h_rid h)) (event_id (h_rid h)) = Ok (h_rid h)
      /\ (contains ":" (owner ++ "/" ++ repo_name)%string = false ->
          from_reference (reference (h_rid h)) = Ok (h_rid h))
      /\ (h_event_type h = UPDATE
          <-> h_event_source_type h = "backfill_repo_details"%string)).
Proof.
  intros Hr Hin.
  destruct (pass_handled up cfg owner repo_name s Hr)
    as (r & s' & made & rest & E & Hh & Hp & _).
  rewrite E in Hin. cbn [snd] in Hin. rewrite Hh in Hin.
  apply in_app_iff in Hin as [Hin | Hin]; [now left | right].
  assert (In h (pass_events up cfg owner repo_name s)) as Hin'
    by (rewrite Hp; apply in_app_iff; now left).
  apply pass_event_shape in Hin' as (p & v & Hrid & Hty).
  rewrite Hrid. cbn [repo_full_name event_id].
  split; [reflexivity|]. split; [discriminate|].
  split; [now apply init_ok|]. split; [|exact Hty].
  intros Hc. apply from_reference_ok_iff. cbn [repo_full_name event_id].
  unfold reference. cbn [repo_full_name event_id].
  repeat split; try assumption. discriminate.
Qed.

Lemma pass_rids_well_formed_witness :
  let up := mkUpstream (fun _ => RequestError)
              (serve (Some "W/8"%string) [item "I_1" "2024-05-01T00:00:00Z"]) in
  let cfg := mkConfig 50 30 "2024-04-01T00:00:00Z" in
  from_reference "octo/repo:issue_I_1"
  = Ok (mkGitHubEvent "octo/repo" "issue_I_1").
Proof.
  intros up cfg.
  destruct (pass_rids_well_formed up cfg "octo"%string "repo"%string
              (mkBState ∅ [])
              (mkHandled (mkGitHubEvent "octo/repo" "issue_I_1")
                 "backfill_issue" (item "I_1" "2024-05-01T00:00:00Z") NEW))
    as [[] | (_ & _ & _ & H & _)].
  - reflexivity.
  - vm_compute. left. reflexivity.
  - exact (H eq_refl).
Defined.

(** X11: with a non-negative [max_items] a backfill pass makes at most
    [1 + 3 * max_items] calls to the processor, however many items the
    upstream returns. *)
Theorem pass_emits_at_most up cfg owner repo_name s :
  count "/" (owner ++ "/" ++ repo_name)%string = 1%nat ->
  0 <= backfill_max_items cfg ->
  Z.of_nat (List.length
              (handled (snd (backfill_repository_data up cfg owner repo_name s))))
  <= Z.of_nat (List.length (handled s)) + 1 + 3 * backfill_max_items cfg.
Proof.
  intros Hr Hmax.
  destruct (pass_handled up cfg owner repo_name s Hr)
    as (r & s' & made & rest & E & Hh & Hp & _).
  rewrite E. cbn [snd]. rewrite Hh.
  assert (List.length made
          <= List.length (pass_events up cfg owner repo_name s))%nat as Hle
    by (rewrite Hp, length_app; lia).
  enough (Z.of_nat (List.length (pass_events up cfg owner repo_name s))
          <= 1 + 3 * backfill_max_items cfg)
    by (rewrite length_app; lia).
  clear Hle Hp Hh. unfold pass_events. rewrite !length_app.
  assert (List.length (details_events up owner repo_name s) <= 1)%nat as Hd.
  { unfold details_events.
    destruct (fst (details_fetched up owner repo_name s)) as [d|]; [|cbn; lia].
    destruct (decide (d = ∅)); cbn; lia. }
  pose proof (length_omap_le
                (item_event (owner ++ "/" ++ repo_name)%string "commit_"
                   "backfill_commit" "sha")
                (slice_to (backfill_max_items cfg)
                   (fetched_items (commits_fetched up cfg owner repo_name s)))) as Hc.
  pose proof (length_omap_le
                (item_event (owner ++ "/" ++ repo_name)%string "issue_"
                   "backfill_issue" "node_id")
                (slice_to (backfill_max_items cfg)
                   (fetched_items (issues_fetched up cfg owner repo_name s)))) as Hi.
  pose proof (length_omap_le
                (item_event (owner ++ "/" ++ repo_name)%string "pr_"
                   "backfill_pr" "node_id")
                (slice_to (backfill_max_items cfg)
                   (fetched_items (prs_fetched up cfg owner repo_name s)))) as Hp.
  pose proof (length_slice_to (backfill_max_items cfg)
                (fetched_items (commits_fetched up cfg owner repo_name s)) Hmax).
  pose proof (length_slice_to (backfill_max_items cfg)
                (fetched_items (issues_fetched up cfg owner repo_name s)) Hmax).
  pose proof (length_slice_to (backfill_max_items cfg)
                (fetched_items (prs_fetched up cfg owner repo_name s)) Hmax).
  unfold commit_events, issue_events, pr_events. lia.
Qed.

Lemma pass_emits_at_most_witness :
  let up := mkUpstream (fun _ => RequestError)
              (serve (Some "W/8"%string)
                 [item "I_1" "t1"; item "I_2" "t2"; item "I_3" "t3"]) in
  let cfg := mkConfig 1 30 "2024-04-01T00:00:00Z" in
  Z.of_nat (List.length
              (handled (snd (backfill_repository_data up cfg "octo" "repo"
                               (mkBState ∅ [])))))
  <= 4.
Proof.
  intros up cfg.
  apply (pass_emits_at_most up cfg "octo"%string "repo"%string (mkBState ∅ []));
    [reflexivity | cbn; lia].
Defined.

End PassEvents.

(** ** Failed fetches and the stored ETags *)

Section FailedFetchState.
Import PyStr RidTypes GhApi Pages Backfill.
Local Open Scope list_scope.

(** X12: when the upstream answers the list requests with an HTTP error
    status whose response carries a non-empty [ETag] header [t], the issues
    section stores [t] as the issues-list ETag although nothing was
    fetched; it emits nothing and leaves every other key, the
    last-processed-update cursor included, as it was. *)
Theorem http_error_etag_is_stored up cfg owner repo_name s status t :
  truthy t = true ->
  status <> 304 ->
  is_success status = false ->
  (forall rq, exists b, list_api up rq = Responded status (Some t) b) ->
  backfill_issues up cfg owner repo_name s
  = (Ok tt,
     mkBState (<["issues_list_etag"%string := Some t]> (repo_state s))
       (handled s)).
Proof.
  intros Ht H304 Herr Hup. unfold backfill_issues. cbv zeta.
  unfold bind at 1. rewrite state_get_run.
  unfold bind at 1. rewrite state_get_run.
  change (get_repo_issues (list_api up) owner repo_name "all"
            (seed_since cfg (cursor "issues_last_processed_update_ts" s))
            (backfill_max_items cfg) (cursor "issues_list_etag" s))
    with (issues_fetched up cfg owner repo_name s).
  assert (issues_fetched up cfg owner repo_name s = Ok ([], Some t)) as ->.
  { unfold issues_fetched, get_repo_issues.
    match goal with |- get_repo_list_paged ?T ?p ?ps ?e ?m = _ =>
      assert (page_result T p ps e 1 = Ok (None, Some t)) as Hp
    end.
    { unfold page_result.
      match goal with |- _make_github_request ?T ?m ?p ?ps ?e = _ =>
        destruct (Hup (build_request m p ps e)) as [b Hb]
      end.
      exact (make_request_http_error _ _ _ _ _ _ _ _ Hb H304 Herr). }
    rewrite (list_paged_first_none _ _ _ _ _ _ Hp).
    unfold first_page_etag. rewrite Hp.
    cbn [otruthy]. now rewrite Ht. }
  unfold bind at 1. unfold lift at 1.
  unfold bind at 1. unfold state_set_if_truthy. cbn [otruthy]. rewrite Ht.
  reflexivity.
Qed.

Lemma http_error_etag_is_stored_witness :
  let up := mkUpstream (fun _ => RequestError)
              (fun _ => Responded 403 (Some "W/err"%string) (Ok [])) in
  let cfg := mkConfig 50 30 "2024-04-01T00:00:00Z" in
  let s := mkBState {[ "issues_list_etag"%string := Some "W/good"%string ]} [] in
  cursor "issues_list_etag" (snd (backfill_issues up cfg "octo" "repo" s))
  = Some "W/err"%string.
Proof.
  intros up cfg s.
  rewrite (http_error_etag_is_stored up cfg "octo"%string "repo"%string s
             403 "W/err"%string eq_refl);
    [reflexivity | discriminate | reflexivity |].
  intros rq. now exists (Ok []).
Defined.



End FailedFetchState.

(** ** The sweep over the monitored repositories *)

Section SweepFacts.
Import PyStr RidTypes GhApi Pages Backfill Sweep.
Local Open Scope list_scope.

(** A name that splits in two is the two parts joined, with one ['/']. *)
Lemma split_owner_repo name owner repo :
  split "/" name = [owner; repo] ->
  name = (owner ++ "/" ++ repo)%string /\ count "/" name = 1%nat.
Proof.
  intros H. split.
  - now apply split_two in H as (-> & _).
  - apply split_two_count. eauto.
Qed.

Lemma sweep_one_skips up cfg name st :
  count "/" name <> 1%nat -> sweep_one up cfg name st = st.
Proof.
  intros Hn. unfold sweep_one.
  destruct (split "/" name) as [|a [|b [|c l]]] eqn:E; try reflexivity.
  exfalso. apply Hn. apply split_two_count. eauto.
Qed.

(** A turn for a name with one ['/']. *)
Lemma sweep_one_run up cfg name st :
  count "/" name = 1%nat ->
  exists owner repo r s',
    count "/" (owner ++ "/" ++ repo)%string = 1%nat
    /\ backfill_repository_data up cfg owner repo
         (mkBState (default ∅ (overall st !! name)) (emitted st)) = (r, s')
    /\ sweep_one up cfg name st
       = mkSweep (if is_ok r || bool_decide (is_Some (overall st !! name))
                  then <[name := repo_state s']> (overall st)
                  else overall st) (handled s').
Proof.
  intros Hc. apply split_two_count in Hc as (owner & repo & Hs).
  destruct (split_owner_repo _ _ _ Hs) as [Hname Hcount].
  rewrite Hname in Hcount.
  destruct (backfill_repository_data up cfg owner repo
              (mkBState (default ∅ (overall st !! name)) (emitted st)))
    as [r s'] eqn:E.
  exists owner, repo, r, s'. split; [exact Hcount|]. split; [exact E|].
  unfold sweep_one. rewrite Hs. cbv zeta. rewrite E.
  destruct r as [[]|x]; cbn [is_ok orb]; [reflexivity|].
  destruct (overall st !! name) as [v|].
  - rewrite bool_decide_eq_true_2 by eauto. reflexivity.
  - rewrite bool_decide_eq_false_2 by (intros [? ?]; discriminate).
    reflexivity.
Qed.

Lemma sweep_one_other up cfg name st k :
  k <> name -> overall (sweep_one up cfg name st) !! k = overall st !! k.
Proof.
  intros Hk. destruct (Nat.eq_dec (count "/" name) 1%nat) as [Hc|Hc].
  - destruct (sweep_one_run up cfg name st Hc)
      as (o & r & res & s' & _ & _ & ->).
    cbn [overall]. destruct (_ || _); [|reflexivity].
    now apply lookup_insert_ne.
  - now rewrite sweep_one_skips.
Qed.









Lemma sweep_fold_other up cfg monitored : forall st k,
  (~ In k monitored \/ count "/" k <> 1%nat) ->
  overall (fold_left (fun st name => sweep_one up cfg name st) monitored st)
    !! k = overall st !! k.
Proof.
  induction monitored as [|name rest IH]; intros st k Hk; [reflexivity|].
  cbn [fold_left]. rewrite IH.
  - destruct (string_dec k name) as [->|Hne]; [|now apply sweep_one_other].
    destruct Hk as [Hk|Hk]; [exfalso; apply Hk; now left|].
    now rewrite sweep_one_skips.
  - destruct Hk as [Hk|Hk]; [left; intros H; apply Hk; now right | now right].
Qed.




(** X13: a sweep hands to the save routine a store in which the entry of
    every name that is not monitored, and of every monitored name that does
    not hold exactly one ['/'] (such a name is skipped), is as loaded; with
    no monitored repository nothing is loaded, fetched or saved. *)
Theorem sweep_leaves_other_entries up cfg monitored loaded :
  run_initial_backfill up cfg [] loaded = (None, [])
  /\ forall saved events k,
       run_initial_backfill up cfg monitored loaded = (Some saved, events) ->
       (~ In k monitored \/ count "/" k <> 1%nat) ->
       saved !! k = loaded !! k.
Proof.
  split; [reflexivity|]. intros saved events k H Hk.
  unfold run_initial_backfill in H. destruct monitored as [|n rest];
    [discriminate|].
  cbv zeta in H. injection H as <- _.
  exact (sweep_fold_other up cfg (n :: rest) (mkSweep loaded []) k Hk).
Qed.

Lemma sweep_leaves_other_entries_witness :
  let up := mkUpstream (fun _ => RequestError) (fun _ => RequestError) in
  let cfg := mkConfig 50 30 "2024-04-01T00:00:00Z" in
  let loaded : Store := {[ "noslash"%string := {[ "k"%string := None ]} ]} in
  exists saved events,
    run_initial_backfill up cfg ["noslash"%string] loaded
      = (Some saved, events)
    /\ saved !! "noslash"%string = loaded !! "noslash"%string.
Proof.
  intros up cfg loaded. eexists _, _. split; [reflexivity|].
  apply (proj2 (sweep_leaves_other_entries up cfg ["noslash"%string] loaded)
           _ _ "noslash"%string eq_refl).
  right. discriminate.
Defined.







End SweepFacts.

(** ** Webhook identities *)

Section DigestLength.
Import Sha256.
Local Open Scope list_scope.

Lemma length_compress h block :
  List.length h = 8%nat -> List.length (compress h block) = 8%nat.
Proof.
  intros H. unfold compress. rewrite length_map, length_combine, H.
  reflexivity.
Qed.

Lemma length_blocks n : forall h bs,
  List.length h = 8%nat -> List.length (blocks n h bs) = 8%nat.
Proof.
  induction n as [|n IH]; intros h bs H; [exact H|].
  cbn [blocks]. apply IH. now apply length_compress.
Qed.

Lemma length_be_bytes n x : List.length (be_bytes n x) = n.
Proof. induction n as [|n IH]; cbn [be_bytes List.length]; congruence. Qed.

Lemma length_concat_const {A} (ls : list (list A)) (k : nat) :
  Forall (fun l => List.length l = k) ls ->
  List.length (concat ls) = (List.length ls * k)%nat.
Proof.
  induction 1 as [|l ls Hl _ IH]; [reflexivity|].
  cbn [concat List.length]. rewrite length_app. cbn. lia.
Qed.

Lemma string_length_app (a b : string) :
  String.length (a ++ b)%string = (String.length a + String.length b)%nat.
Proof.
  induction a as [|x a IH]; [reflexivity|].
  change (String x a ++ b)%string with (String x (a ++ b)%string).
  cbn [String.length]. now rewrite IH.
Qed.

Lemma length_hex_of_bytes bs :
  String.length (hex_of_bytes bs) = (2 * List.length bs)%nat.
Proof.
  induction bs as [|b bs IH]; [reflexivity|].
  cbn [hex_of_bytes fold_right]. fold (hex_of_bytes bs).
  rewrite string_length_app, IH. cbn [List.length hex_of_byte String.length].
  lia.
Qed.

(** A hex digest has 64 characters. *)
Lemma length_hexdigest data : String.length (hexdigest data) = 64%nat.
Proof.
  unfold hexdigest. rewrite length_hex_of_bytes.
  rewrite (length_concat_const _ 4).
  - rewrite length_map. unfold digest_words.
    rewrite length_blocks; reflexivity.
  - apply List.Forall_forall. intros l Hin.
    apply in_map_iff in Hin as (w & <- & _). apply length_be_bytes.
Qed.

Lemma length_pystr_take n : forall s,
  (n <= String.length s)%nat -> String.length (PyStr.take n s) = n.
Proof.
  induction n as [|n IH]; intros [|c s] H; cbn in *; try lia.
  rewrite IH; lia.
Qed.


End DigestLength.

Section WebhookExtras.
Import PyStr RidTypes Webhook Dispatch.

Lemma fallback_hash_facts (s : string) :
  String.length (fallback_hash s) = 16%nat
  /\ Sha256.all_hex (fallback_hash s) = true
  /\ fallback_hash s <> "".
Proof.
  assert (String.length (fallback_hash s) = 16%nat) as Hlen.
  { unfold fallback_hash. apply length_pystr_take.
    rewrite length_hexdigest. lia. }
  split; [exact Hlen|]. split; [apply take_all_hex, hexdigest_all_hex|].
  intros E. rewrite E in Hlen. discriminate.
Qed.


Lemma push_event_id_nonempty delivery_id p :
  push_event_id delivery_id p <> "".
Proof.
  unfold push_event_id.
  set (eid := match delivery_id with
              | Some d => if truthy d then d else after p
              | None => after p
              end).
  destruct (truthy eid) eqn:Et; cbn [negb orb].
  - destruct (String.eqb eid zero_sha).
    + destruct (deleted p && negb (forced p)); [discriminate|].
      apply fallback_hash_facts.
    + now apply truthy_nonempty.
  - destruct (deleted p && negb (forced p)); [discriminate|].
    apply fallback_hash_facts.
Qed.

(** X17: whatever a push payload holds, the identity [handle_push_event]
    hands to the processor names the payload's repository, is sent as NEW,
    and has a non-empty event id, so that its reference parses back to it
    whenever the repository name holds no [':']. *)
Theorem push_identity_parses_back delivery_id p rid t :
  handle_push_event delivery_id (Some p) = Ok (Some (rid, t)) ->
  t = NEW
  /\ repo_full_name rid = full_name (repository p)
  /\ event_id rid = push_event_id delivery_id p
  /\ event_id rid <> ""
  /\ (contains ":" (full_name (repository p)) = false ->
      from_reference (reference rid) = Ok rid).
Proof.
  unfold handle_push_event.
  destruct (init (full_name (repository p)) (push_event_id delivery_id p))
    as [r|x] eqn:E; [|discriminate].
  intros [= -> <-]. apply init_ok_inv in E as [Hc ->].
  cbn [repo_full_name event_id].
  pose proof (push_event_id_nonempty delivery_id p) as Hne.
  repeat split; try assumption.
  intros Hcolon. apply from_reference_ok_iff. unfold reference.
  cbn [repo_full_name event_id]. tauto.
Qed.

Lemma push_identity_parses_back_witness :
  let p := mkPush "refs/heads/main"
             "1111111111111111111111111111111111111111"
             "2222222222222222222222222222222222222222"
             (mkRepoInfo "octo/repo") false false false in
  from_reference "octo/repo:2222222222222222222222222222222222222222"
  = Ok (mkGitHubEvent "octo/repo" "2222222222222222222222222222222222222222").
Proof.
  intros p.
  destruct (push_identity_parses_back None p
              (mkGitHubEvent "octo/repo"
                 "2222222222222222222222222222222222222222") NEW eq_refl)
    as (_ & _ & _ & _ & H).
  exact (H eq_refl).
Defined.

(** X18: the issues handler sends NEW exactly for the action [opened] and
    UPDATE for every other action; the event id is the delivery id when a
    non-empty one is given, and the issue's node id when the delivery id is
    missing or empty; unlike a push identity it can be empty (no delivery
    id and an empty node id), and the reference of the identity parses
    back to it exactly when the event id is non-empty and the repository
    name holds no [':']. *)
Theorem issues_identity delivery_id p rid t :
  handle_issues_event delivery_id (Some p) = Ok (Some (rid, t)) ->
  (t = NEW <-> i_action p = "opened")
  /\ (t = UPDATE <-> i_action p <> "opened")
  /\ repo_full_name rid = full_name (i_repository p)
  /\ (forall d, delivery_id = Some d -> d <> "" -> event_id rid = d)
  /\ (delivery_id = None \/ delivery_id = Some "" ->
      event_id rid = i_issue_node_id p)
  /\ (from_reference (reference rid) = Ok rid <->
      event_id rid <> ""
      /\ contains ":" (full_name (i_repository p)) = false).
Proof.
  unfold handle_issues_event.
  destruct (init (full_name (i_repository p))
              (or_key delivery_id (i_issue_node_id p))) as [r|x] eqn:E;
    [|discriminate].
  intros [= -> <-]. apply init_ok_inv in E as [Hc ->].
  cbn [repo_full_name event_id]. unfold koi_type_of_action.
  split; [|split; [|split; [reflexivity|split; [|split]]]].
  - destruct (String.eqb_spec (i_action p) "opened"); split; congruence.
  - destruct (String.eqb_spec (i_action p) "opened"); split; congruence.
  - intros d -> Hd. cbn [or_key].
    now rewrite (proj2 (truthy_nonempty d) Hd).
  - intros [->| ->]; reflexivity.
  - rewrite from_reference_ok_iff. unfold reference.
    cbn [repo_full_name event_id]. tauto.
Qed.

Lemma issues_identity_witness :
  let p := mkIssues "opened" "" 7 (mkRepoInfo "octo/repo") in
  let q := mkIssues "edited" "I_kwDOA" 8 (mkRepoInfo "octo/repo") in
  (exists rid,
     handle_issues_event (Some "72d3162e-cc78"%string) (Some q)
       = Ok (Some (rid, UPDATE))
     /\ event_id rid = "72d3162e-cc78"
     /\ from_reference "octo/repo:72d3162e-cc78" = Ok rid)
  /\ (exists rid,
        handle_issues_event (Some ""%string) (Some q) = Ok (Some (rid, UPDATE))
        /\ event_id rid = "I_kwDOA")
  /\ handle_issues_event None (Some p)
     = Ok (Some (mkGitHubEvent "octo/repo" "", NEW))
  /\ from_reference (reference (mkGitHubEvent "octo/repo" ""))
     <> Ok (mkGitHubEvent "octo/repo" "").
Proof.
  intros p q. split; [|split; [|split; [reflexivity|]]].
  - destruct (handle_issues_event (Some "72d3162e-cc78"%string) (Some q))
      as [[[rid t]|]|x] eqn:E;
      [| vm_compute in E; discriminate | vm_compute in E; discriminate].
    destruct (issues_identity _ q rid t E) as (_ & Ht & Hn & Hd & _ & Hp).
    assert (t = UPDATE) as -> by (apply Ht; discriminate).
    pose proof (Hd _ eq_refl ltac:(discriminate)) as Hid.
    exists rid. split; [reflexivity|]. split; [exact Hid|].
    assert (reference rid = "octo/repo:72d3162e-cc78"%string) as <-
      by (unfold reference; now rewrite Hn, Hid).
    apply Hp. rewrite Hid. split; [discriminate | reflexivity].
  - destruct (handle_issues_event (Some ""%string) (Some q))
      as [[[rid t]|]|x] eqn:E;
      [| vm_compute in E; discriminate | vm_compute in E; discriminate].
    destruct (issues_identity _ q rid t E) as (_ & Ht & _ & _ & Hd & _).
    assert (t = UPDATE) as -> by (apply Ht; discriminate).
    exists rid. split; [reflexivity|]. apply Hd. now right.
  - destruct (issues_identity None p (mkGitHubEvent "octo/repo" "") NEW
                eq_refl) as (_ & _ & _ & _ & _ & H).
    intros E. apply H in E as [E _]. now apply E.
Defined.

Lemma registered_names event_type :
  is_Some (EVENT_HANDLERS event_type) <->
  event_type = "push" \/ event_type = "issues"
  \/ event_type = "pull_request".
Proof.
  unfold EVENT_HANDLERS.
  destruct (String.eqb_spec event_type "push") as [->|H1];
    [split; eauto|].
  destruct (String.eqb_spec event_type "issues") as [->|H2];
    [split; eauto|].
  destruct (String.eqb_spec event_type "pull_request") as [->|H3];
    [split; eauto|].
  split; [intros [h Hh]; discriminate | intros [H|[H|H]]; congruence].
Qed.

(** X19: for the event types that have a registered handler ([push],
    [issues], [pull_request], and no other) [process_webhook_event] never
    raises and does not depend on the delivery id it is called with (the
    handlers read the id from the payload); an exception can only leave
    through the generic path of an unregistered type. *)
Theorem registered_types_never_raise event_type p d1 d2 :
  (is_Some (EVENT_HANDLERS event_type) <->
   event_type = "push" \/ event_type = "issues"
   \/ event_type = "pull_request")
  /\ (is_Some (EVENT_HANDLERS event_type) ->
      is_ok (process_webhook_event event_type p d1) = true
      /\ process_webhook_event event_type p d1
         = process_webhook_event event_type p d2)
  /\ (is_raise (process_webhook_event event_type p d1) = true ->
      EVENT_HANDLERS event_type = None
      /\ process_webhook_event event_type p d1
         = handle_generic_event event_type (pd_generic p) d1).
Proof.
  split; [apply registered_names|split].
  - intros [h Hh]. unfold process_webhook_event. rewrite Hh.
    split; [|reflexivity]. now destruct (h p).
  - unfold process_webhook_event.
    destruct (EVENT_HANDLERS event_type) as [h|]; [|auto].
    now destruct (h p).
Qed.

Lemma registered_types_never_raise_witness :
  let p := mkPayload None
             (Some (mkPush "refs/heads/main" "1" "2" (mkRepoInfo "noslash")
                      false false false))
             None None (mkGeneric None NoSender None) in
  process_webhook_event "push" p (Some "d-1"%string) = Ok None.
Proof.
  intros p.
  destruct (registered_types_never_raise "push" p (Some "d-1"%string) None)
    as (_ & H & _).
  destruct (H ltac:(eexists; reflexivity)) as [_ ->]. reflexivity.
Defined.

Lemma encode_ok raw bytes :
  encode raw = Ok bytes <->
  has_surrogate raw = false /\ bytes = Sha256.bytes_of_string raw.
Proof.
  unfold encode. destruct (has_surrogate raw); split.
  - discriminate.
  - now intros [? _].
  - now intros [= <-].
  - now intros [_ ->].
Qed.

Lemma generic_event_id_facts event_type d p delivery_id eid :
  generic_event_id event_type d p delivery_id = Ok (Some eid) ->
  eid <> ""
  /\ (otruthy delivery_id = true -> Some eid = delivery_id)
  /\ (otruthy delivery_id = false ->
      String.length eid = 16%nat /\ Sha256.all_hex eid = true
      /\ exists raw, generic_raw event_type d p = Ok raw
                     /\ has_surrogate raw = false
                     /\ eid = fallback_hash raw).
Proof.
  unfold generic_event_id.
  destruct (otruthy delivery_id) eqn:Ed.
  - destruct delivery_id as [d0|]; [|discriminate]. cbn [otruthy] in Ed.
    intros [= <-].
    split; [exact (proj1 (truthy_nonempty d0) Ed)|].
    split; [reflexivity | discriminate].
  - destruct (generic_raw event_type d p) as [raw|x]; [|discriminate].
    destruct (encode raw) as [bytes|x] eqn:Eb; [|discriminate].
    apply encode_ok in Eb as [Hs ->].
    intros [= <-]. fold (fallback_hash raw).
    split; [apply fallback_hash_facts|].
    split; [discriminate|]. intros _.
    split; [apply fallback_hash_facts|].
    split; [apply fallback_hash_facts|]. eauto.
Qed.

(** The fallback id is given up exactly on a string that does not
    encode. *)
Lemma generic_event_id_none event_type d p delivery_id :
  generic_event_id event_type d p delivery_id = Ok None <->
  otruthy delivery_id = false
  /\ exists raw, generic_raw event_type d p = Ok raw
                 /\ has_surrogate raw = true.
Proof.
  unfold generic_event_id.
  destruct (otruthy delivery_id) eqn:Ed.
  - destruct delivery_id as [d0|]; [|discriminate].
    split; [discriminate | now intros [? _]].
  - destruct (generic_raw event_type d p) as [raw|x].
    + unfold encode. destruct (has_surrogate raw) eqn:Es; split.
      * eauto.
      * reflexivity.
      * discriminate.
      * intros (_ & raw' & [= <-] & H). congruence.
    + split; [discriminate | intros (_ & raw & H & _); discriminate].
Qed.

Lemma generic_event_handed_on event_type p delivery_id rid t :
  handle_generic_event event_type p delivery_id = Ok (Some (rid, t)) ->
  t = NEW
  /\ exists d,
       g_repository p = Some d
       /\ r_full_name d = Some (JStr (repo_full_name rid))
       /\ generic_event_id event_type d p delivery_id
          = Ok (Some (event_id rid)).
Proof.
  unfold handle_generic_event.
  destruct (g_repository p) as [d|]; [|discriminate].
  destruct (r_full_name d) as [v|] eqn:Ef; [|discriminate].
  destruct (j_truthy v) eqn:Ev; cbn [negb]; [|discriminate].
  destruct (generic_event_id event_type d p delivery_id) as [[eid|]|x] eqn:Ee;
    [|discriminate|discriminate].
  destruct v as [|b|n|name]; try discriminate.
  destruct (init name eid) as [r|x] eqn:E; [|discriminate].
  intros [= <- <-]. apply init_ok_inv in E as [_ ->].
  cbn [repo_full_name event_id]. split; [reflexivity|].
  exists d. now rewrite Ef.
Qed.

(** X20: the generic handler drops an event (no call to the processor, no
    exception) in exactly two cases: the payload has no [repository]
    object with a truthy [full_name]; or no non-empty delivery id was
    passed and the string to hash, built from the event type, the
    repository id, the sender id and the timestamp, holds a lone
    surrogate, so that encoding it raises inside the guarded block.  An
    event it hands on is sent as NEW, names that repository, and has as
    event id the delivery id when a non-empty one was passed and otherwise
    the first 16 hex digits of the SHA-256 of that string, so never an
    empty one. *)
Theorem generic_event_outcome event_type p delivery_id :
  (handle_generic_event event_type p delivery_id = Ok None <->
   match g_repository p with
   | Some d =>
       match r_full_name d with
       | Some v =>
           j_truthy v = false
           \/ (otruthy delivery_id = false
               /\ exists raw,
                    generic_raw event_type d p = Ok raw
                    /\ has_surrogate raw = true)
       | None => True
       end
   | None => True
   end)
  /\ forall rid t,
       handle_generic_event event_type p delivery_id = Ok (Some (rid, t)) ->
       t = NEW
       /\ (exists d, g_repository p = Some d
                     /\ r_full_name d = Some (JStr (repo_full_name rid))
                     /\ (otruthy delivery_id = false ->
                         exists raw,
                           generic_raw event_type d p = Ok raw
                           /\ has_surrogate raw = false
                           /\ event_id rid
                              = take 16 (Sha256.hexdigest
                                           (Sha256.bytes_of_string raw))))
       /\ event_id rid <> ""
       /\ (otruthy delivery_id = true -> Some (event_id rid) = delivery_id)
       /\ (otruthy delivery_id = false ->
           String.length (event_id rid) = 16%nat
           /\ Sha256.all_hex (event_id rid) = true).
Proof.
  split.
  - unfold handle_generic_event.
    destruct (g_repository p) as [d|]; [|tauto].
    destruct (r_full_name d) as [v|]; [|tauto].
    destruct (j_truthy v) eqn:Ev; cbn [negb]; [|tauto].
    rewrite <- generic_event_id_none.
    destruct (generic_event_id event_type d p delivery_id) as [[eid|]|x].
    + split; [|intros [|]; discriminate].
      destruct v as [|b|n|name]; try discriminate.
      destruct (init name eid); discriminate.
    + split; [now right | reflexivity].
    + split; [discriminate | intros [|]; discriminate].
  - intros rid t H.
    apply generic_event_handed_on in H as (-> & d & Hd & Hf & He).
    apply generic_event_id_facts in He as (H1 & H2 & H3).
    split; [reflexivity|]. split.
    + exists d. split; [exact Hd|]. split; [exact Hf|].
      intros Hn. destruct (H3 Hn) as (_ & _ & raw & ? & ? & ?).
      exists raw. auto.
    + split; [exact H1|]. split; [exact H2|].
      intros Hn. destruct (H3 Hn) as (? & ? & _). auto.
Qed.

Lemma generic_event_outcome_witness :
  let repo := mkRepoDict (Some (JStr "octo/repo")) (Some (JInt 5)) None in
  let p := mkGeneric (Some repo) NoSender None in
  let lone :=
    String (ascii_of_nat 237) (String (ascii_of_nat 160)
      (String (ascii_of_nat 128) EmptyString)) in
  let q := mkGeneric (Some repo) NoSender (Some (JStr lone)) in
  (exists rid,
     handle_generic_event "star" p None = Ok (Some (rid, NEW))
     /\ event_id rid = "21c377e7d17b471f")
  /\ handle_generic_event "star" q None = Ok None
  /\ handle_generic_event "star" q (Some "d-1"%string)
     = Ok (Some (mkGitHubEvent "octo/repo" "d-1", NEW)).
Proof.
  intros repo p lone q. split; [|split].
  - destruct (handle_generic_event "star" p None) as [[[rid t]|]|x] eqn:E;
      [| vm_compute in E; discriminate | vm_compute in E; discriminate].
    destruct (proj2 (generic_event_outcome "star"%string p None) rid t E)
      as (-> & (d & Hd & _ & Hraw) & _).
    exists rid. split; [reflexivity|].
    destruct (Hraw eq_refl) as (raw & Hr & _ & ->).
    injection Hd as <-. vm_compute in Hr. injection Hr as <-.
    vm_compute. reflexivity.
  - apply (proj1 (generic_event_outcome "star"%string q None)).
    right. split; [reflexivity|]. eexists. split; reflexivity.
  - reflexivity.
Defined.

End WebhookExtras.

(** ** Signatures and the webhook endpoint *)

Example hmac_sha256_fox :
  Hmac.hexdigest (Sha256.bytes_of_string "key")
    (Sha256.bytes_of_string "The quick brown fox jumps over the lazy dog")
  = "f7bc83f430538424b13298e6aa6fb143ef4d59a14946175997479dbc2d1a3cd8".
Proof. vm_compute. reflexivity. Qed.

Example hmac_sha256_hello_world :
  Hmac.hexdigest (Sha256.bytes_of_string "It's a Secret to Everybody")
    (Sha256.bytes_of_string "Hello, World!")
  = "757107ea0eb2509fc211221cce984b8a37570b6d7586c22c46f4379c8b043e17".
Proof. vm_compute. reflexivity. Qed.

Example hmac_sha256_long_key :
  Hmac.hexdigest (List.repeat 107 70) (Sha256.bytes_of_string "abc")
  = "3aee79d2a06f8dc1dd8be8883f48f459ebfcda24aca8133cb0dd1c3a71d280d2".
Proof. vm_compute. reflexivity. Qed.

Example py_str_int_examples :
  py_str_int 0 = "0" /\ py_str_int 42 = "42" /\ py_str_int (-7) = "-7".
Proof. repeat split; reflexivity. Qed.

Section ServerFacts.
Import PyStr Handlers Dispatch Server.

Lemma hex_digit_ascii c :
  Sha256.is_hex_digit c = true -> (Z.of_N (N_of_ascii c) <? 128) = true.
Proof.
  destruct c as [[] [] [] [] [] [] [] []]; vm_compute; congruence.
Qed.

Lemma all_hex_ascii s : Sha256.all_hex s = true -> Hmac.is_ascii s = true.
Proof.
  unfold Hmac.is_ascii, Sha256.bytes_of_string.
  induction s as [|c s IH]; [reflexivity|].
  cbn [Sha256.all_hex list_ascii_of_string List.map forallb].
  intros H. apply andb_true_iff in H as [Hc Hs].
  now rewrite hex_digit_ascii, IH.
Qed.

Lemma hmac_hexdigest_all_hex key msg :
  Sha256.all_hex (Hmac.hexdigest key msg) = true.
Proof. apply hexdigest_all_hex. Qed.

Lemma expected_signature_ascii body secret :
  Hmac.is_ascii (expected_signature body secret) = true.
Proof.
  pose proof (all_hex_ascii _
                (hmac_hexdigest_all_hex (Sha256.bytes_of_string secret) body))
    as H.
  unfold expected_signature, Hmac.is_ascii, Sha256.bytes_of_string in *.
  cbn [String.append list_ascii_of_string List.map forallb].
  repeat (change (String ?x ?a ++ ?b) with (String x (a ++ b))).
  exact H.
Qed.

Lemma verify_signature_true body secret header :
  truthy secret = true ->
  verify_signature body secret header = Ok true <->
  header = Some (expected_signature body secret).
Proof.
  intros Hs. unfold verify_signature. destruct header as [h|].
  - destruct (truthy h) eqn:Eh; cbn [negb].
    + rewrite Hs. cbn [negb]. unfold Hmac.compare_digest.
      rewrite expected_signature_ascii. cbn [andb].
      destruct (Hmac.is_ascii h) eqn:Ea.
      * destruct (String.eqb_spec (expected_signature body secret) h)
          as [<-|Hne]; split; try reflexivity; try discriminate.
        intros [= E]. now rewrite E in Hne.
      * split; [discriminate|]. intros [= ->].
        rewrite expected_signature_ascii in Ea. discriminate.
    + split; [discriminate|]. intros [= ->]. discriminate.
  - split; discriminate.
Qed.

Lemma verify_signature_raise body secret header :
  truthy secret = true ->
  is_raise (verify_signature body secret header) = true <->
  exists h, header = Some h /\ Hmac.is_ascii h = false.
Proof.
  intros Hs. unfold verify_signature. destruct header as [h|].
  - destruct (truthy h) eqn:Eh; cbn [negb].
    + rewrite Hs. cbn [negb]. unfold Hmac.compare_digest.
      rewrite expected_signature_ascii. cbn [andb].
      destruct (Hmac.is_ascii h) eqn:Ea.
      * destruct (String.eqb (expected_signature body secret) h);
          (split; [discriminate|]); intros (h' & [= <-] & E); congruence.
      * split; [eauto | reflexivity].
    + split; [discriminate|]. intros (h' & [= <-] & E).
      destruct h; [discriminate E | discriminate Eh].
  - split; [discriminate|]. intros (h' & E & _). discriminate.
Qed.

(** X21: with a configured secret, [verify_signature] accepts a request
    exactly when the header is [sha256=] followed by the hexadecimal
    HMAC-SHA256 of the raw body under the secret; a missing or empty
    header is refused, and the check raises (instead of refusing) exactly
    when the header holds a non-ASCII character. *)
Theorem signature_accepted_iff body secret header :
  truthy secret = true ->
  (verify_signature body secret header = Ok true <->
   header = Some (expected_signature body secret))
  /\ (is_raise (verify_signature body secret header) = true <->
      exists h, header = Some h /\ Hmac.is_ascii h = false)
  /\ (otruthy header = false ->
      verify_signature body secret header = Ok false).
Proof.
  intros Hs. split; [now apply verify_signature_true|].
  split; [now apply verify_signature_raise|].
  unfold verify_signature. destruct header as [h|]; [|reflexivity].
  cbn [otruthy]. now intros ->.
Qed.

Lemma signature_accepted_iff_witness :
  verify_signature (Sha256.bytes_of_string "Hello, World!")
    "It's a Secret to Everybody"
    (Some
       "sha256=757107ea0eb2509fc211221cce984b8a37570b6d7586c22c46f4379c8b043e17"%string)
  = Ok true.
Proof.
  apply (proj1 (signature_accepted_iff
                  (Sha256.bytes_of_string "Hello, World!")
                  "It's a Secret to Everybody"%string
                  (Some
                     "sha256=757107ea0eb2509fc211221cce984b8a37570b6d7586c22c46f4379c8b043e17"%string)
                  eq_refl)).
  vm_compute. reflexivity.
Defined.

(** The signature check as the endpoint runs it. *)
Lemma listener_unfold secret d :
  github_webhook_listener secret d =
  match x_github_event d with
  | None => HTTPException 400
  | Some event =>
      if truthy event then
        match (if otruthy secret
               then verify_signature (d_body d) (default "" secret)
                      (x_hub_signature_256 d)
               else Ok true) with
        | Raise e => Unhandled e
        | Ok false => HTTPException 403
        | Ok true =>
            match d_json d with
            | None => HTTPException 400
            | Some payload_json => Accepted event payload_json None
            end
        end
      else HTTPException 400
  end.
Proof.
  unfold github_webhook_listener.
  destruct (x_github_event d) as [e|]; [|reflexivity].
  destruct (truthy e); cbn [negb]; [|reflexivity].
  destruct secret as [s|]; cbn [otruthy default]; [|reflexivity].
  now destruct (truthy s).
Qed.

Lemma listener_accepted secret d e j dl :
  github_webhook_listener secret d = Accepted e j dl <->
  x_github_event d = Some e /\ truthy e = true
  /\ d_json d = Some j /\ dl = None
  /\ (otruthy secret = true ->
      x_hub_signature_256 d
      = Some (expected_signature (d_body d) (default "" secret))).
Proof.
  rewrite listener_unfold.
  destruct (x_github_event d) as [e'|];
    [|split; [discriminate | intros ([=] & _)]].
  destruct (truthy e') eqn:Ee;
    [|split; [discriminate | intros ([= ->] & E & _); congruence]].
  destruct (otruthy secret) eqn:Es.
  - assert (truthy (default "" secret) = true) as Hs
      by (destruct secret; [exact Es | discriminate]).
    pose proof (verify_signature_true (d_body d) _ (x_hub_signature_256 d)
                  Hs) as Hv.
    destruct (verify_signature (d_body d) (default "" secret)
                (x_hub_signature_256 d)) as [[]|x].
    + destruct (d_json d) as [j'|].
      * split.
        -- intros [= -> -> <-]. repeat split; try assumption; try reflexivity.
           intros _. now apply Hv.
        -- intros ([= ->] & _ & [= ->] & -> & _). reflexivity.
      * split; [discriminate | intros (_ & _ & [=] & _)].
    + split; [discriminate|]. intros (_ & _ & _ & _ & H).
      specialize (H eq_refl). apply Hv in H. discriminate.
    + split; [discriminate|]. intros (_ & _ & _ & _ & H).
      specialize (H eq_refl). apply Hv in H. discriminate.
  - destruct (d_json d) as [j'|].
    + split.
      * intros [= -> -> <-]. repeat split; try assumption; try reflexivity.
        discriminate.
      * intros ([= ->] & _ & [= ->] & -> & _). reflexivity.
    + split; [discriminate | intros (_ & _ & [=] & _)].
Qed.

(** X22: the webhook endpoint answers 202 and schedules the event exactly
    when the event header is present and non-empty, the body parses as
    JSON, and (only when a non-empty secret is configured) the signature
    header is the HMAC of the raw body; the scheduled call never carries a
    delivery id, whatever the [X-GitHub-Delivery] header holds. *)
Theorem listener_accepts_iff secret d e j dl :
  github_webhook_listener secret d = Accepted e j dl <->
  x_github_event d = Some e /\ truthy e = true
  /\ d_json d = Some j /\ dl = None
  /\ (otruthy secret = true ->
      x_hub_signature_256 d
      = Some (expected_signature (d_body d) (default "" secret))).
Proof. apply listener_accepted. Qed.

(** X23: the endpoint's refusals.  The only status codes raised are 400
    and 403; a missing or empty event header gives 400 before anything
    else is looked at; without a configured secret no request is refused
    with 403 and none fails on its signature; with a secret, a signature
    header holding a non-ASCII character is not answered with 403 but
    leaves the endpoint as an unhandled exception. *)
Theorem listener_refusals secret d :
  (forall c, github_webhook_listener secret d = HTTPException c ->
             c = 400 \/ c = 403)
  /\ (otruthy (x_github_event d) = false ->
      github_webhook_listener secret d = HTTPException 400)
  /\ (otruthy secret = false ->
      github_webhook_listener secret d <> HTTPException 403
      /\ forall x, github_webhook_listener secret d <> Unhandled x)
  /\ (otruthy (x_github_event d) = true -> otruthy secret = true ->
      forall h, x_hub_signature_256 d = Some h -> Hmac.is_ascii h = false ->
      exists x, github_webhook_listener secret d = Unhandled x).
Proof.
  rewrite listener_unfold. split; [|split; [|split]].
  - intros c. destruct (x_github_event d) as [e|]; [|intros [= <-]; auto].
    destruct (truthy e); [|intros [= <-]; auto].
    destruct (if otruthy secret then _ else _) as [[]|x];
      [|intros [= <-]; auto | discriminate].
    destruct (d_json d); [discriminate | intros [= <-]; auto].
  - destruct (x_github_event d) as [e|]; [|reflexivity].
    cbn [otruthy]. now intros ->.
  - intros ->. destruct (x_github_event d) as [e|]; [|split; discriminate].
    destruct (truthy e); [|split; discriminate].
    destruct (d_json d); split; discriminate.
  - intros He Hs h Hh Ha. destruct (x_github_event d) as [e|];
      [|discriminate]. cbn [otruthy] in He. rewrite He, Hs.
    assert (truthy (default "" secret) = true) as Hs'
      by (destruct secret; [exact Hs | discriminate]).
    pose proof (proj2 (verify_signature_raise (d_body d) _
                         (x_hub_signature_256 d) Hs')
                  (ex_intro _ h (conj Hh Ha))) as Hr.
    destruct (verify_signature (d_body d) (default "" secret)
                (x_hub_signature_256 d)) as [b|x]; [discriminate|].
    now exists x.
Qed.

Lemma listener_refusals_witness :
  let d := mkDelivery [] (Some JsonOther) (Some "push"%string)
             (Some (String (ascii_of_nat 233) "")) None in
  github_webhook_listener None d = Accepted "push" JsonOther None
  /\ exists x, github_webhook_listener (Some "s3cret"%string) d = Unhandled x.
Proof.
  intros d. split; [reflexivity|].
  destruct (listener_refusals (Some "s3cret"%string) d) as (_ & _ & _ & H).
  exact (H eq_refl eq_refl _ eq_refl eq_refl).
Defined.

(** X24: an event of an unregistered type that came in through the
    endpoint and is handed to the processor is sent as NEW under an event
    id that is the first 16 hex digits of the SHA-256 of the string
    [<event type>_<repository id>_<sender id>_<timestamp>], where a
    missing repository id or sender id reads [unknown] and a missing
    timestamp is replaced by the repository's [pushed_at], or by the empty
    string; the delivery GUID GitHub sent in the header plays no part in
    it. *)
Theorem endpoint_generic_identity secret d e p dl rid t :
  github_webhook_listener secret d = Accepted e (JsonObject p) dl ->
  EVENT_HANDLERS e = None ->
  process_webhook_event e p dl = Ok (Some (rid, t)) ->
  t = NEW
  /\ String.length (RidTypes.event_id rid) = 16%nat
  /\ Sha256.all_hex (RidTypes.event_id rid) = true
  /\ exists repo sender,
       g_repository (pd_generic p) = Some repo
       /\ (g_sender (pd_generic p) = NoSender /\ sender = JStr "unknown"
           \/ exists id, g_sender (pd_generic p) = SenderObject id
                         /\ sender = match id with
                                     | Some v => v
                                     | None => JStr "unknown"
                                     end)
       /\ RidTypes.event_id rid
          = take 16
              (Sha256.hexdigest
                 (Sha256.bytes_of_string
                    (e ++ "_"
                     ++ py_format (match r_id repo with
                                   | Some v => v
                                   | None => JStr "unknown"
                                   end)
                     ++ "_" ++ py_format sender ++ "_"
                     ++ py_format (match g_timestamp (pd_generic p) with
                                   | Some v => v
                                   | None =>
                                       match r_pushed_at repo with
                                       | Some v => v
                                       | None => JStr ""
                                       end
                                   end)))).
Proof.
  intros Hl Hn. apply listener_accepted in Hl as (_ & _ & _ & -> & _).
  unfold process_webhook_event. rewrite Hn. intros H.
  apply generic_event_handed_on in H as (-> & repo & Hrepo & _ & Hid).
  pose proof (generic_event_id_facts _ _ _ _ _ Hid) as (_ & _ & Hhash).
  destruct (Hhash eq_refl) as (Hlen & Hhex & raw & Hraw & _ & Heq).
  repeat split; try assumption.
  unfold generic_raw, sender_id in Hraw. cbv zeta in Hraw.
  destruct (g_sender (pd_generic p)) as [|id|] eqn:Es; [| |discriminate].
  - exists repo, (JStr "unknown"). split; [exact Hrepo|].
    split; [now left|]. injection Hraw as <-. exact Heq.
  - exists repo, (default (JStr "unknown") id). split; [exact Hrepo|].
    split; [right; exists id; now destruct id|].
    injection Hraw as <-. exact Heq.
Qed.

Lemma endpoint_generic_identity_witness :
  let p := mkPayload None None None None
             (mkGeneric
                (Some (mkRepoDict (Some (JStr "octo/repo")) (Some (JInt 5))
                         None))
                NoSender None) in
  let d := mkDelivery [] (Some (JsonObject p)) (Some "star"%string) None
             (Some "72d3162e-cc78-11e3-81ab-4c9367dc0958"%string) in
  github_webhook_listener None d = Accepted "star" (JsonObject p) None
  /\ process_webhook_event "star" p None
     = Ok (Some (RidTypes.mkGitHubEvent "octo/repo" "21c377e7d17b471f",
                 Handlers.NEW))
  /\ take 16 (Sha256.hexdigest (Sha256.bytes_of_string "star_5_unknown_"))
     = "21c377e7d17b471f".
Proof.
  intros p d. split; [reflexivity|].
  destruct (process_webhook_event "star" p None) as [[[rid t]|]|x] eqn:E;
    [| vm_compute in E; discriminate | vm_compute in E; discriminate].
  destruct (endpoint_generic_identity None d "star"%string p None rid t
              eq_refl eq_refl E)
    as (-> & _ & _ & repo & sender & Hrepo & Hs & Hid).
  injection Hrepo as <-.
  destruct Hs as [[_ ->]|(id & Hs & _)]; [|discriminate].
  assert (RidTypes.event_id rid = "21c377e7d17b471f"%string) as Hid'
    by (rewrite Hid; vm_compute; reflexivity).
  split; [|vm_compute; reflexivity].
  destruct rid as [name eid]. cbn [RidTypes.event_id] in Hid'. subst eid.
  vm_compute in E. injection E as <-. reflexivity.
Defined.

End ServerFacts.

Section DereferenceFacts.
Import GhApi Dereference.
Local Open Scope list_scope.

Variable T : Transport Item.
Variable cache_write : Bundle -> result unit.

Lemma dereference_some rid b :
  dereference_github_rid T cache_write rid = Some b ->
  b_rid b = rid /\ b_contents b <> ∅ /\ fetch_data T rid = Some (b_contents b).
Proof.
  unfold dereference_github_rid.
  destruct (fetch_data T rid) as [data|]; [|discriminate].
  destruct (decide (data = ∅)) as [|Hne]; [discriminate|].
  destruct (cache_write (mkBundle rid data)); intros [= <-]; auto.
Qed.

Lemma dereference_other text :
  dereference_github_rid T cache_write (OtherRid text) = None.
Proof. reflexivity. Qed.

Lemma fetch_loop_spec rids : forall found still,
  fetch_loop T cache_write rids found still
  = (found ++ omap (dereference_github_rid T cache_write) rids,
     still ++ List.filter
                (fun rid =>
                   negb (bool_decide
                           (is_Some (dereference_github_rid T cache_write
                                       rid)))) rids).
Proof.
  induction rids as [|rid rids IH]; intros found still.
  - cbn. now rewrite !app_nil_r.
  - cbn [fetch_loop omap list_omap List.filter].
    destruct (dereference_github_rid T cache_write rid) as [b|] eqn:E.
    + rewrite IH. rewrite bool_decide_eq_true_2 by eauto. cbn [negb].
      now rewrite <- app_assoc.
    + rewrite IH. rewrite bool_decide_eq_false_2 by (intros [? ?]; congruence).
      cbn [negb]. now rewrite <- app_assoc.
Qed.

Lemma fetch_missing_spec p :
  fetch_missing_bundles_for_payload T cache_write p
  = mkBundlesPayload
      (bundles p ++ omap (dereference_github_rid T cache_write) (not_found p))
      (List.filter
         (fun rid =>
            negb (bool_decide
                    (is_Some (dereference_github_rid T cache_write rid))))
         (not_found p)).
Proof.
  unfold fetch_missing_bundles_for_payload.
  destruct (not_found p) as [|rid rids] eqn:E.
  - cbn. rewrite app_nil_r. destruct p; cbn in *; now subst.
  - rewrite fetch_loop_spec. reflexivity.
Qed.

Lemma length_omap_filter {A B} (f : A -> option B) (l : list A) :
  (List.length (omap f l)
   + List.length (List.filter (fun a => negb (bool_decide (is_Some (f a)))) l)
   = List.length l)%nat.
Proof.
  induction l as [|a l IH]; [reflexivity|].
  cbn [omap list_omap List.filter]. destruct (f a) as [b|].
  - rewrite bool_decide_eq_true_2 by eauto. cbn. lia.
  - rewrite bool_decide_eq_false_2 by (intros [? ?]; congruence). cbn. lia.
Qed.

(** X25: [fetch_missing_bundles_for_payload] splits the RIDs listed as not
    found: the bundles it could fetch are appended, in order, to the
    bundles already present (which are kept as they are), the others
    stay listed as not found, in order; no RID is lost or duplicated, every
    appended bundle carries the RID it was fetched for and non-empty
    contents, and a failing cache write changes nothing of this. *)
Theorem fetch_missing_partition p :
  let p' := fetch_missing_bundles_for_payload T cache_write p in
  let fetched := omap (dereference_github_rid T cache_write) (not_found p) in
  bundles p' = bundles p ++ fetched
  /\ not_found p'
     = List.filter
         (fun rid =>
            negb (bool_decide
                    (is_Some (dereference_github_rid T cache_write rid))))
         (not_found p)
  /\ (List.length fetched + List.length (not_found p')
      = List.length (not_found p))%nat
  /\ List.Forall (fun b => List.In (b_rid b) (not_found p)
                           /\ b_contents b <> ∅) fetched
  /\ forall cache_write',
       fetch_missing_bundles_for_payload T cache_write' p = p'.
Proof.
  cbn zeta. rewrite fetch_missing_spec. cbn [bundles not_found].
  split; [reflexivity|]. split; [reflexivity|].
  split; [apply length_omap_filter|]. split.
  - apply List.Forall_forall. intros b Hb.
    apply in_omap in Hb as (rid & Hin & Hd).
    apply dereference_some in Hd as (<- & Hne & _). auto.
  - intros cw'. unfold fetch_missing_bundles_for_payload.
    destruct (not_found p) as [|r rs] eqn:E.
    + cbn. rewrite app_nil_r. destruct p; cbn in *; now subst.
    + assert (forall rids found still,
                 fetch_loop T cw' rids found still
                 = fetch_loop T cache_write rids found still) as Hsame.
      { induction rids as [|x xs IH]; intros found still; [reflexivity|].
        cbn [fetch_loop].
        assert (dereference_github_rid T cw' x
                = dereference_github_rid T cache_write x) as ->.
        { unfold dereference_github_rid.
          destruct (fetch_data T x) as [data|]; [|reflexivity].
          destruct (decide (data = ∅)); [reflexivity|].
          destruct (cw' _), (cache_write _); reflexivity. }
        destruct (dereference_github_rid T cache_write x); apply IH. }
      rewrite Hsame, fetch_loop_spec. reflexivity.
Qed.

Lemma fetch_missing_nothing p :
  (forall rid, List.In rid (not_found p) ->
               dereference_github_rid T cache_write rid = None) ->
  fetch_missing_bundles_for_payload T cache_write p = p.
Proof.
  intros H. rewrite fetch_missing_spec.
  assert (forall rids,
             (forall rid, List.In rid rids ->
                          dereference_github_rid T cache_write rid = None) ->
             omap (dereference_github_rid T cache_write) rids = []
             /\ List.filter
                  (fun rid =>
                     negb (bool_decide
                             (is_Some (dereference_github_rid T cache_write
                                         rid)))) rids = rids) as Hall.
  { induction rids as [|x xs IH]; intros Hx; [split; reflexivity|].
    cbn [omap list_omap List.filter].
    rewrite (Hx x) by now left.
    rewrite bool_decide_eq_false_2 by (intros [? ?]; congruence).
    cbn [negb]. destruct IH as [-> ->]; [|split; reflexivity].
    intros rid Hin. apply Hx. now right. }
  destruct (Hall _ H) as [-> ->]. rewrite app_nil_r. now destruct p.
Qed.

Lemma fetch_data_down rid :
  (forall rq, T rq = RequestError) -> fetch_data T rid = None.
Proof.
  intros Hd.
  destruct rid; cbn [fetch_data]; try reflexivity;
    unfold get_repo_details, get_commit_details, get_issue_details,
      get_pull_request_details, get_details, _make_github_request;
    now rewrite Hd.
Qed.

(** X26: a payload comes back unchanged when none of its missing RIDs can
    be fetched, which is the case whenever each of them is of a type other
    than repository, commit, issue or pull request (as every [GitHubEvent]
    RID is; no request is sent for such a RID), and whenever no request
    reaches the upstream API. *)
Theorem unfetchable_rids_stay p :
  (forall rid, List.In rid (not_found p) -> exists text, rid = OtherRid text)
  \/ (forall rq, T rq = RequestError) ->
  fetch_missing_bundles_for_payload T cache_write p = p.
Proof.
  intros H. apply fetch_missing_nothing. intros rid Hin.
  destruct H as [H|H].
  - destruct (H rid Hin) as [text ->]. reflexivity.
  - unfold dereference_github_rid. now rewrite fetch_data_down.
Qed.

End DereferenceFacts.

Lemma unfetchable_rids_stay_witness :
  let T : GhApi.Transport GhApi.Item :=
    fun _ => GhApi.Responded 200 None (Ok (<["id" := Some "1"%string]> ∅)) in
  let p := Dereference.mkBundlesPayload []
             [Dereference.OtherRid "orn:github.event:octo/repo:abc"] in
  Dereference.fetch_missing_bundles_for_payload T (fun _ => Ok tt) p = p.
Proof.
  intros T p. apply unfetchable_rids_stay. left.
  intros rid [<-|[]]. eexists. reflexivity.
Defined.

